(** * The button: a shared click counter

    A shallow embedding of the counter synchronisation engine:
    - [Worker]: the Cloudflare worker of [worker/src/index.ts], in its two
      revisions (conditional INSERT with a volume cap, and SELECT COUNT
      followed by a batch with a batch-count cap), over a model of the D1
      tables of [schema.sql];
    - [Interp]: the three revisions of the [useAnimatedCount] hook;
    - [Accumulator]: the client of [src/App.tsx];
    - [Edge]: [corsHeaders] and the calls of the Cache API around
      [handleCount] and [handleClick];
    - [Hex]: the text that [hashIP] makes of a digest;
    - [Faults]: runs and schedules of the worker in which D1 rejects
      statements;
    - [Balance], [ClientSpec], [Serial]: the notions the properties are
      stated with.
    The modules of definitions come first, the modules of proofs after.

    Conventions.  SQLite INTEGER columns and the JavaScript numbers that
    hold counts are modelled by [Z], without the bound of their 64-bit or
    53-bit range; [datetime('now')] has a resolution of one second and is
    modelled by a [Z] number of seconds (the text form
    'YYYY-MM-DD HH:MM:SS' is ordered like the number of seconds).
    Millisecond clocks of the browser and the result of [Math.random()] are
    rationals.  In [Worker], CORS headers and the edge cache are left out:
    they do not touch the tables, and [handleCount] is the one on a cache
    miss; [Edge] adds them for requests served one after the other. *)

From Stdlib Require Import ZArith QArith Qround Lqa Ascii String List Lia.
From stdpp Require Import base option list gmap strings.

Local Open Scope Z_scope.

Module Worker.

(** ** Tables of schema.sql *)

(** A row of [click_batches]. *)
Record Batch := mkBatch {
  count : Z;
  ip_hash : string;
  country : string;
  created_at : Z
}.

(** The database: the single row of [counter], the append-only ledger
    [click_batches] (oldest row first) and [turnstile_verified], keyed by
    its primary key [ip_hash]. *)
Record DB := mkDB {
  total : Z;
  click_batches : list Batch;
  turnstile_verified : gmap string Z
}.

(** ** Requests and responses *)

(** A JSON value as the handler looks at it: [typeof], truthiness and
    [Number.isInteger].  [JInt z] is a number that is the integer [z];
    [JNonInt] is any other number (a fraction, or an infinity produced by
    an overlong literal). *)
Inductive json :=
| JNull
| JBool (b : bool)
| JInt (z : Z)
| JNonInt
| JStr (s : string)
| JCompound.

(** The fields of the parsed body the handler reads; [None] is a missing
    field ([undefined]). *)
Record Body := mkBody {
  body_count : option json;
  body_token : option json
}.

(** Outcome of [await request.json()]. *)
Inductive parsed :=
| ParseError
| ParsedNull
| Parsed (b : Body).

Record Request := mkRequest {
  method : string;
  pathname : string;
  req_json : parsed;
  cf_connecting_ip : option string;
  cf_ipcountry : option string
}.

Inductive payload :=
| NoBody
| Text (msg : string)
| ErrorMsg (msg : string)
| Total (n : Z)
| OkTotal (newTotal : Z).

Record Response := mkResponse {
  status : Z;
  resp_body : payload
}.

Definition error (st : Z) (msg : string) : Response := mkResponse st (ErrorMsg msg).
Definition ok (newTotal : Z) : Response := mkResponse 200 (OkTotal newTotal).

(** Outcome of the call to the siteverify service: [fetch] rejects, the
    body is not JSON, or the body is JSON with the given [success]. *)
Inductive fetch_outcome :=
| FetchRejects
| NotJson
| Json (success : bool).

(** ** Awaited operations

    Every [await] on the database is one statement (or one [batch], which
    D1 runs as a transaction) and is atomic with respect to the other
    requests; the fetch of the siteverify service is the only other
    awaited effect that matters.  [exec] below is the effect of an
    operation that succeeds; [run] and [sys_step] are the runs and
    schedules in which every statement succeeds, and the module [Faults]
    adds the rejection of statements to both. *)
Inductive action : Type -> Type :=
| ReadTotal : action Z
| RecentVerify (ipHash : string) : action bool
| MarkVerified (ipHash : string) : action unit
| CondInsert (cnt : Z) (ipHash ctry : string) : action Z
| IncrRead (cnt : Z) : action Z
| RateCount (ipHash : string) : action Z
| InsertIncrRead (cnt : Z) (ipHash ctry : string) : action Z
| SiteVerify (token secret ip : string) : action fetch_outcome.

(** [WHERE ip_hash = ? AND created_at > datetime('now', '-5 seconds')] *)
Definition recent (now : Z) (ipHash : string) (b : Batch) : bool :=
  bool_decide (ip_hash b = ipHash) && (now - 5 <? created_at b).

Definition sum_counts (l : list Batch) : Z :=
  fold_right (fun b acc => count b + acc) 0 l.

(** [SELECT COALESCE(SUM(count), 0) FROM click_batches WHERE ...] *)
Definition window_sum (now : Z) (ipHash : string) (db : DB) : Z :=
  sum_counts (List.filter (recent now ipHash) (click_batches db)).

(** [SELECT COUNT( * ) as cnt FROM click_batches WHERE ...] *)
Definition window_count (now : Z) (ipHash : string) (db : DB) : Z :=
  Z.of_nat (length (List.filter (recent now ipHash) (click_batches db))).

(** [INSERT INTO click_batches (count, ip_hash, country) VALUES (?, ?, ?)];
    [created_at] takes its default, [datetime('now')]. *)
Definition insert_batch (now cnt : Z) (ipHash ctry : string) (db : DB) : DB :=
  mkDB (total db) (click_batches db ++ [mkBatch cnt ipHash ctry now])
       (turnstile_verified db).

(** [UPDATE counter SET total = total + ? WHERE id = 1] *)
Definition add_total (cnt : Z) (db : DB) : DB :=
  mkDB (total db + cnt) (click_batches db) (turnstile_verified db).

(** [SELECT 1 FROM turnstile_verified WHERE ip_hash = ? AND
    verified_at > datetime('now', '-60 seconds')] returns a row. *)
Definition recently_verified (now : Z) (ipHash : string) (db : DB) : bool :=
  match turnstile_verified db !! ipHash with
  | Some verified_at => now - 60 <? verified_at
  | None => false
  end.

(** [INSERT OR REPLACE INTO turnstile_verified (ip_hash, verified_at)
    VALUES (?, datetime('now'))] *)
Definition mark_verified (now : Z) (ipHash : string) (db : DB) : DB :=
  mkDB (total db) (click_batches db) (<[ipHash := now]> (turnstile_verified db)).

(** Semantics of one awaited operation at database time [now]; [svc] is
    the siteverify service. *)
Definition exec {B} (now : Z) (svc : string -> string -> string -> fetch_outcome)
    (a : action B) (db : DB) : B * DB :=
  match a in action B return B * DB with
  | ReadTotal => (total db, db)
  | RecentVerify h => (recently_verified now h db, db)
  | MarkVerified h => (tt, mark_verified now h db)
  | CondInsert cnt h ctry =>
      if window_sum now h db + cnt <=? 200
      then (1, insert_batch now cnt h ctry db)
      else (0, db)
  | IncrRead cnt =>
      (total db + cnt, add_total cnt db)
  | RateCount h =>
      (window_count now h db, db)
  | InsertIncrRead cnt h ctry =>
      (total db + cnt, add_total cnt (insert_batch now cnt h ctry db))
  | SiteVerify token secret ip =>
      (svc token secret ip, db)
  end.

(** ** Asynchronous code as a tree of awaited operations *)

Inductive prog (R : Type) : Type :=
| Ret (r : R)
| Throw
| Do {B : Type} (a : action B) (k : B -> prog R).

Arguments Ret {R} r.
Arguments Throw {R}.
Arguments Do {R B} a k.

Fixpoint bind {A R} (p : prog A) (f : A -> prog R) : prog R :=
  match p with
  | Ret a => f a
  | Throw => Throw
  | Do a k => Do a (fun b => bind (k b) f)
  end.

(** [try { p } catch { h }] *)
Fixpoint try_catch {R} (p : prog R) (h : prog R) : prog R :=
  match p with
  | Ret r => Ret r
  | Throw => h
  | Do a k => Do a (fun b => try_catch (k b) h)
  end.

#[export] Instance prog_ret : MRet prog := fun _ r => Ret r.
#[export] Instance prog_bind : MBind prog := fun _ _ f p => bind p f.

(** [await] of one operation. *)
Definition await {B} (a : action B) : prog B := Do a Ret.

(** What the caller of an asynchronous function observes. *)
Inductive result (R : Type) :=
| Returned (r : R)
| Rejected.

Arguments Returned {R} r.
Arguments Rejected {R}.

(** The clock of a task that has already awaited [k] operations. *)
Definition later (k : nat) (clock : nat -> Z) : nat -> Z :=
  fun n => clock (k + n)%nat.

(** A run of one request on its own: the [n]-th awaited operation executes
    at database time [clock n]. *)
Fixpoint run {R} (clock : nat -> Z) (svc : string -> string -> string -> fetch_outcome)
    (p : prog R) (db : DB) : result R * DB :=
  match p with
  | Ret r => (Returned r, db)
  | Throw => (Rejected, db)
  | Do a k =>
      let '(b, db') := exec (clock O) svc a db in
      run (fun n => clock (S n)) svc (k b) db'
  end.

(** ** Parts shared by the two revisions of the handler *)

(** [typeof count !== "number" || count < 1 || count > 200 ||
    !Number.isInteger(count)]: [None] when the test rejects the value,
    the count otherwise. *)
Definition validate_count (c : option json) : option Z :=
  match c with
  | Some (JInt z) => if (z <? 1) || (200 <? z) then None else Some z
  | _ => None
  end.

(** [typeof token !== "string" || !token]: [None] when the test rejects
    the value (not a string, or the empty string). *)
Definition token_string (t : option json) : option string :=
  match t with
  | Some (JStr s) => if bool_decide (s = EmptyString) then None else Some s
  | _ => None
  end.

(** [request.headers.get("CF-Connecting-IP") ?? "unknown"] *)
Definition client_ip (request : Request) : string :=
  default "unknown"%string (cf_connecting_ip request).

(** [request.headers.get("CF-IPCountry") ?? "unknown"] *)
Definition client_country (request : Request) : string :=
  default "unknown"%string (cf_ipcountry request).

(** [ip === "127.0.0.1" || ip === "::1" || ip === "unknown"] *)
Definition isLocal (ip : string) : bool :=
  bool_decide (ip = "127.0.0.1"%string) || bool_decide (ip = "::1"%string)
  || bool_decide (ip = "unknown"%string).

(** The body of [verifyTurnstile], common to both revisions: the fetch,
    [resp.json()] and [data.success]. *)
Definition siteverify (token secret ip : string) : prog bool :=
  o ← await (SiteVerify token secret ip);
  match o with
  | Json success => mret success
  | FetchRejects | NotJson => Throw
  end.

(** [handleCount] on a miss of the edge cache:
    [SELECT total FROM counter WHERE id = 1]. *)
Definition handleCount : prog Response :=
  n ← await ReadTotal;
  mret (mkResponse 200 (Total n)).

(** The [fetch] entry point of the worker, given its [handleClick]. *)
Definition fetch (handleClick : Request -> prog Response) (request : Request) : prog Response :=
  if bool_decide (method request = "OPTIONS"%string) then mret (mkResponse 200 NoBody)
  else if bool_decide (pathname request = "/count"%string)
          && bool_decide (method request = "GET"%string) then handleCount
  else if bool_decide (pathname request = "/click"%string)
          && bool_decide (method request = "POST"%string) then handleClick request
  else mret (mkResponse 404 (Text "Not found")).

(** ** The worker under concurrent requests

    The worker handles every request in its own asynchronous task; the
    tasks interleave at their awaits.  A system state holds the database,
    the database clock and the tasks in flight; an event starts a task,
    lets a task run up to its next await, or lets time pass. *)
Record sys := mkSys {
  sys_db : DB;
  sys_now : Z;
  sys_tasks : list (prog Response)
}.

Inductive event :=
| Arrive (request : Request)
| Resume (i : nat) (svc : string -> string -> string -> fetch_outcome)
| Elapse (seconds : N).

Definition resume (now : Z) (svc : string -> string -> string -> fetch_outcome)
    (p : prog Response) (db : DB) : prog Response * DB :=
  match p with
  | Do a k => let '(b, db') := exec now svc a db in (k b, db')
  | _ => (p, db)
  end.

Definition sys_step (handler : Request -> prog Response) (s : sys) (e : event) : sys :=
  match e with
  | Arrive request =>
      mkSys (sys_db s) (sys_now s) (sys_tasks s ++ [handler request])
  | Resume i svc =>
      match sys_tasks s !! i with
      | Some p =>
          let '(p', db') := resume (sys_now s) svc p (sys_db s) in
          mkSys db' (sys_now s) (<[i := p']> (sys_tasks s))
      | None => s
      end
  | Elapse seconds =>
      mkSys (sys_db s) (sys_now s + Z.of_N seconds) (sys_tasks s)
  end.

Definition sys_run (handler : Request -> prog Response) (s : sys) (es : list event) : sys :=
  fold_left (sys_step handler) es s.

(** Sum of the counts of the rows of identity [ipHash] created in the five
    seconds that follow [start]: the rows one evaluation of the rate
    predicate at time [start + 5] looks at. *)
Definition in_window (start : Z) (ipHash : string) (b : Batch) : bool :=
  bool_decide (ip_hash b = ipHash) && (start <? created_at b) && (created_at b <=? start + 5).

Definition ledger_in_window (start : Z) (ipHash : string) (db : DB) : list Batch :=
  List.filter (in_window start ipHash) (click_batches db).

(** ** Revision with the conditional INSERT (volume cap) *)
Module VolumeCap.
Section Handler.

Variable hashIP : string -> string.
Variable TURNSTILE_SECRET_KEY : string.

Definition verifyTurnstile (token secret ip : string) : prog bool :=
  try_catch (siteverify token secret ip) (mret false).

(** Lines 145-185 of [handleClick]: the conditional INSERT, then the
    batch that increments the counter and reads it. *)
Definition storeBatch (cnt : Z) (ipHash ctry : string) : prog Response :=
  changes ← await (CondInsert cnt ipHash ctry);
  if changes =? 0 then mret (error 429 "rate limited")
  else
    newTotal ← await (IncrRead cnt);
    mret (ok newTotal).

Definition handleClick (request : Request) : prog Response :=
  match req_json request with
  | ParseError => mret (error 400 "invalid JSON")
  | ParsedNull => Throw
  | Parsed body =>
      match validate_count (body_count body) with
      | None => mret (error 400 "count must be integer 1-200")
      | Some cnt =>
          let ip := client_ip request in
          let ipHash := hashIP ip in
          let ctry := client_country request in
          if isLocal ip then storeBatch cnt ipHash ctry
          else
            recentVerify ← await (RecentVerify ipHash);
            if recentVerify : bool then storeBatch cnt ipHash ctry
            else
              match token_string (body_token body) with
              | None => mret (error 400 "missing turnstile token")
              | Some token =>
                  turnstileOk ← verifyTurnstile token TURNSTILE_SECRET_KEY ip;
                  if turnstileOk : bool then
                    _ ← await (MarkVerified ipHash);
                    storeBatch cnt ipHash ctry
                  else mret (error 403 "bot detected")
              end
      end
  end.

(** The request gets past the verification gate of [handleClick]: it
    reaches [storeBatch] with the clock [clock'] and the database [db'].
    The caller is exempt, or was verified in the last 60 seconds, or
    brings a token that the service accepts (and is then recorded). *)
Inductive passes_gate (clock : nat -> Z) (svc : string -> string -> string -> fetch_outcome)
    (request : Request) (db : DB) : (nat -> Z) -> DB -> Prop :=
| gate_local :
    isLocal (client_ip request) = true ->
    passes_gate clock svc request db clock db
| gate_recent :
    isLocal (client_ip request) = false ->
    recently_verified (clock O) (hashIP (client_ip request)) db = true ->
    passes_gate clock svc request db (later 1 clock) db
| gate_token body token :
    isLocal (client_ip request) = false ->
    recently_verified (clock O) (hashIP (client_ip request)) db = false ->
    req_json request = Parsed body ->
    token_string (body_token body) = Some token ->
    svc token TURNSTILE_SECRET_KEY (client_ip request) = Json true ->
    passes_gate clock svc request db (later 3 clock)
      (mark_verified (clock 2%nat) (hashIP (client_ip request)) db).

End Handler.
End VolumeCap.

(** ** Revision with SELECT COUNT, then a batch (batch-count cap) *)
Module BatchCap.
Section Handler.

Variable hashIP : string -> string.
Variable TURNSTILE_SECRET_KEY : string.

Definition verifyTurnstile (token secret ip : string) : prog bool :=
  siteverify token secret ip.

(** Lines 321-361 of [handleClick]: the rate check, then the batch that
    inserts the row, increments the counter and reads it. *)
Definition storeBatch (cnt : Z) (ipHash ctry : string) : prog Response :=
  rateCheck ← await (RateCount ipHash);
  if 10 <=? rateCheck then mret (error 429 "rate limited")
  else
    newTotal ← await (InsertIncrRead cnt ipHash ctry);
    mret (ok newTotal).

Definition handleClick (request : Request) : prog Response :=
  match req_json request with
  | ParseError | ParsedNull => Throw
  | Parsed body =>
      match validate_count (body_count body) with
      | None => mret (error 400 "count must be integer 1-200")
      | Some cnt =>
          let ip := client_ip request in
          let ctry := client_country request in
          if isLocal ip then storeBatch cnt (hashIP ip) ctry
          else
            match token_string (body_token body) with
            | None => mret (error 400 "missing turnstile token")
            | Some token =>
                turnstileOk ← verifyTurnstile token TURNSTILE_SECRET_KEY ip;
                if turnstileOk : bool then storeBatch cnt (hashIP ip) ctry
                else mret (error 403 "bot detected")
            end
      end
  end.

(** The request gets past the verification gate of [handleClick]: the
    caller is exempt, or brings a token that the service accepts. *)
Inductive passes_gate (clock : nat -> Z) (svc : string -> string -> string -> fetch_outcome)
    (request : Request) : (nat -> Z) -> Prop :=
| gate_local :
    isLocal (client_ip request) = true ->
    passes_gate clock svc request clock
| gate_token body token :
    isLocal (client_ip request) = false ->
    req_json request = Parsed body ->
    token_string (body_token body) = Some token ->
    svc token TURNSTILE_SECRET_KEY (client_ip request) = Json true ->
    passes_gate clock svc request (later 1 clock).

End Handler.
End BatchCap.

(** ** Requests served one after the other *)

(** One request with its environment: the database times of its awaited
    operations and the siteverify service it meets. *)
Record call := mkCall {
  call_clock : nat -> Z;
  call_svc : string -> string -> string -> fetch_outcome;
  call_request : Request
}.

Fixpoint serve (handler : Request -> prog Response) (calls : list call) (db : DB)
    : list (result Response) * DB :=
  match calls with
  | [] => ([], db)
  | c :: cs =>
      let '(r, db1) := run (call_clock c) (call_svc c) (handler (call_request c)) db in
      let '(rs, db2) := serve handler cs db1 in
      (r :: rs, db2)
  end.

(** The response is the success response [{ ok: true, total }]. *)
Definition accepted (r : result Response) : bool :=
  match r with
  | Returned resp => match resp_body resp with OkTotal _ => true | _ => false end
  | Rejected => false
  end.

Definition status_of (r : result Response) : option Z :=
  match r with
  | Returned resp => Some (status resp)
  | Rejected => None
  end.

(** The count a request asks for, [0] when it carries no valid count. *)
Definition requested (request : Request) : Z :=
  match req_json request with
  | Parsed body => default 0 (validate_count (body_count body))
  | _ => 0
  end.

Fixpoint credited (calls : list call) (rs : list (result Response)) : Z :=
  match calls, rs with
  | c :: cs, r :: rs' =>
      (if accepted r then requested (call_request c) else 0) + credited cs rs'
  | _, _ => 0
  end.

(** ** Properties of tasks and ledgers used as invariants *)

Fixpoint all_actions {R} (P : forall B, action B -> Prop) (p : prog R) : Prop :=
  match p with
  | Do a k => P _ a /\ forall b, all_actions P (k b)
  | _ => True
  end.

(** Every count an operation writes is non-negative. *)
Definition writes_nonneg B (a : action B) : Prop :=
  match a with
  | CondInsert cnt _ _ | IncrRead cnt | InsertIncrRead cnt _ _ => 0 <= cnt
  | _ => True
  end.

(** Rows enter the ledger through the conditional INSERT only. *)
Definition inserts_guarded B (a : action B) : Prop :=
  match a with
  | CondInsert cnt _ _ => 0 <= cnt
  | InsertIncrRead _ _ _ => False
  | _ => True
  end.

(** Counts are non-negative, no row is dated in the future, and no
    identity has more than 200 clicks in a window of five seconds. *)
Definition ledger_ok (now : Z) (db : DB) : Prop :=
  Forall (fun b => 0 <= count b /\ created_at b <= now) (click_batches db) /\
  forall start ipHash, sum_counts (ledger_in_window start ipHash db) <= 200.

(** ** Effects and invariants *)

(** What one run of a handler does to the counter and to the ledger:
    either it answers with the success response, having appended one row
    and added its count, or it leaves both alone. *)
Definition click_effect (hashIP : string -> string) (request : Request) (db : DB)
    (out : result Response * DB) : Prop :=
  let '(res, db') := out in
  if accepted res then
    res = Returned (ok (total db + requested request)) /\
    1 <= requested request <= 200 /\
    total db' = total db + requested request /\
    exists t, click_batches db' =
      click_batches db ++
        [mkBatch (requested request) (hashIP (client_ip request)) (client_country request) t]
  else total db' = total db /\ click_batches db' = click_batches db.

(** The invariant of the system: the ledger respects the cap and every
    task in flight inserts rows through the conditional INSERT only. *)
Definition sys_inv (s : sys) : Prop :=
  ledger_ok (sys_now s) (sys_db s) /\
  Forall (all_actions inserts_guarded) (sys_tasks s).

(** ** Sample inputs *)

Definition empty_db : DB := mkDB 0 [] ∅.

Definition click (cnt : Z) (token : option json) (ip : option string) : Request :=
  mkRequest "POST" "/click" (Parsed (mkBody (Some (JInt cnt)) token)) ip None.

Definition at_time (now : Z) : nat -> Z := fun _ => now.
Definition accepting : string -> string -> string -> fetch_outcome := fun _ _ _ => Json true.
Definition refusing : string -> string -> string -> fetch_outcome := fun _ _ _ => Json false.
Definition unreachable : string -> string -> string -> fetch_outcome := fun _ _ _ => FetchRejects.

(** One identity with 200 clicks, and one with 10 batches, at second 100. *)
Definition full_window : DB := mkDB 200 [mkBatch 200 "unknown" "unknown" 100] ∅.
Definition ten_batches : DB := mkDB 10 (repeat (mkBatch 1 "unknown" "unknown" 100) 10) ∅.

(** A stand-in for the digest in examples. *)
Definition plain : string -> string := fun ip => ip.

(** The worker at second 100 with empty tables and no task in flight. *)
Definition idle : sys := mkSys empty_db 100 [].

(** [n] requests of 200 clicks each from callers without a
    [CF-Connecting-IP] header.  In [burst] they all arrive, then each runs
    to its second await, then each runs to its end; in [one_by_one] each
    request is served before the next one arrives. *)
Definition burst (n : nat) : list event :=
  map (fun _ => Arrive (click 200 None None)) (seq 0 n)
  ++ map (fun i => Resume i accepting) (seq 0 n)
  ++ map (fun i => Resume i accepting) (seq 0 n).

Definition one_by_one (n : nat) : list event :=
  flat_map (fun i => [Arrive (click 200 None None); Resume i accepting; Resume i accepting])
           (seq 0 n).

End Worker.


(** * The animated count (useAnimatedCount)

    The hook keeps its state in refs; a state of the model holds the refs
    and the React state [displayCount].  [performance.now()], the time
    stamp of an animation frame and [Math.random()] are inputs of the
    operations.  Counts are integers; times are rationals, which stand
    for the doubles of the browser.  [duration] is the argument of the
    hook, a positive number of milliseconds. *)
Module Interp.

Definition Qltb (x y : Q) : bool := negb (Qle_bool y x).

(** [Math.round]: the nearest integer, halves upwards. *)
Definition round (x : Q) : Z := Qfloor (x + (1 # 2)).

(** ** Revision with animation anchors and a deadline (index.ts, lines 383-485) *)
Module Deadline.
Section Hook.

Variable duration : Q.

Record state := mkState {
  displayCount : option Z;
  targetRef : Z;
  displayRef : Z;
  initializedRef : bool;
  rafRef : bool;
  animStartRef : Q;
  animStartDisplayRef : Z;
  animTargetRef : Z
}.

(** The refs and the state when the hook mounts; [rafRef] is [true] when
    it holds the handle of a requested frame. *)
Definition init : state := mkState None 0 0 false false 0 0 0.

(** [displayRef.current = v; setDisplayCount(displayRef.current)] *)
Definition show (v : Z) (s : state) : state :=
  mkState (Some v) (targetRef s) v (initializedRef s) (rafRef s)
          (animStartRef s) (animStartDisplayRef s) (animTargetRef s).

Definition set_raf (b : bool) (s : state) : state :=
  mkState (displayCount s) (targetRef s) (displayRef s) (initializedRef s) b
          (animStartRef s) (animStartDisplayRef s) (animTargetRef s).

Definition tick (now rnd : Q) (s : state) : state :=
  let elapsed := (now - animStartRef s)%Q in
  let totalGap := animTargetRef s - animStartDisplayRef s in
  if (totalGap <=? 0) || Qle_bool duration elapsed then
    set_raf false
      (if displayRef s <? targetRef s then show (targetRef s) s else s)
  else
    let progress := (elapsed / duration)%Q in
    let targetDisplay := animStartDisplayRef s + round (inject_Z totalGap * progress) in
    let jitteredTarget := targetDisplay + (if Qltb rnd (3 # 10) then 1 else 0) in
    let newDisplay := Z.min jitteredTarget (targetRef s) in
    set_raf true
      (if displayRef s <? newDisplay then show newDisplay s else s).

Definition startAnimation (now : Q) (fromDisplay toTarget : Z) (s : state) : state :=
  mkState (displayCount s) (targetRef s) (displayRef s) (initializedRef s) true
          now fromDisplay toTarget.

Definition setTarget (now : Q) (newTarget : Z) (s : state) : state :=
  if newTarget <=? targetRef s then s
  else
    let s1 := mkState (displayCount s) newTarget (displayRef s) (initializedRef s)
                      (rafRef s) (animStartRef s) (animStartDisplayRef s) (animTargetRef s) in
    if negb (initializedRef s1) then
      mkState (Some newTarget) newTarget newTarget true (rafRef s1)
              (animStartRef s1) (animStartDisplayRef s1) (animTargetRef s1)
    else startAnimation now (displayRef s1) newTarget s1.

Definition addImmediate (n : Z) (s : state) : state :=
  mkState (Some (displayRef s + n)) (targetRef s + n) (displayRef s + n) true (rafRef s)
          (animStartRef s) (animStartDisplayRef s + n) (targetRef s + n).

(** What can happen to the hook: a call of [setTarget] (at time [now]),
    a call of [addImmediate], or an animation frame, which runs [tick]
    when a frame has been requested. *)
Inductive event :=
| SetTarget (now : Q) (newTarget : Z)
| AddImmediate (n : Z)
| Frame (now rnd : Q).

Definition step (s : state) (e : event) : state :=
  match e with
  | SetTarget now newTarget => setTarget now newTarget s
  | AddImmediate n => addImmediate n s
  | Frame now rnd => if rafRef s then tick now rnd s else s
  end.

Definition run (s : state) (es : list event) : state := fold_left step es s.

End Hook.
End Deadline.

(** ** Revision with a rate proportional to the gap (part_000) *)
Module Rate.
Section Hook.

Variable duration : Q.

Record state := mkState {
  displayCount : Z;
  targetRef : Z;
  displayRef : Z;
  initializedRef : bool;
  rafRef : bool;
  lastFrameRef : Q
}.

Definition init : state := mkState 0 0 0 false false 0.

Definition show (v : Z) (s : state) : state :=
  mkState v (targetRef s) v (initializedRef s) (rafRef s) (lastFrameRef s).

Definition set_raf (b : bool) (s : state) : state :=
  mkState (displayCount s) (targetRef s) (displayRef s) (initializedRef s) b (lastFrameRef s).

Definition set_lastFrame (now : Q) (s : state) : state :=
  mkState (displayCount s) (targetRef s) (displayRef s) (initializedRef s) (rafRef s) now.

Definition tick (now rnd : Q) (s : state) : state :=
  let gap := targetRef s - displayRef s in
  if gap <=? 0 then set_raf false s
  else
    let elapsed := (now - lastFrameRef s)%Q in
    let dt := if Qle_bool elapsed 100 then elapsed else 100%Q in
    let s1 := set_lastFrame now s in
    let expected := (inject_Z gap * (dt / duration))%Q in
    let floor := Qfloor expected in
    let frac := (expected - inject_Z floor)%Q in
    let inc := floor + (if Qltb rnd frac then 1 else 0) in
    set_raf true
      (if 0 <? inc then show (Z.min (displayRef s1 + inc) (targetRef s1)) s1 else s1).

Definition startAnimation (now : Q) (s : state) : state :=
  if rafRef s then s else set_raf true (set_lastFrame now s).

Definition setTarget (now : Q) (newTarget : Z) (s : state) : state :=
  if newTarget <=? targetRef s then s
  else
    let s1 := mkState (displayCount s) newTarget (displayRef s) (initializedRef s)
                      (rafRef s) (lastFrameRef s) in
    if negb (initializedRef s1) then
      mkState newTarget newTarget newTarget true (rafRef s1) (lastFrameRef s1)
    else
      let s2 := if displayRef s1 <? targetRef s1 then show (displayRef s1 + 1) s1 else s1 in
      startAnimation now s2.

Definition addImmediate (n : Z) (s : state) : state :=
  mkState (displayRef s + n) (targetRef s + n) (displayRef s + n) true (rafRef s)
          (lastFrameRef s).

Inductive event :=
| SetTarget (now : Q) (newTarget : Z)
| AddImmediate (n : Z)
| Frame (now rnd : Q).

Definition step (s : state) (e : event) : state :=
  match e with
  | SetTarget now newTarget => setTarget now newTarget s
  | AddImmediate n => addImmediate n s
  | Frame now rnd => if rafRef s then tick now rnd s else s
  end.

Definition run (s : state) (es : list event) : state := fold_left step es s.

End Hook.
End Rate.

(** ** Revision with scattered timers (part_001) *)
Module Scatter.
Section Hook.

Variable duration : Q.

(** The two closures given to [setTimeout]: one increment, or a chunk of
    [inc] increments cut off at the target. *)
Inductive callback :=
| Step
| Chunk (inc : Z).

Record timer := mkTimer {
  delay : Q;
  fires : callback
}.

(** [timersRef] holds the timers that are still pending: clearing a timer
    that has fired does nothing. *)
Record state := mkState {
  displayCount : Z;
  targetRef : Z;
  displayRef : Z;
  timersRef : list timer;
  initializedRef : bool
}.

Definition init : state := mkState 0 0 0 [] false.

Definition show (v : Z) (s : state) : state :=
  mkState v (targetRef s) v (timersRef s) (initializedRef s).

Definition set_timers (ts : list timer) (s : state) : state :=
  mkState (displayCount s) (targetRef s) (displayRef s) ts (initializedRef s).

Definition clearTimers (s : state) : state := set_timers [] s.

(** [times.sort((a, b) => a - b)] *)
Fixpoint insert_time (t : Q) (ts : list Q) : list Q :=
  match ts with
  | [] => [t]
  | u :: us => if Qle_bool t u then t :: ts else u :: insert_time t us
  end.

Definition sort_times (ts : list Q) : list Q := fold_right insert_time [] ts.

(** [Math.ceil(animationDelta / batchCount)] *)
Definition ceil_div (a b : Z) : Z := - ((- a) / b).

(** The loop over [i < batchCount] of the branch for large deltas. *)
Definition chunk_timers (animationDelta : Z) : list timer :=
  let batchCount := 200 in
  let perBatch := ceil_div animationDelta batchCount in
  flat_map (fun i : nat =>
      let dly := ((Z.of_nat i # 1) / (batchCount # 1) * duration)%Q in
      let inc := if (Z.of_nat i =? batchCount - 1)
                 then animationDelta - perBatch * Z.of_nat i else perBatch in
      if inc <=? 0 then [] else [mkTimer dly (Chunk inc)])
    (seq 0 200).

(** The branch for small deltas; [rnd i] is the [i]-th [Math.random()]. *)
Definition step_timers (rnd : nat -> Q) (animationDelta : Z) : list timer :=
  let times := sort_times
    (map (fun i => (rnd i * duration)%Q) (seq 0 (Z.to_nat animationDelta))) in
  map (fun t => mkTimer t Step) times.

Definition setTarget (rnd : nat -> Q) (newTarget : Z) (s : state) : state :=
  if newTarget <=? targetRef s then s
  else
    let s1 := mkState (displayCount s) newTarget (displayRef s) (timersRef s)
                      (initializedRef s) in
    if negb (initializedRef s1) then
      mkState newTarget newTarget newTarget (timersRef s1) true
    else
      let s2 := clearTimers s1 in
      let delta := newTarget - displayRef s2 in
      if delta <=? 0 then s2
      else
        let immediate := Z.min delta 1 in
        let s3 := if 0 <? immediate
                  then show (Z.min (displayRef s2 + immediate) (targetRef s2)) s2
                  else s2 in
        let animationDelta := delta - immediate in
        if animationDelta <=? 0 then s3
        else if 500 <? animationDelta
        then set_timers (timersRef s3 ++ chunk_timers animationDelta) s3
        else set_timers (timersRef s3 ++ step_timers rnd animationDelta) s3.

Definition addImmediate (n : Z) (s : state) : state :=
  mkState (displayRef s + n) (targetRef s + n) (displayRef s + n) (timersRef s) true.

(** The callback of a timer. *)
Definition fire (c : callback) (s : state) : state :=
  match c with
  | Step => show (displayRef s + 1) s
  | Chunk inc => show (Z.min (displayRef s + inc) (targetRef s)) s
  end.

(** [Timeout i]: the [i]-th pending timer fires.  The browser fires the
    timers by due time; the model lets them fire in any order. *)
Inductive event :=
| SetTarget (rnd : nat -> Q) (newTarget : Z)
| AddImmediate (n : Z)
| Timeout (i : nat).

Definition step (s : state) (e : event) : state :=
  match e with
  | SetTarget rnd newTarget => setTarget rnd newTarget s
  | AddImmediate n => addImmediate n s
  | Timeout i =>
      match timersRef s !! i with
      | Some t => fire (fires t) (set_timers (delete i (timersRef s)) s)
      | None => s
      end
  end.

Definition run (s : state) (es : list event) : state := fold_left step es s.

End Hook.
End Scatter.

(** ** Events allowed and invariants *)

Definition deadline_nonneg (e : Deadline.event) : Prop :=
  match e with
  | Deadline.AddImmediate n => 0 <= n
  | _ => True
  end.

(** The displayed value is below the target, and the React state shows
    the displayed value once it has been set. *)
Definition deadline_inv (s : Deadline.state) : Prop :=
  Deadline.displayRef s <= Deadline.targetRef s /\
  (Deadline.displayCount s = None \/
   Deadline.displayCount s = Some (Deadline.displayRef s)).

Definition rate_nonneg (e : Rate.event) : Prop :=
  match e with
  | Rate.AddImmediate n => 0 <= n
  | _ => True
  end.

Definition rate_inv (s : Rate.state) : Prop :=
  Rate.displayRef s <= Rate.targetRef s /\
  Rate.displayCount s = Rate.displayRef s.

Definition scatter_nonneg (e : Scatter.event) : Prop :=
  match e with
  | Scatter.AddImmediate n => 0 <= n
  | _ => True
  end.

Definition is_chunk (t : Scatter.timer) : Prop :=
  match Scatter.fires t with
  | Scatter.Chunk inc => 0 < inc
  | Scatter.Step => False
  end.

Definition is_step (t : Scatter.timer) : Prop :=
  Scatter.fires t = Scatter.Step.

(** The pending timers come from one call of [setTarget]: they are all
    chunks, or they are single steps that together lead the displayed
    value no further than the target. *)
Definition scatter_inv (s : Scatter.state) : Prop :=
  Scatter.displayRef s <= Scatter.targetRef s /\
  Scatter.displayCount s = Scatter.displayRef s /\
  (Forall is_chunk (Scatter.timersRef s) \/
   Forall is_step (Scatter.timersRef s) /\
   Scatter.displayRef s + Z.of_nat (length (Scatter.timersRef s)) <= Scatter.targetRef s) /\
  (Scatter.initializedRef s = false -> Scatter.timersRef s = []).

(** Between a call of [setTarget] and the deadline, no newer target
    arrives: only frames and own clicks. *)
Definition quiet (e : Deadline.event) : Prop :=
  match e with
  | Deadline.SetTarget _ _ => False
  | Deadline.AddImmediate n => 0 <= n
  | Deadline.Frame _ _ => True
  end.

(** After [setTarget] at time [now0]: a frame is requested and the
    anchor is [now0], or the display has already reached the target. *)
Definition animating (now0 : Q) (t : Z) (s : Deadline.state) : Prop :=
  Deadline.displayRef s <= Deadline.targetRef s /\
  t <= Deadline.targetRef s /\
  (Deadline.rafRef s = true /\ Deadline.animStartRef s = now0 \/
   Deadline.displayRef s = Deadline.targetRef s).

(** ** Sample runs *)

(** The hook after a first poll that returned 100, then a poll at time 0
    that returns 600, then [n] animation frames, one every [period]
    milliseconds, each with the random number [rnd]. *)
Definition frames (period rnd : Q) (n : nat) : list Rate.event :=
  map (fun k : nat => Rate.Frame (inject_Z (Z.of_nat k) * period) rnd) (seq 1 n).

Definition jump_100_600 (period rnd : Q) (n : nat) : list Rate.event :=
  Rate.SetTarget 0 100 :: Rate.SetTarget 0 600 :: frames period rnd n.

End Interp.

(** * The client (src/App.tsx)

    The refs of [App] and the hook it mounts, [useAnimatedCount] in its
    revision with a deadline (the one whose [displayCount] can be [null]).
    [Date.now()] is an integer number of milliseconds.  The callbacks run
    one at a time on the event loop; a POST of the batch sender that is
    awaiting its response is kept in [inflight] with the [batch] its
    closure holds.  The pressed flag of the button and the timer that
    clears the error banner after three seconds are presentation and are
    left out. *)
Module Accumulator.

Definition CLICK_CAP_PER_SECOND : Z := 40.
Definition BATCH_INTERVAL_MS : Z := 1000.
Definition POLL_INTERVAL_MS : Q := 2000.

Record state := mkState {
  hook : Interp.Deadline.state;
  clicksPerSecond : Z;
  error : option string;
  rateLimitedUntilRef : Z;
  pendingRef : Z;
  clickTimestampsRef : list Z;
  turnstileTokenRef : string;
  localDeltaRef : Z;
  inflight : list Z
}.

Definition init : state :=
  mkState Interp.Deadline.init 0 None 0 0 [] "" 0 [].

(** Outcome of an awaited [fetch]: it rejects, or it resolves to a
    response with a status and a body; [None] is a body on which
    [resp.json()] throws, [Some total] a body with that [total]. *)
Inductive reply :=
| NetworkError
| Resp (status : Z) (body : option Z).

(** [resp.ok] *)
Definition resp_ok (status : Z) : bool := (200 <=? status) && (status <=? 299).

(** [clickTimestampsRef.current.filter((t) => now - t < 1000)] *)
Definition recentClicks (now : Z) (s : state) : list Z :=
  List.filter (fun t => now - t <? 1000) (clickTimestampsRef s).

(** [handleClick] *)
Definition handleClick (now : Z) (s : state) : state :=
  if CLICK_CAP_PER_SECOND <=? Z.of_nat (length (recentClicks now s)) then s
  else
    mkState (Interp.Deadline.addImmediate 1 (hook s)) (clicksPerSecond s) (error s)
            (rateLimitedUntilRef s) (pendingRef s + 1)
            (clickTimestampsRef s ++ [now]) (turnstileTokenRef s)
            (localDeltaRef s + 1) (inflight s).

(** The interval that tracks clicks per second. *)
Definition trackClicks (now : Z) (s : state) : state :=
  mkState (hook s) (Z.of_nat (length (recentClicks now s))) (error s)
          (rateLimitedUntilRef s) (pendingRef s) (recentClicks now s)
          (turnstileTokenRef s) (localDeltaRef s) (inflight s).

Definition with_hook (h : Interp.Deadline.state) (s : state) : state :=
  mkState h (clicksPerSecond s) (error s) (rateLimitedUntilRef s) (pendingRef s)
          (clickTimestampsRef s) (turnstileTokenRef s) (localDeltaRef s) (inflight s).

(** [fetchCount], once the GET of [/count] has settled; [pnow] is the
    [performance.now()] that [setTarget] reads. *)
Definition fetchCount (r : reply) (pnow : Q) (s : state) : state :=
  match r with
  | Resp status (Some total) =>
      if resp_ok status
      then with_hook (Interp.Deadline.setTarget pnow (total + localDeltaRef s) (hook s)) s
      else s
  | Resp status None => s
  | NetworkError => s
  end.

(** The batch sender up to its [await fetch]: the batch leaves the
    pending buffer and its POST is in flight. *)
Definition sendBatch (now : Z) (s : state) : state :=
  if pendingRef s <=? 0 then s
  else if now <? rateLimitedUntilRef s then s
  else
    let batch := Z.min (pendingRef s) 200 in
    mkState (hook s) (clicksPerSecond s) (error s) (rateLimitedUntilRef s)
            (pendingRef s - batch) (clickTimestampsRef s) (turnstileTokenRef s)
            (localDeltaRef s) (inflight s ++ [batch]).

(** The [catch] block of the batch sender. *)
Definition connectionLost (batch : Z) (s : state) : state :=
  mkState (hook s) (clicksPerSecond s) (Some "connection lost"%string)
          (rateLimitedUntilRef s) (pendingRef s + batch) (clickTimestampsRef s)
          (turnstileTokenRef s) (localDeltaRef s) (inflight s).

(** The batch sender after its [await fetch], for the POST of [batch]. *)
Definition batchSettled (batch : Z) (r : reply) (now : Z) (pnow : Q) (s : state) : state :=
  match r with
  | NetworkError => connectionLost batch s
  | Resp status body =>
      if resp_ok status then
        match body with
        | None => connectionLost batch s
        | Some total =>
            let localDelta := Z.max 0 (localDeltaRef s - batch) in
            mkState (Interp.Deadline.setTarget pnow (total + localDelta) (hook s))
                    (clicksPerSecond s) None (rateLimitedUntilRef s) (pendingRef s)
                    (clickTimestampsRef s) (turnstileTokenRef s) localDelta (inflight s)
        end
      else if status =? 429 then
        mkState (hook s) (clicksPerSecond s) (Some "slow down!"%string)
                (now + 5000) (pendingRef s + batch) (clickTimestampsRef s)
                (turnstileTokenRef s) (localDeltaRef s) (inflight s)
      else
        mkState (hook s) (clicksPerSecond s) (error s) (rateLimitedUntilRef s)
                (pendingRef s) (clickTimestampsRef s) (turnstileTokenRef s)
                (Z.max 0 (localDeltaRef s - batch)) (inflight s)
  end.

(** [flush], on [visibilitychange] to hidden and on [beforeunload]: the
    response of its POST is not looked at. *)
Definition flush (s : state) : state :=
  if pendingRef s <=? 0 then s
  else
    mkState (hook s) (clicksPerSecond s) (error s) (rateLimitedUntilRef s)
            (pendingRef s - Z.min (pendingRef s) 200) (clickTimestampsRef s)
            (turnstileTokenRef s) (localDeltaRef s) (inflight s).

Definition drop_inflight (i : nat) (s : state) : state :=
  mkState (hook s) (clicksPerSecond s) (error s) (rateLimitedUntilRef s) (pendingRef s)
          (clickTimestampsRef s) (turnstileTokenRef s) (localDeltaRef s)
          (delete i (inflight s)).

Inductive event :=
| Click (now : Z)
| TrackClicks (now : Z)
| Polled (r : reply) (pnow : Q)
| SendBatch (now : Z)
| Settled (i : nat) (r : reply) (now : Z) (pnow : Q)
| Flush
| Frame (pnow rnd : Q).

Definition step (s : state) (e : event) : state :=
  match e with
  | Click now => handleClick now s
  | TrackClicks now => trackClicks now s
  | Polled r pnow => fetchCount r pnow s
  | SendBatch now => sendBatch now s
  | Settled i r now pnow =>
      match inflight s !! i with
      | Some batch => batchSettled batch r now pnow (drop_inflight i s)
      | None => s
      end
  | Flush => flush s
  | Frame pnow rnd =>
      with_hook (Interp.Deadline.step POLL_INTERVAL_MS (hook s)
                   (Interp.Deadline.Frame pnow rnd)) s
  end.

Definition run (s : state) (es : list event) : state := fold_left step es s.

(** Five clicks at second 1, not yet sent. *)
Definition five_pending : state :=
  run init [Click 1000; Click 1100; Click 1200; Click 1300; Click 1400].

End Accumulator.

(** * Bookkeeping of the worker: counter against ledger *)
Module Balance.
Import Worker.

(** The rows of one identity, in ledger order. *)
Definition rows_of (ipHash : string) (db : DB) : list Batch :=
  List.filter (fun b => bool_decide (ip_hash b = ipHash)) (click_batches db).

(** The count a task still has to add to the counter: it has inserted its
    row and is about to run the batch that increments the counter. *)
Definition owed (p : prog Response) : Z :=
  match p with
  | Do (IncrRead cnt) _ => cnt
  | _ => 0
  end.

(** Counter plus what the task owes, minus the sum of the ledger. *)
Definition balance (db : DB) (p : prog Response) : Z :=
  total db + owed p - sum_counts (click_batches db).

(** Every awaited operation of the task keeps the balance, and the task
    never owes a negative count. *)
Fixpoint balanced (p : prog Response) : Prop :=
  match p with
  | Do a k =>
      0 <= owed p /\
      (forall now svc db,
          balance (exec now svc a db).2 (k (exec now svc a db).1) = balance db p) /\
      (forall b, balanced (k b))
  | _ => True
  end.

Definition owed_all (tasks : list (prog Response)) : Z :=
  foldr (fun p acc => owed p + acc) 0 tasks.

(** A task that has returned or thrown. *)
Definition finished (p : prog Response) : Prop :=
  match p with
  | Do _ _ => False
  | _ => True
  end.

(** Both revisions behind the [fetch] entry point. *)
Definition volume (hashIP : string -> string) (key : string) : Request -> prog Response :=
  fetch (VolumeCap.handleClick hashIP key).
Definition batch (hashIP : string -> string) (key : string) : Request -> prog Response :=
  fetch (BatchCap.handleClick hashIP key).

(** A request from a caller that is not exempt, with a token. *)
Definition remote (cnt : Z) (token : option json) : Request :=
  click cnt token (Some "203.0.113.7"%string).

End Balance.

(** * Auxiliary notions for the client-side properties *)
Module ClientSpec.
Import Interp.

(** The increments that the pending chunk timers still carry. *)
Definition chunk_sum (ts : list Scatter.timer) : Z :=
  foldr (fun t acc =>
           match Scatter.fires t with
           | Scatter.Chunk inc => inc + acc
           | Scatter.Step => acc
           end) 0 ts.

(** In the revision with scattered timers, the pending timers carry
    exactly (single steps) or at least (chunks) the distance from the
    displayed value to the target. *)
Definition scatter_covers (s : Scatter.state) : Prop :=
  Scatter.displayRef s <= Scatter.targetRef s /\
  (Forall is_step (Scatter.timersRef s) /\
   Scatter.displayRef s + Z.of_nat (length (Scatter.timersRef s)) = Scatter.targetRef s \/
   Forall is_chunk (Scatter.timersRef s) /\
   Scatter.targetRef s <= Scatter.displayRef s + chunk_sum (Scatter.timersRef s)) /\
  (Scatter.initializedRef s = false -> Scatter.timersRef s = []) /\
  (length (Scatter.timersRef s) <= 500)%nat.

(** In the revision with a deadline: a requested frame belongs to an
    animation towards the current target of an initialised hook. *)
Definition anchored (s : Deadline.state) : Prop :=
  Deadline.rafRef s = true ->
  Deadline.animTargetRef s = Deadline.targetRef s /\
  Deadline.initializedRef s = true.

(** After [setTarget] at [now0] and until a newer target: the anchor is
    [now0], and a frame is requested or the display is at the target. *)
Definition running (now0 : Q) (s : Deadline.state) : Prop :=
  Deadline.displayRef s <= Deadline.targetRef s /\
  Deadline.animStartRef s = now0 /\
  (Deadline.rafRef s = true \/ Deadline.displayRef s = Deadline.targetRef s).

(** The [Date.now()] an event of the client reads, if any. *)
Definition stamp (e : Accumulator.event) : option Z :=
  match e with
  | Accumulator.Click now | Accumulator.TrackClicks now
  | Accumulator.SendBatch now | Accumulator.Settled _ _ now _ => Some now
  | _ => None
  end.

(** The events read a clock that starts at [t] and never goes back. *)
Fixpoint chronological (t : Z) (es : list Accumulator.event) : Prop :=
  match es with
  | [] => True
  | e :: es' =>
      match stamp e with
      | Some now => t <= now /\ chronological now es'
      | None => chronological t es'
      end
  end.

(** The last clock value read by the events, [t] when there is none. *)
Fixpoint last_stamp (t : Z) (es : list Accumulator.event) : Z :=
  match es with
  | [] => t
  | e :: es' => last_stamp (default t (stamp e)) es'
  end.

Definition in_flight (s : Accumulator.state) : Z :=
  foldr Z.add 0 (Accumulator.inflight s).

(** The event reads its clock, if it reads one, at [lo] or later and
    before [hi]. *)
Definition within (lo hi : Z) (e : Accumulator.event) : bool :=
  match stamp e with
  | Some now => (lo <=? now) && (now <? hi)
  | None => true
  end.

(** The page is not hidden or closed: no event is a [flush]. *)
Definition page_stays (es : list Accumulator.event) : bool :=
  forallb (fun e => match e with Accumulator.Flush => false | _ => true end) es.

(** The outcomes after which the batch sender puts the batch back: the
    fetch rejects, the status is 429, or the status is a success but the
    body cannot be parsed. *)
Definition requeues (r : Accumulator.reply) : bool :=
  match r with
  | Accumulator.NetworkError => true
  | Accumulator.Resp status body =>
      if Accumulator.resp_ok status
      then match body with None => true | Some _ => false end
      else status =? 429
  end.

(** The buffer of the client: nothing negative is pending, every batch
    in flight passes the count validation of the worker, and the clicks
    pending or in flight are all part of the unsynced local delta. *)
Definition buffer_ok (s : Accumulator.state) : Prop :=
  0 <= Accumulator.pendingRef s /\
  Forall (fun b => Worker.validate_count (Some (Worker.JInt b)) = Some b)
         (Accumulator.inflight s) /\
  Accumulator.pendingRef s + in_flight s <= Accumulator.localDeltaRef s.

End ClientSpec.

(** * The worker behind the edge cache (revision with per-origin keys)

    [corsHeaders], and [handleCount] and [handleClick] with their calls of
    the Cache API, for requests served one after the other.  A cache key
    is the URL [/count?origin=...] resolved against [request.url]; it is
    modelled by the pair of the base of [request.url] and the origin put
    in the query (distinct origins give distinct URLs).  The cache is
    [None] where [caches.default] is not available (local development):
    both [try] blocks then fall through.  The platform may drop an entry
    at any time (expiry after [s-maxage]); that only turns a hit into a
    miss and is not modelled. *)
Module Edge.
Import Worker.

Definition ALLOWED_ORIGINS : list string :=
  ["https://theglobalcounter.com"; "https://www.theglobalcounter.com";
   "http://localhost:5173"; "http://localhost:4173"]%string.

Record cors := mkCors {
  allow_origin : string;
  allow_methods : string;
  allow_headers : string
}.

(** [corsHeaders]; [origin] is the [Origin] header of the request. *)
Definition corsHeaders (origin : option string) : cors :=
  let o := default ""%string origin in
  mkCors (if bool_decide (o ∈ ALLOWED_ORIGINS) then o
          else default ""%string (head ALLOWED_ORIGINS))
         "GET, POST, OPTIONS" "Content-Type".

(** A response with its CORS headers. *)
Record reply := mkReply {
  answer : Response;
  headers : cors
}.

Record world := mkWorld {
  store : DB;
  cache : option (gmap (string * string) reply)
}.

(** [request.headers.get("Origin") ?? "none"] *)
Definition cache_origin (origin : option string) : string :=
  default "none"%string origin.

Definition handleCount (base : string) (origin : option string) (w : world)
    : reply * world :=
  let key := (base, cache_origin origin) in
  let fresh := mkReply (mkResponse 200 (Total (total (store w)))) (corsHeaders origin) in
  match cache w with
  | Some c =>
      match c !! key with
      | Some cached => (cached, w)
      | None => (fresh, mkWorld (store w) (Some (<[key := fresh]> c)))
      end
  | None => (fresh, w)
  end.

(** The loop over [[...ALLOWED_ORIGINS, "none"]] that deletes the
    entries of the click's base. *)
Definition invalidate (base : string) (c : gmap (string * string) reply)
    : gmap (string * string) reply :=
  foldr (fun o acc => delete (base, o) acc) c (ALLOWED_ORIGINS ++ ["none"%string]).

(** [handleClick] of the revision with the conditional INSERT, followed,
    when it reaches the end, by the invalidation. *)
Definition handleClick (hashIP : string -> string) (key base : string)
    (origin : option string) (clock : nat -> Z)
    (svc : string -> string -> string -> fetch_outcome) (request : Request) (w : world)
    : result reply * world :=
  let '(res, db') := run clock svc (VolumeCap.handleClick hashIP key request) (store w) in
  (match res with
   | Returned r => Returned (mkReply r (corsHeaders origin))
   | Rejected => Rejected
   end,
   mkWorld db' (if accepted res then invalidate base <$> cache w else cache w)).

(** Requests served one after the other. *)
Inductive op :=
| Count (base : string) (origin : option string)
| Click (base : string) (origin : option string) (clock : nat -> Z)
        (svc : string -> string -> string -> fetch_outcome) (request : Request).

Definition serve_op (hashIP : string -> string) (key : string) (w : world) (o : op) : world :=
  match o with
  | Count base origin => (handleCount base origin w).2
  | Click base origin clock svc request =>
      (handleClick hashIP key base origin clock svc request w).2
  end.

Definition serve_ops (hashIP : string -> string) (key : string) (w : world) (os : list op)
    : world :=
  fold_left (serve_op hashIP key) os w.

(** The origin the browser of a page at [o] is told: [o] itself when it
    is allowed, the first allowed origin otherwise. *)
Definition told (o : string) : string :=
  if bool_decide (o ∈ ALLOWED_ORIGINS) then o else default ""%string (head ALLOWED_ORIGINS).

(** Every cached entry was made for the origin of its key and holds a
    total that is not above the stored one. *)
Definition cache_ok (w : world) : Prop :=
  forall c base o r,
    cache w = Some c -> c !! (base, o) = Some r ->
    allow_origin (headers r) = told o /\
    exists n, resp_body (answer r) = Total n /\ n <= total (store w).

Definition cold : world := mkWorld empty_db (Some ∅).

End Edge.

(** * The identity digest as text (hashIP)

    [crypto.subtle.digest("SHA-256", ...)] of the encoded address is the
    platform's; [digest] stands for it and returns the bytes of the hash.
    The conversion of the bytes to text is modelled as written. *)
Module Hex.

Local Open Scope N_scope.

Definition digits : list ascii :=
  ["0"; "1"; "2"; "3"; "4"; "5"; "6"; "7"; "8"; "9"; "a"; "b"; "c"; "d"; "e"; "f"]%char.

Definition digit (d : N) : ascii := nth (N.to_nat d) digits "0"%char.

(** [b.toString(16)] for a byte: no leading zero. *)
Definition toString16 (b : N) : string :=
  if b <? 16 then String (digit b) EmptyString
  else String (digit (b / 16)) (String (digit (b mod 16)) EmptyString).

(** [s.padStart(2, "0")] *)
Definition padStart2 (s : string) : string :=
  String.concat EmptyString (repeat "0"%string (2 - String.length s)%nat) ++ s.

(** [Array.from(bytes).map((b) => b.toString(16).padStart(2, "0")).join("")] *)
Definition hex (bytes : list N) : string :=
  String.concat EmptyString (map (fun b => padStart2 (toString16 b)) bytes).

Section Digest.
Variable digest : string -> list N.

Definition hashIP (ip : string) : string := hex (digest ip).

End Digest.

(** All bytes, and the check that their two-character texts are
    pairwise distinct. *)
Definition all_bytes : list N := map N.of_nat (seq 0 256).

Definition two_chars (b : N) : bool :=
  (String.length (padStart2 (toString16 b)) =? 2)%nat.

Definition distinct_texts (b1 b2 : N) : bool :=
  implb (String.eqb (padStart2 (toString16 b1)) (padStart2 (toString16 b2))) (b1 =? b2).

End Hex.

(** * Requests served in time order *)
Module Serial.
Import Worker.

(** The calls are served one after the other on a clock that never goes
    back: every statement of a call runs at [now] or later, the
    statements of a call run in time order, and the next call starts
    after the last statement of this one. *)
Fixpoint orderly (now : Z) (calls : list call) : Prop :=
  match calls with
  | [] => True
  | c :: cs =>
      (forall n, now <= call_clock c n) /\
      (forall n m, (n <= m)%nat -> call_clock c n <= call_clock c m) /\
      exists next, (forall n, call_clock c n <= next) /\ orderly next cs
  end.

(** No row is dated after [now], and no identity has more than 10
    batches in a window of five seconds. *)
Definition batches_ok (now : Z) (db : DB) : Prop :=
  Forall (fun b => created_at b <= now) (click_batches db) /\
  forall start ipHash, (length (ledger_in_window start ipHash db) <= 10)%nat.

(** Twelve requests without [CF-Connecting-IP], one per call, all
    within second 100. *)
Definition twelve_calls : list call :=
  repeat (mkCall (at_time 100) accepting (click 200 None None)) 12.

End Serial.

(** * The worker when D1 rejects a statement

    An awaited call of [env.DB] can reject (the database is unreachable
    or overloaded, a constraint fails).  In neither revision is an
    [await] of [env.DB] inside a [try]: the [try] blocks enclose
    [request.json()], the call of the siteverify service and the Cache
    API only.  A rejected statement therefore rejects [handleClick].  A
    statement or [batch] that rejects leaves the tables as they were: D1
    runs a [batch] as one transaction and rolls it back.  What the
    statements before it wrote stays. *)
Module Faults.
Import Worker Balance.

(** The awaited operation is a call of [env.DB]. *)
Definition is_statement {B} (a : action B) : bool :=
  match a with
  | SiteVerify _ _ _ => false
  | _ => true
  end.

(** A run of one request on its own, as [Worker.run], where the [n]-th
    awaited operation rejects when it is a statement and [fails n]
    holds. *)
Fixpoint run_faulty {R} (fails : nat -> bool) (clock : nat -> Z)
    (svc : string -> string -> string -> fetch_outcome) (p : prog R) (db : DB)
    : result R * DB :=
  match p with
  | Ret r => (Returned r, db)
  | Throw => (Rejected, db)
  | Do a k =>
      if is_statement a && fails O then (Rejected, db)
      else
        let '(b, db') := exec (clock O) svc a db in
        run_faulty (fun n => fails (S n)) (fun n => clock (S n)) svc (k b) db'
  end.

(** The handler has rejected, and the ledger has one more row, with the
    requested count, that the counter does not include. *)
Definition stranded_row (hashIP : string -> string) (request : Request) (db : DB)
    (out : result Response * DB) : Prop :=
  let '(res, db') := out in
  res = Rejected /\ total db' = total db /\
  exists t, click_batches db' =
    click_batches db ++
      [mkBatch (requested request) (hashIP (client_ip request)) (client_country request) t].

(** Rows and increments are written by the [batch] that does both. *)
Definition writes_both B (a : action B) : Prop :=
  match a with
  | CondInsert _ _ _ | IncrRead _ => False
  | _ => True
  end.

(** Concurrent requests: an event of [Worker], or the rejection of the
    statement that task [i] awaits. *)
Inductive event :=
| Step (e : Worker.event)
| Reject (i : nat).

Definition reject (p : prog Response) : prog Response :=
  match p with
  | Do a _ => if is_statement a then Throw else p
  | _ => p
  end.

Definition sys_step (handler : Request -> prog Response) (s : sys) (e : event) : sys :=
  match e with
  | Step e' => Worker.sys_step handler s e'
  | Reject i =>
      match sys_tasks s !! i with
      | Some p => mkSys (sys_db s) (sys_now s) (<[i := reject p]> (sys_tasks s))
      | None => s
      end
  end.

Definition sys_run (handler : Request -> prog Response) (s : sys) (es : list event) : sys :=
  fold_left (sys_step handler) es s.

(** The counts of the tasks that a rejection stopped between their
    INSERT and their UPDATE: what each rejected task owed. *)
Fixpoint dropped (handler : Request -> prog Response) (s : sys) (es : list event) : Z :=
  match es with
  | [] => 0
  | e :: es' =>
      match e with
      | Reject i => from_option owed 0 (sys_tasks s !! i)
      | Step _ => 0
      end + dropped handler (sys_step handler s e) es'
  end.

(** One request of 47 clicks whose INSERT succeeds and whose UPDATE
    rejects. *)
Definition update_rejected : list event :=
  [Step (Arrive (click 47 None None)); Step (Resume 0 accepting); Reject 0].

End Faults.

Module WorkerFacts.
Import Worker.

Ltac prog_simpl :=
  cbn [mbind mret prog_bind prog_ret bind try_catch await run siteverify
       VolumeCap.verifyTurnstile BatchCap.verifyTurnstile handleCount] in *;
  cbn [exec] in *.

Lemma run_storeBatch_volume clock svc cnt h ctry db :
  run clock svc (VolumeCap.storeBatch cnt h ctry) db =
  if window_sum (clock O) h db + cnt <=? 200
  then (Returned (ok (total db + cnt)),
        add_total cnt (insert_batch (clock O) cnt h ctry db))
  else (Returned (error 429 "rate limited"), db).
Proof.
  unfold VolumeCap.storeBatch. prog_simpl. cbn [exec].
  destruct (window_sum (clock O) h db + cnt <=? 200); reflexivity.
Qed.

Lemma run_storeBatch_batch clock svc cnt h ctry db :
  run clock svc (BatchCap.storeBatch cnt h ctry) db =
  if 10 <=? window_count (clock O) h db
  then (Returned (error 429 "rate limited"), db)
  else (Returned (ok (total db + cnt)),
        add_total cnt (insert_batch (clock 1%nat) cnt h ctry db)).
Proof.
  unfold BatchCap.storeBatch. prog_simpl. cbn [exec].
  destruct (10 <=? window_count (clock O) h db); reflexivity.
Qed.

Lemma validate_count_range c z : validate_count c = Some z -> 1 <= z <= 200.
Proof.
  destruct c as [[]|]; cbn; try discriminate.
  destruct (z0 <? 1) eqn:E1, (200 <? z0) eqn:E2; cbn; try discriminate.
  intros [= <-]. lia.
Qed.


Lemma requested_parsed request body cnt :
  req_json request = Parsed body ->
  validate_count (body_count body) = Some cnt ->
  requested request = cnt /\ 1 <= cnt <= 200.
Proof.
  intros Hb Hc. unfold requested. rewrite Hb, Hc. split; [reflexivity|].
  eapply validate_count_range; eauto.
Qed.

Lemma storeBatch_volume_effect hashIP clock svc request body cnt db db1 :
  req_json request = Parsed body ->
  validate_count (body_count body) = Some cnt ->
  total db1 = total db -> click_batches db1 = click_batches db ->
  click_effect hashIP request db
    (run clock svc (VolumeCap.storeBatch cnt (hashIP (client_ip request)) (client_country request)) db1).
Proof.
  intros Hb Hc Ht Hl. destruct (requested_parsed _ _ _ Hb Hc) as [Hreq Hr].
  rewrite run_storeBatch_volume. unfold click_effect.
  destruct (_ <=? 200); cbn; [|auto].
  rewrite Hreq, Ht, Hl. repeat split; try lia. eauto.
Qed.

Lemma storeBatch_batch_effect hashIP clock svc request body cnt db db1 :
  req_json request = Parsed body ->
  validate_count (body_count body) = Some cnt ->
  total db1 = total db -> click_batches db1 = click_batches db ->
  click_effect hashIP request db
    (run clock svc (BatchCap.storeBatch cnt (hashIP (client_ip request)) (client_country request)) db1).
Proof.
  intros Hb Hc Ht Hl. destruct (requested_parsed _ _ _ Hb Hc) as [Hreq Hr].
  rewrite run_storeBatch_batch. unfold click_effect.
  destruct (10 <=? _); cbn; [auto|].
  rewrite Hreq, Ht, Hl. repeat split; try lia. eauto.
Qed.

Lemma handleClick_volume_effect hashIP key clock svc request db :
  click_effect hashIP request db
    (run clock svc (VolumeCap.handleClick hashIP key request) db).
Proof.
  unfold VolumeCap.handleClick.
  destruct (req_json request) as [| |body] eqn:Hb; try (cbn; auto; fail).
  destruct (validate_count (body_count body)) as [cnt|] eqn:Hc; [|cbn; auto].
  cbn zeta. destruct (isLocal (client_ip request)).
  { eapply storeBatch_volume_effect; eauto. }
  prog_simpl. cbn [exec].
  match goal with |- context [if ?b then _ else _] => destruct b end.
  { eapply storeBatch_volume_effect; eauto. }
  destruct (token_string (body_token body)) as [token|]; [|cbn; auto].
  prog_simpl. cbn [exec].
  destruct (svc token key (client_ip request)) as [| |[]]; prog_simpl; try (cbn; auto; fail).
  cbn [exec]. eapply storeBatch_volume_effect; eauto.
Qed.

Lemma handleClick_batch_effect hashIP key clock svc request db :
  click_effect hashIP request db
    (run clock svc (BatchCap.handleClick hashIP key request) db).
Proof.
  unfold BatchCap.handleClick.
  destruct (req_json request) as [| |body] eqn:Hb; try (cbn; auto; fail).
  destruct (validate_count (body_count body)) as [cnt|] eqn:Hc; [|cbn; auto].
  cbn zeta. destruct (isLocal (client_ip request)).
  { eapply storeBatch_batch_effect; eauto. }
  destruct (token_string (body_token body)) as [token|]; [|cbn; auto].
  prog_simpl. cbn [exec].
  destruct (svc token key (client_ip request)) as [| |[]]; prog_simpl; try (cbn; auto; fail).
  eapply storeBatch_batch_effect; eauto.
Qed.

(** *** Getting past the gate *)

Lemma handleClick_volume_gate hashIP key clock svc request body cnt db clock' db' :
  req_json request = Parsed body ->
  validate_count (body_count body) = Some cnt ->
  VolumeCap.passes_gate hashIP key clock svc request db clock' db' ->
  run clock svc (VolumeCap.handleClick hashIP key request) db =
  run clock' svc
    (VolumeCap.storeBatch cnt (hashIP (client_ip request)) (client_country request)) db'
  /\ total db' = total db /\ click_batches db' = click_batches db.
Proof.
  intros Hb Hc Hg. unfold VolumeCap.handleClick. rewrite Hb, Hc. cbn zeta.
  destruct Hg as [Hl | Hl Hr | body' token Hl Hr Hb' Ht Hs].
  - rewrite Hl. auto.
  - rewrite Hl. prog_simpl. rewrite Hr. auto.
  - rewrite Hl. prog_simpl. rewrite Hr.
    rewrite Hb in Hb'. injection Hb' as <-. rewrite Ht.
    prog_simpl. rewrite Hs. prog_simpl. auto.
Qed.

Lemma handleClick_batch_gate hashIP key clock svc request body cnt db clock' :
  req_json request = Parsed body ->
  validate_count (body_count body) = Some cnt ->
  BatchCap.passes_gate key clock svc request clock' ->
  run clock svc (BatchCap.handleClick hashIP key request) db =
  run clock' svc
    (BatchCap.storeBatch cnt (hashIP (client_ip request)) (client_country request)) db.
Proof.
  intros Hb Hc Hg. unfold BatchCap.handleClick. rewrite Hb, Hc. cbn zeta.
  destruct Hg as [Hl | body' token Hl Hb' Ht Hs].
  - rewrite Hl. auto.
  - rewrite Hl. rewrite Hb in Hb'. injection Hb' as <-. rewrite Ht.
    prog_simpl. rewrite Hs. prog_simpl. auto.
Qed.

(** C1. A batch submission with a valid count from an identity that gets
    past the verification gate, whose rate-limit predicate fails when it is
    evaluated, is answered with 429 [rate limited]; no row is appended to
    [click_batches] and the counter total is unchanged.  This holds for the
    revision with the volume cap (more than 200 clicks in the window) and
    for the revision with the batch cap (10 batches in the window). *)
Theorem rate_limited_no_partial_effect :
  (forall hashIP key clock svc request body cnt db clock' db',
      req_json request = Parsed body ->
      validate_count (body_count body) = Some cnt ->
      VolumeCap.passes_gate hashIP key clock svc request db clock' db' ->
      200 < window_sum (clock' O) (hashIP (client_ip request)) db' + cnt ->
      run clock svc (VolumeCap.handleClick hashIP key request) db =
        (Returned (error 429 "rate limited"), db') /\
      click_batches db' = click_batches db /\ total db' = total db) /\
  (forall hashIP key clock svc request body cnt db clock',
      req_json request = Parsed body ->
      validate_count (body_count body) = Some cnt ->
      BatchCap.passes_gate key clock svc request clock' ->
      10 <= window_count (clock' O) (hashIP (client_ip request)) db ->
      run clock svc (BatchCap.handleClick hashIP key request) db =
        (Returned (error 429 "rate limited"), db)).
Proof.
  split.
  - intros * Hb Hc Hg Hw.
    destruct (handleClick_volume_gate _ _ _ _ _ _ _ _ _ _ Hb Hc Hg) as (-> & Ht & Hl).
    rewrite run_storeBatch_volume.
    destruct (Z.leb_spec (window_sum (clock' O) (hashIP (client_ip request)) db' + cnt) 200);
      [lia | auto].
  - intros * Hb Hc Hg Hw.
    rewrite (handleClick_batch_gate _ _ _ _ _ _ _ _ _ Hb Hc Hg).
    rewrite run_storeBatch_batch.
    destruct (Z.leb_spec 10 (window_count (clock' O) (hashIP (client_ip request)) db));
      [auto | lia].
Qed.

Lemma rate_limited_no_partial_effect_witness :
  run (at_time 100) accepting (VolumeCap.handleClick plain "k" (click 1 None None)) full_window
    = (Returned (error 429 "rate limited"), full_window) /\
  run (at_time 100) accepting (BatchCap.handleClick plain "k" (click 1 None None)) ten_batches
    = (Returned (error 429 "rate limited"), ten_batches).
Proof.
  split.
  - eapply (proj1 rate_limited_no_partial_effect) with (clock' := at_time 100);
      [reflexivity | reflexivity | apply VolumeCap.gate_local; reflexivity
      | vm_compute; reflexivity].
  - eapply (proj2 rate_limited_no_partial_effect) with (clock' := at_time 100);
      [reflexivity | reflexivity | apply BatchCap.gate_local; reflexivity
      | vm_compute; discriminate].
Defined.

(** *** The counter total *)

Lemma fetch_effect hashIP handleClick clock svc request db :
  (forall clock svc request db,
      click_effect hashIP request db (run clock svc (handleClick request) db)) ->
  let '(res, db') := run clock svc (fetch handleClick request) db in
  total db' = total db + (if accepted res then requested request else 0) /\
  (accepted res = true -> 1 <= requested request).
Proof.
  intros Hh. unfold fetch.
  destruct (bool_decide _); [cbn; split; [lia | discriminate]|].
  destruct (_ && _); [cbn; split; [lia | discriminate]|].
  destruct (_ && _); [|cbn; split; [lia | discriminate]].
  specialize (Hh clock svc request db). unfold click_effect in Hh.
  destruct (run clock svc (handleClick request) db) as [res db'].
  destruct (accepted res).
  - destruct Hh as (_ & Hr & Ht & _). split; [lia | intros _; lia].
  - destruct Hh as [Ht _]. split; [lia | discriminate].
Qed.

Lemma serve_total hashIP handleClick calls :
  (forall clock svc request db,
      click_effect hashIP request db (run clock svc (handleClick request) db)) ->
  forall db,
  total (serve (fetch handleClick) calls db).2 =
    total db + credited calls (serve (fetch handleClick) calls db).1 /\
  total db <= total (serve (fetch handleClick) calls db).2.
Proof.
  intros Hh. induction calls as [|c cs IH]; intros db; cbn [serve credited].
  - cbn. lia.
  - pose proof (fetch_effect hashIP handleClick (call_clock c) (call_svc c)
                  (call_request c) db Hh) as He.
    destruct (run (call_clock c) (call_svc c) (fetch handleClick (call_request c)) db)
      as [res db1].
    specialize (IH db1).
    destruct (serve (fetch handleClick) cs db1) as [rs db2]. cbn [fst snd credited] in *.
    destruct He as [He1 He2]. destruct (accepted res); [specialize (He2 eq_refl)|]; lia.
Qed.

(** C3. Whatever the initial total [T] and the requests served (by either
    revision of the worker), the counter total afterwards is [T] plus the
    counts of the accepted batches, and serving requests never decreases
    the total. *)
Theorem total_is_sum_of_accepted hashIP key calls db :
  (total (serve (fetch (VolumeCap.handleClick hashIP key)) calls db).2 =
     total db + credited calls (serve (fetch (VolumeCap.handleClick hashIP key)) calls db).1 /\
   total db <= total (serve (fetch (VolumeCap.handleClick hashIP key)) calls db).2) /\
  (total (serve (fetch (BatchCap.handleClick hashIP key)) calls db).2 =
     total db + credited calls (serve (fetch (BatchCap.handleClick hashIP key)) calls db).1 /\
   total db <= total (serve (fetch (BatchCap.handleClick hashIP key)) calls db).2).
Proof.
  split.
  - apply (serve_total hashIP). intros. apply handleClick_volume_effect.
  - apply (serve_total hashIP). intros. apply handleClick_batch_effect.
Qed.

(** When every request of the sequence is accepted, the credited counts
    are the requested counts [c1 + ... + cN]. *)
Lemma credited_all_accepted calls rs :
  length rs = length calls ->
  Forall (fun r => accepted r = true) rs ->
  credited calls rs = foldr Z.add 0 (map (fun c => requested (call_request c)) calls).
Proof.
  revert rs. induction calls as [|c cs IH]; intros [|r rs] Hlen Hall; cbn in *;
    try discriminate; try reflexivity.
  inversion Hall as [|? ? Hr Hrs]; subst. rewrite Hr, (IH rs); [reflexivity | lia | assumption].
Qed.

(** *** The verification gate *)

(** In the revision with [try]/[catch], a failed call of the service makes
    [verifyTurnstile] return [false]. *)
Lemma verifyTurnstile_fails_closed clock svc token secret ip db :
  svc token secret ip <> Json true ->
  run clock svc (VolumeCap.verifyTurnstile token secret ip) db = (Returned false, db).
Proof.
  intros H. prog_simpl. destruct (svc token secret ip) as [| |[]]; try reflexivity.
  congruence.
Qed.

(** C7. In the revision without [try]/[catch] (lines 233-248), a rejected
    fetch of the siteverify service does not make [verifyTurnstile] return
    [false]: the promise is rejected and the error reaches the caller. *)
Theorem verifyTurnstile_propagates clock hashIP key token secret ip db :
  run clock unreachable (BatchCap.verifyTurnstile token secret ip) db = (Rejected, db) /\
  run clock unreachable
    (BatchCap.handleClick hashIP key (click 47 (Some (JStr "t")) (Some "203.0.113.7"%string))) db
    = (Rejected, db) /\
  run clock unreachable (VolumeCap.verifyTurnstile token secret ip) db = (Returned false, db).
Proof. repeat split; reflexivity. Qed.

(** C8, as stated, fails: a submission with a valid count and no token
    from an identity that is neither exempt nor recently verified is
    answered with 400, not 403, by both revisions. *)
Lemma absent_token_is_bad_request :
  status_of (run (at_time 100) refusing
     (VolumeCap.handleClick plain "k" (click 47 None (Some "203.0.113.7"%string))) empty_db).1
    = Some 400 /\
  status_of (run (at_time 100) refusing
     (BatchCap.handleClick plain "k" (click 47 None (Some "203.0.113.7"%string))) empty_db).1
    = Some 400 /\
  Some 400 <> Some 403.
Proof. repeat split; try reflexivity. discriminate. Qed.

(** C8, amended.  A submission with a valid count from an identity that
    is not exempt (and, in the revision that keeps verification records,
    not verified in the last 60 seconds) is answered with 400 when its
    token is absent, empty or not a string, and with 403 when the service
    refuses its token; in both cases the database is left as it was: no
    ledger row, the same total, no verification record. *)
Theorem unverified_is_rejected :
  (forall hashIP key clock svc request body cnt db,
      req_json request = Parsed body ->
      validate_count (body_count body) = Some cnt ->
      isLocal (client_ip request) = false ->
      recently_verified (clock O) (hashIP (client_ip request)) db = false ->
      match token_string (body_token body) with
      | None =>
          run clock svc (VolumeCap.handleClick hashIP key request) db =
            (Returned (error 400 "missing turnstile token"), db)
      | Some token =>
          svc token key (client_ip request) = Json false ->
          run clock svc (VolumeCap.handleClick hashIP key request) db =
            (Returned (error 403 "bot detected"), db)
      end) /\
  (forall hashIP key clock svc request body cnt db,
      req_json request = Parsed body ->
      validate_count (body_count body) = Some cnt ->
      isLocal (client_ip request) = false ->
      match token_string (body_token body) with
      | None =>
          run clock svc (BatchCap.handleClick hashIP key request) db =
            (Returned (error 400 "missing turnstile token"), db)
      | Some token =>
          svc token key (client_ip request) = Json false ->
          run clock svc (BatchCap.handleClick hashIP key request) db =
            (Returned (error 403 "bot detected"), db)
      end).
Proof.
  split.
  - intros * Hb Hc Hl Hr. unfold VolumeCap.handleClick. rewrite Hb, Hc. cbn zeta.
    rewrite Hl. prog_simpl. rewrite Hr.
    destruct (token_string (body_token body)) as [token|]; [|reflexivity].
    intros Hs. prog_simpl. rewrite Hs. reflexivity.
  - intros * Hb Hc Hl. unfold BatchCap.handleClick. rewrite Hb, Hc. cbn zeta.
    rewrite Hl.
    destruct (token_string (body_token body)) as [token|]; [|reflexivity].
    intros Hs. prog_simpl. rewrite Hs. reflexivity.
Qed.

Lemma unverified_is_rejected_witness :
  (run (at_time 100) refusing
     (VolumeCap.handleClick plain "k" (click 47 (Some (JStr "t")) (Some "203.0.113.7"%string)))
     empty_db = (Returned (error 403 "bot detected"), empty_db) /\
   run (at_time 100) refusing
     (VolumeCap.handleClick plain "k" (click 47 None (Some "203.0.113.7"%string)))
     empty_db = (Returned (error 400 "missing turnstile token"), empty_db)) /\
  (run (at_time 100) refusing
     (BatchCap.handleClick plain "k" (click 47 (Some (JStr "t")) (Some "203.0.113.7"%string)))
     empty_db = (Returned (error 403 "bot detected"), empty_db) /\
   run (at_time 100) refusing
     (BatchCap.handleClick plain "k" (click 47 (Some (JStr "")) (Some "203.0.113.7"%string)))
     empty_db = (Returned (error 400 "missing turnstile token"), empty_db)).
Proof.
  split; split.
  - exact (proj1 unverified_is_rejected plain "k"%string (at_time 100) refusing
             (click 47 (Some (JStr "t")) (Some "203.0.113.7"%string)) _ 47 empty_db
             eq_refl eq_refl eq_refl eq_refl eq_refl).
  - exact (proj1 unverified_is_rejected plain "k"%string (at_time 100) refusing
             (click 47 None (Some "203.0.113.7"%string)) _ 47 empty_db
             eq_refl eq_refl eq_refl eq_refl).
  - exact (proj2 unverified_is_rejected plain "k"%string (at_time 100) refusing
             (click 47 (Some (JStr "t")) (Some "203.0.113.7"%string)) _ 47 empty_db
             eq_refl eq_refl eq_refl eq_refl).
  - exact (proj2 unverified_is_rejected plain "k"%string (at_time 100) refusing
             (click 47 (Some (JStr "")) (Some "203.0.113.7"%string)) _ 47 empty_db
             eq_refl eq_refl eq_refl).
Defined.



(** *** The rate limit under concurrent requests *)

Lemma sum_counts_app l1 l2 : sum_counts (l1 ++ l2) = sum_counts l1 + sum_counts l2.
Proof.
  unfold sum_counts. induction l1 as [|b l1 IH]; cbn; [reflexivity | rewrite IH; lia].
Qed.

Lemma sum_counts_filter_le now (f g : Batch -> bool) l :
  Forall (fun b => 0 <= count b /\ created_at b <= now) l ->
  (forall b, created_at b <= now -> f b = true -> g b = true) ->
  sum_counts (List.filter f l) <= sum_counts (List.filter g l).
Proof.
  intros Hl Hfg. unfold sum_counts.
  induction Hl as [|b l [Hc Ht] _ IH]; cbn [List.filter]; [cbn; lia|].
  destruct (f b) eqn:Hf.
  - rewrite (Hfg b Ht Hf). cbn [fold_right]. lia.
  - destruct (g b); cbn [fold_right]; lia.
Qed.

Lemma in_window_recent now start h b :
  start < now <= start + 5 -> in_window start h b = true -> recent now h b = true.
Proof.
  unfold in_window, recent. intros Hn H.
  apply andb_prop in H as [H H2]. apply andb_prop in H as [H0 H1].
  rewrite H0. cbn. apply Z.ltb_lt in H1. apply Z.ltb_lt. lia.
Qed.

Lemma ledger_ok_same now db db' :
  click_batches db' = click_batches db -> ledger_ok now db -> ledger_ok now db'.
Proof.
  unfold ledger_ok, ledger_in_window. intros ->. auto.
Qed.

Lemma ledger_ok_later now now' db :
  now <= now' -> ledger_ok now db -> ledger_ok now' db.
Proof.
  intros Hle [Hrows Hcap]. split; [|exact Hcap].
  eapply Forall_impl; [exact Hrows|]. cbn. intros b [? ?]. lia.
Qed.

Lemma ledger_ok_insert now cnt h ctry db :
  0 <= cnt -> window_sum now h db + cnt <= 200 ->
  ledger_ok now db -> ledger_ok now (insert_batch now cnt h ctry db).
Proof.
  intros Hc Hw [Hrows Hcap]. split.
  - cbn. apply Forall_app. split; [exact Hrows|].
    constructor; [cbn; lia | constructor].
  - intros start h'. unfold ledger_in_window. cbn [insert_batch click_batches].
    rewrite List.filter_app, sum_counts_app. cbn [List.filter].
    destruct (in_window start h' (mkBatch cnt h ctry now)) eqn:Hin.
    + cbn [sum_counts fold_right count].
      unfold in_window in Hin. cbn in Hin.
      apply andb_prop in Hin as [Hin H2]. apply andb_prop in Hin as [H0 H1].
      apply bool_decide_eq_true in H0. subst h'.
      apply Z.ltb_lt in H1. apply Z.leb_le in H2.
      pose proof (sum_counts_filter_le now (in_window start h) (recent now h)
                    (click_batches db) Hrows) as Hle.
      unfold window_sum in Hw.
      assert (sum_counts (List.filter (in_window start h) (click_batches db))
              <= sum_counts (List.filter (recent now h) (click_batches db))).
      { apply Hle. intros b _. apply in_window_recent. lia. }
      lia.
    + cbn. specialize (Hcap start h'). unfold ledger_in_window in Hcap. lia.
Qed.

Lemma exec_ledger_ok B (a : action B) now svc db :
  inserts_guarded B a -> ledger_ok now db -> ledger_ok now (exec now svc a db).2.
Proof.
  destruct a; cbn; intros Hg Hok; try exact Hok; try contradiction.
  - destruct (Z.leb_spec (window_sum now ipHash db + cnt) 200); cbn; [|exact Hok].
    apply ledger_ok_insert; assumption.
Qed.

Lemma all_actions_bind {A R} P (p : prog A) (f : A -> prog R) :
  all_actions P p -> (forall a, all_actions P (f a)) -> all_actions P (bind p f).
Proof.
  intros Hp Hf. induction p as [a| |B a k IH]; cbn in *; auto.
  destruct Hp as [Ha Hk]. split; auto.
Qed.

Lemma all_actions_try_catch {R} P (p h : prog R) :
  all_actions P p -> all_actions P h -> all_actions P (try_catch p h).
Proof.
  intros Hp Hh. induction p as [a| |B a k IH]; cbn in *; auto.
  destruct Hp as [Ha Hk]. split; auto.
Qed.

Lemma storeBatch_guarded cnt h ctry :
  0 <= cnt -> all_actions inserts_guarded (VolumeCap.storeBatch cnt h ctry).
Proof.
  intros Hc. cbn. split; [exact Hc|]. intros changes.
  destruct (changes =? 0); cbn; auto.
Qed.

Lemma fetch_volume_guarded hashIP key request :
  all_actions inserts_guarded (fetch (VolumeCap.handleClick hashIP key) request).
Proof.
  unfold fetch.
  destruct (bool_decide _); [exact I|].
  destruct (_ && _); [cbn; auto|].
  destruct (_ && _); [|exact I].
  unfold VolumeCap.handleClick.
  destruct (req_json request) as [| |body]; try exact I.
  destruct (validate_count (body_count body)) as [cnt|] eqn:Hc; [|exact I].
  apply validate_count_range in Hc.
  assert (Hs : forall h ctry, all_actions inserts_guarded (VolumeCap.storeBatch cnt h ctry))
    by (intros; apply storeBatch_guarded; lia).
  cbn zeta. destruct (isLocal _); [apply Hs|].
  prog_simpl. cbn [all_actions]. split; [exact I|]. intros [|]; [apply Hs|].
  destruct (token_string _) as [token|]; [|exact I].
  prog_simpl. cbn [all_actions]. split; [exact I|].
  intros [| |[|]]; prog_simpl; cbn [all_actions]; try exact I.
  split; [exact I|]. intros _. apply Hs.
Qed.


Lemma sys_step_inv hashIP key s e :
  sys_inv s -> sys_inv (sys_step (fetch (VolumeCap.handleClick hashIP key)) s e).
Proof.
  intros [Hl Ht]. destruct e as [request | i svc | seconds]; cbn.
  - split; [exact Hl|]. cbn. apply Forall_app. split; [exact Ht|].
    constructor; [apply fetch_volume_guarded | constructor].
  - destruct (sys_tasks s !! i) as [p|] eqn:Hp; [|split; assumption].
    assert (Hpg : all_actions inserts_guarded p)
      by (eapply Forall_lookup_1; eauto).
    destruct p as [r| |B a k]; cbn.
    + split; [exact Hl|]. cbn. rewrite list_insert_id; assumption.
    + split; [exact Hl|]. cbn. rewrite list_insert_id; assumption.
    + destruct Hpg as [Ha Hk].
      pose proof (exec_ledger_ok B a (sys_now s) svc (sys_db s) Ha Hl) as Hl'.
      destruct (exec (sys_now s) svc a (sys_db s)) as [b db']. cbn in *.
      split; [exact Hl'|]. cbn. apply Forall_insert; auto.
  - split; [|exact Ht]. cbn. eapply ledger_ok_later; [|exact Hl]. lia.
Qed.

Lemma sys_run_inv hashIP key es s :
  sys_inv s -> sys_inv (sys_run (fetch (VolumeCap.handleClick hashIP key)) s es).
Proof.
  revert s. induction es as [|e es IH]; intros s Hs; cbn; [exact Hs|].
  apply IH, sys_step_inv, Hs.
Qed.

(** In the revision with the conditional INSERT, whatever the requests
    and however their awaits interleave, no identity ever has more than
    200 clicks in the ledger within a window of five seconds. *)
Theorem volume_cap_under_interleaving hashIP key s es start ipHash :
  ledger_ok (sys_now s) (sys_db s) ->
  sys_tasks s = [] ->
  sum_counts (ledger_in_window start ipHash
                (sys_db (sys_run (fetch (VolumeCap.handleClick hashIP key)) s es))) <= 200.
Proof.
  intros Hl Ht.
  assert (Hs : sys_inv s) by (split; [exact Hl | rewrite Ht; constructor]).
  apply (sys_run_inv hashIP key es) in Hs. destruct Hs as [[_ Hcap] _]. apply Hcap.
Qed.

Lemma volume_cap_under_interleaving_witness :
  sum_counts (ledger_in_window 95 "unknown"
                (sys_db (sys_run (fetch (VolumeCap.handleClick plain "k")) idle (burst 11))))
    <= 200.
Proof.
  apply volume_cap_under_interleaving; [|reflexivity].
  split; [constructor | intros; cbn; lia].
Defined.

(** C2. In the revision that runs SELECT COUNT and then the batch (lines
    325-345), the check and the insert are two awaits.  Eleven requests of
    one identity that all pass the check before any of them inserts are
    all accepted: the ledger holds 11 batches (2200 clicks) of that
    identity within one window, above the cap of 10 batches that the same
    requests meet when served one by one; the revision with the
    conditional INSERT accepts one of the same burst. *)
Theorem check_then_insert_races :
  let racy := sys_run (fetch (BatchCap.handleClick plain "k")) idle (burst 11) in
  let serial := sys_run (fetch (BatchCap.handleClick plain "k")) idle (one_by_one 11) in
  let guarded := sys_run (fetch (VolumeCap.handleClick plain "k")) idle (burst 11) in
  window_count 100 "unknown" (sys_db racy) = 11 /\
  sum_counts (ledger_in_window 95 "unknown" (sys_db racy)) = 2200 /\
  sys_tasks racy !! 10%nat = Some (Ret (ok 2200)) /\
  window_count 100 "unknown" (sys_db serial) = 10 /\
  sys_tasks serial !! 10%nat = Some (Ret (error 429 "rate limited")) /\
  sum_counts (ledger_in_window 95 "unknown" (sys_db guarded)) = 200.
Proof. vm_compute. repeat split; reflexivity. Qed.

End WorkerFacts.

Module InterpFacts.
Import Interp.

#[local] Arguments round : simpl never.
#[local] Arguments Qltb : simpl never.
#[local] Arguments Qle_bool : simpl never.
#[local] Arguments Qminus : simpl never.

(** Case analysis on the tests of the operations, then arithmetic. *)
Ltac branches :=
  repeat match goal with
  | |- context [if ?b then _ else _] => destruct b eqn:?
  end;
  cbn in *;
  repeat match goal with
  | H : (_ <? _) = true |- _ => apply Z.ltb_lt in H
  | H : (_ <? _) = false |- _ => apply Z.ltb_ge in H
  | H : (_ <=? _) = true |- _ => apply Z.leb_le in H
  | H : (_ <=? _) = false |- _ => apply Z.leb_gt in H
  end.

(** *** Revision with a deadline *)



Lemma deadline_step duration s e :
  deadline_nonneg e -> deadline_inv s ->
  deadline_inv (Deadline.step duration s e) /\
  Deadline.displayRef s <= Deadline.displayRef (Deadline.step duration s e) /\
  Deadline.targetRef s <= Deadline.targetRef (Deadline.step duration s e).
Proof.
  intros He [Hle Hshow].
  destruct e as [now newTarget | n | now rnd]; cbn in *;
    unfold deadline_inv, Deadline.setTarget, Deadline.addImmediate, Deadline.tick,
      Deadline.startAnimation, Deadline.show, Deadline.set_raf;
    branches; repeat split; auto; try lia.
  all: try (destruct Hshow as [Hn | Hs]; [left | right]; congruence).
Qed.

Lemma deadline_run duration es s :
  Forall deadline_nonneg es -> deadline_inv s ->
  deadline_inv (Deadline.run duration s es) /\
  Deadline.displayRef s <= Deadline.displayRef (Deadline.run duration s es) /\
  Deadline.targetRef s <= Deadline.targetRef (Deadline.run duration s es).
Proof.
  intros Hes. revert s. induction Hes as [|e es He _ IH]; intros s Hs; cbn.
  - repeat split; try apply Hs; lia.
  - destruct (deadline_step duration s e He Hs) as (Hs1 & Hd & Ht).
    destruct (IH _ Hs1) as (Hs2 & Hd2 & Ht2).
    repeat split; try apply Hs2; unfold Deadline.run in *; lia.
Qed.

(** *** Revision with a rate *)



Lemma rate_step duration s e :
  rate_nonneg e -> rate_inv s ->
  rate_inv (Rate.step duration s e) /\
  Rate.displayRef s <= Rate.displayRef (Rate.step duration s e) /\
  Rate.targetRef s <= Rate.targetRef (Rate.step duration s e).
Proof.
  intros He [Hle Hshow].
  destruct e as [now newTarget | n | now rnd]; cbn in *;
    unfold rate_inv, Rate.setTarget, Rate.addImmediate, Rate.tick,
      Rate.startAnimation, Rate.show, Rate.set_raf, Rate.set_lastFrame;
    branches; repeat split; auto; lia.
Qed.

Lemma rate_run duration es s :
  Forall rate_nonneg es -> rate_inv s ->
  rate_inv (Rate.run duration s es) /\
  Rate.displayRef s <= Rate.displayRef (Rate.run duration s es) /\
  Rate.targetRef s <= Rate.targetRef (Rate.run duration s es).
Proof.
  intros Hes. revert s. induction Hes as [|e es He _ IH]; intros s Hs; cbn.
  - repeat split; try apply Hs; lia.
  - destruct (rate_step duration s e He Hs) as (Hs1 & Hd & Ht).
    destruct (IH _ Hs1) as (Hs2 & Hd2 & Ht2).
    repeat split; try apply Hs2; unfold Rate.run in *; lia.
Qed.

(** *** Revision with scattered timers *)





Lemma chunk_timers_chunks duration animationDelta :
  Forall is_chunk (Scatter.chunk_timers duration animationDelta).
Proof.
  unfold Scatter.chunk_timers. generalize (seq 0 200). intros l.
  induction l as [|i l IH]; cbn [flat_map]; [constructor|].
  apply Forall_app. split; [|exact IH].
  match goal with |- context [if ?b <=? 0 then _ else _] =>
    destruct (Z.leb_spec b 0) end; constructor; [|constructor].
  unfold is_chunk. cbn. lia.
Qed.

Lemma insert_time_length t ts :
  length (Scatter.insert_time t ts) = S (length ts).
Proof.
  induction ts as [|u us IH]; cbn; [reflexivity|].
  destruct (Qle_bool t u); cbn; [reflexivity | rewrite IH; reflexivity].
Qed.

Lemma sort_times_length ts : length (Scatter.sort_times ts) = length ts.
Proof.
  induction ts as [|t ts IH]; cbn; [reflexivity|].
  rewrite insert_time_length. unfold Scatter.sort_times in IH. rewrite IH. reflexivity.
Qed.

Lemma step_timers_steps duration rnd animationDelta :
  Forall is_step (Scatter.step_timers duration rnd animationDelta) /\
  length (Scatter.step_timers duration rnd animationDelta) = Z.to_nat animationDelta.
Proof.
  unfold Scatter.step_timers. split.
  - apply Forall_map. apply Forall_forall. intros; reflexivity.
  - rewrite length_map, sort_times_length, length_map, length_seq. reflexivity.
Qed.

Lemma scatter_setTarget duration rnd newTarget s :
  scatter_inv s ->
  scatter_inv (Scatter.setTarget duration rnd newTarget s) /\
  Scatter.displayRef s <= Scatter.displayRef (Scatter.setTarget duration rnd newTarget s) /\
  Scatter.targetRef s <= Scatter.targetRef (Scatter.setTarget duration rnd newTarget s).
Proof.
  intros (Hle & Hshow & Htimers & Hinit). unfold Scatter.setTarget.
  destruct (Z.leb_spec newTarget (Scatter.targetRef s)) as [Hnt|Hnt];
    [unfold scatter_inv; repeat split; auto; lia|].
  cbn [Scatter.initializedRef Scatter.displayRef Scatter.targetRef Scatter.clearTimers
       Scatter.set_timers Scatter.timersRef negb].
  destruct (Scatter.initializedRef s); cbn [negb].
  2:{ unfold scatter_inv; cbn. rewrite (Hinit eq_refl).
      repeat split; auto; try lia; try discriminate. }
  destruct (Z.leb_spec (newTarget - Scatter.displayRef s) 0) as [Hd|Hd]; [lia|].
  replace (0 <? Z.min (newTarget - Scatter.displayRef s) 1) with true
    by (symmetry; apply Z.ltb_lt; lia).
  unfold Scatter.show. cbn [Scatter.initializedRef Scatter.displayRef Scatter.targetRef
       Scatter.timersRef Scatter.displayCount].
  destruct (Z.leb_spec (newTarget - Scatter.displayRef s
                        - Z.min (newTarget - Scatter.displayRef s) 1) 0) as [Ha|Ha].
  { unfold scatter_inv; cbn. repeat split; auto; try lia; discriminate. }
  destruct (Z.ltb_spec 500 (newTarget - Scatter.displayRef s
                            - Z.min (newTarget - Scatter.displayRef s) 1)) as [Hb|Hb];
    unfold scatter_inv; cbn; repeat split; auto; try lia; try discriminate.
  - left. apply chunk_timers_chunks.
  - right. destruct (step_timers_steps duration rnd
      (newTarget - Scatter.displayRef s - Z.min (newTarget - Scatter.displayRef s) 1))
      as [Hs Hl].
    split; [exact Hs|]. rewrite Hl. lia.
Qed.

Lemma scatter_step duration s e :
  scatter_nonneg e -> scatter_inv s ->
  scatter_inv (Scatter.step duration s e) /\
  Scatter.displayRef s <= Scatter.displayRef (Scatter.step duration s e) /\
  Scatter.targetRef s <= Scatter.targetRef (Scatter.step duration s e).
Proof.
  intros He Hs. destruct e as [rnd newTarget | n | i]; cbn [Scatter.step].
  - apply scatter_setTarget, Hs.
  - destruct Hs as (Hle & Hshow & Htimers & Hinit). cbn in He.
    unfold scatter_inv, Scatter.addImmediate; cbn.
    repeat split; auto; try lia; try discriminate.
    destruct Htimers as [Hc | [Hst Hlen]]; [left; exact Hc | right; split; [exact Hst | lia]].
  - destruct Hs as (Hle & Hshow & Htimers & Hinit).
    destruct (Scatter.timersRef s !! i) as [t|] eqn:Hi;
      [|unfold scatter_inv; repeat split; auto; lia].
    pose proof (length_delete (Scatter.timersRef s) i (mk_is_Some _ _ Hi)) as Hlen.
    pose proof (lookup_lt_Some _ _ _ Hi) as Hlt.
    destruct Htimers as [Hc | [Hst Hsum]].
    + pose proof (Forall_lookup_1 _ _ _ _ Hc Hi) as Ht. unfold is_chunk in Ht.
      destruct (Scatter.fires t) as [|inc]; [contradiction|].
      unfold scatter_inv; cbn. repeat split; auto; try lia.
      * left. apply Forall_delete, Hc.
      * intros Hf. rewrite (Hinit Hf) in Hi. discriminate.
    + pose proof (Forall_lookup_1 _ _ _ _ Hst Hi) as Ht. unfold is_step in Ht.
      rewrite Ht. unfold scatter_inv; cbn. repeat split; auto; try lia.
      * right. split; [apply Forall_delete, Hst | lia].
      * intros Hf. rewrite (Hinit Hf) in Hi. discriminate.
Qed.

Lemma scatter_run duration es s :
  Forall scatter_nonneg es -> scatter_inv s ->
  scatter_inv (Scatter.run duration s es) /\
  Scatter.displayRef s <= Scatter.displayRef (Scatter.run duration s es) /\
  Scatter.targetRef s <= Scatter.targetRef (Scatter.run duration s es).
Proof.
  intros Hes. revert s. induction Hes as [|e es He _ IH]; intros s Hs; cbn.
  - repeat split; try apply Hs; lia.
  - destruct (scatter_step duration s e He Hs) as (Hs1 & Hd & Ht).
    destruct (IH _ Hs1) as (Hs2 & Hd2 & Ht2).
    repeat split; try apply Hs2; unfold Scatter.run in *; lia.
Qed.

(** *** The laws of the interpolator *)

Lemma fold_left_step_app {S E} (step : S -> E -> S) s es1 es2 :
  fold_left step (es1 ++ es2) s = fold_left step es2 (fold_left step es1 s).
Proof. apply fold_left_app. Qed.

(** C4. In each of the three revisions of the hook, after any sequence of
    calls of [setTarget] and of [addImmediate] with [n >= 0], interleaved
    with any animation frames or timer callbacks, the displayed value is at
    most the target, the React state shows the displayed value (once it
    has been set), and the displayed value at a later point of the
    sequence is at least the displayed value at an earlier point. *)
Theorem displayed_bounded_and_monotone duration :
  (forall es1 es2, Forall deadline_nonneg (es1 ++ es2) ->
     let s1 := Deadline.run duration Deadline.init es1 in
     let s2 := Deadline.run duration Deadline.init (es1 ++ es2) in
     Deadline.displayRef s1 <= Deadline.targetRef s1 /\
     Deadline.displayRef s1 <= Deadline.displayRef s2 /\
     (Deadline.displayCount s1 = None \/
      Deadline.displayCount s1 = Some (Deadline.displayRef s1))) /\
  (forall es1 es2, Forall rate_nonneg (es1 ++ es2) ->
     let s1 := Rate.run duration Rate.init es1 in
     let s2 := Rate.run duration Rate.init (es1 ++ es2) in
     Rate.displayRef s1 <= Rate.targetRef s1 /\
     Rate.displayRef s1 <= Rate.displayRef s2 /\
     Rate.displayCount s1 = Rate.displayRef s1) /\
  (forall es1 es2, Forall scatter_nonneg (es1 ++ es2) ->
     let s1 := Scatter.run duration Scatter.init es1 in
     let s2 := Scatter.run duration Scatter.init (es1 ++ es2) in
     Scatter.displayRef s1 <= Scatter.targetRef s1 /\
     Scatter.displayRef s1 <= Scatter.displayRef s2 /\
     Scatter.displayCount s1 = Scatter.displayRef s1).
Proof.
  split; [|split]; intros es1 es2 Hes; apply Forall_app in Hes as [H1 H2]; cbn zeta.
  - assert (Hi : deadline_inv Deadline.init) by (split; [cbn; lia | left; reflexivity]).
    destruct (deadline_run duration es1 _ H1 Hi) as ([Hle Hshow] & _ & _).
    destruct (deadline_run duration es2 _ H2 (conj Hle Hshow)) as (_ & Hd & _).
    unfold Deadline.run in *. rewrite fold_left_step_app. auto.
  - assert (Hi : rate_inv Rate.init) by (split; [cbn; lia | reflexivity]).
    destruct (rate_run duration es1 _ H1 Hi) as ([Hle Hshow] & _ & _).
    destruct (rate_run duration es2 _ H2 (conj Hle Hshow)) as (_ & Hd & _).
    unfold Rate.run in *. rewrite fold_left_step_app. auto.
  - assert (Hi : scatter_inv Scatter.init).
    { repeat split; cbn; try lia. left. constructor. }
    destruct (scatter_run duration es1 _ H1 Hi) as (Hs1 & _ & _).
    destruct (scatter_run duration es2 _ H2 Hs1) as (_ & Hd & _).
    destruct Hs1 as (Hle & Hshow & _).
    unfold Scatter.run in *. rewrite fold_left_step_app. auto.
Qed.

Lemma displayed_bounded_and_monotone_witness :
  let es1 := [Deadline.SetTarget 0 100; Deadline.AddImmediate 1; Deadline.SetTarget 10 600;
              Deadline.Frame 500 (1 # 10)] in
  let es2 := [Deadline.AddImmediate 2; Deadline.Frame 1000 (1 # 2); Deadline.Frame 2100 0] in
  Deadline.displayRef (Deadline.run 2000 Deadline.init es1)
    <= Deadline.targetRef (Deadline.run 2000 Deadline.init es1) /\
  Deadline.displayRef (Deadline.run 2000 Deadline.init es1)
    <= Deadline.displayRef (Deadline.run 2000 Deadline.init (es1 ++ es2)).
Proof.
  intros es1 es2.
  destruct (proj1 (displayed_bounded_and_monotone 2000) es1 es2) as (H1 & H2 & _).
  - repeat constructor; cbn; lia.
  - split; assumption.
Defined.

(** C6. In each of the three revisions, [setTarget(t)] with [t] at most
    the current target returns at once: the displayed value, the target,
    the React state and the scheduling state (requested frame, anchors,
    pending timers) are unchanged. *)
Theorem setTarget_not_above_is_noop duration :
  (forall now t s, t <= Deadline.targetRef s -> Deadline.setTarget now t s = s) /\
  (forall now t s, t <= Rate.targetRef s -> Rate.setTarget now t s = s) /\
  (forall rnd t s, t <= Scatter.targetRef s -> Scatter.setTarget duration rnd t s = s).
Proof.
  split; [|split]; intros x t s Ht.
  - unfold Deadline.setTarget.
    destruct (Z.leb_spec t (Deadline.targetRef s)); [reflexivity | lia].
  - unfold Rate.setTarget.
    destruct (Z.leb_spec t (Rate.targetRef s)); [reflexivity | lia].
  - unfold Scatter.setTarget.
    destruct (Z.leb_spec t (Scatter.targetRef s)); [reflexivity | lia].
Qed.

Lemma setTarget_not_above_is_noop_witness :
  let s := Deadline.run 2000 Deadline.init [Deadline.SetTarget 0 100; Deadline.SetTarget 10 600] in
  Deadline.setTarget 20 600 s = s /\ Deadline.setTarget 20 50 s = s.
Proof.
  intros s. split; apply (proj1 (setTarget_not_above_is_noop 2000)); cbn; lia.
Defined.

(** *** Reaching the target *)



Lemma animating_step duration now0 t s e :
  quiet e -> animating now0 t s -> animating now0 t (Deadline.step duration s e).
Proof.
  intros He (Hle & Ht & Hr).
  destruct e as [now newTarget | n | now rnd]; cbn in *; [contradiction| |].
  - unfold animating, Deadline.addImmediate; cbn. repeat split; try lia.
    destruct Hr as [[Hraf Hst] | Heq]; [left; auto | right; lia].
  - destruct (Deadline.rafRef s) eqn:Hraf;
      [|unfold animating; rewrite Hraf; auto].
    unfold animating, Deadline.tick, Deadline.show, Deadline.set_raf.
    destruct Hr as [[_ Hst] | Heq]; branches; repeat split; try lia;
      solve [left; auto | right; lia].
Qed.

Lemma animating_run duration now0 t es s :
  Forall quiet es -> animating now0 t s -> animating now0 t (Deadline.run duration s es).
Proof.
  intros Hes. revert s. induction Hes as [|e es He _ IH]; intros s Hs; cbn; [exact Hs|].
  apply IH, animating_step; assumption.
Qed.

(** In the revision with a deadline: after [setTarget(t)] at time [now0]
    on an initialised hook, with [t] above the target, and then any frames
    and own clicks, the frame whose time stamp is [duration] or more after
    [now0] leaves the displayed value at the target, which is at least
    [t]. *)
Theorem deadline_reaches_target duration s now0 t es now rnd :
  Deadline.initializedRef s = true ->
  Deadline.displayRef s <= Deadline.targetRef s ->
  Deadline.targetRef s < t ->
  Forall quiet es ->
  (duration <= now - now0)%Q ->
  let s' := Deadline.step duration
              (Deadline.run duration (Deadline.setTarget now0 t s) es)
              (Deadline.Frame now rnd) in
  Deadline.displayRef s' = Deadline.targetRef s' /\ t <= Deadline.displayRef s'.
Proof.
  intros Hinit Hle Ht Hes Hdue.
  assert (H0 : animating now0 t (Deadline.setTarget now0 t s)).
  { unfold Deadline.setTarget. destruct (Z.leb_spec t (Deadline.targetRef s)); [lia|].
    cbn. rewrite Hinit. cbn. unfold animating; cbn. repeat split; try lia. left; auto. }
  apply (animating_run duration now0 t es) in H0; [|exact Hes].
  destruct H0 as (Hle' & Ht' & Hr). cbn zeta. cbn [Deadline.step].
  destruct (Deadline.rafRef _) eqn:Hraf.
  - destruct Hr as [[_ Hst] | Heq].
    + unfold Deadline.tick. rewrite Hst.
      apply Qle_bool_iff in Hdue. rewrite Hdue, orb_true_r.
      unfold Deadline.show, Deadline.set_raf. branches; lia.
    + unfold Deadline.tick, Deadline.show, Deadline.set_raf. branches; lia.
  - destruct Hr as [[Hc _] | Heq]; [discriminate | lia].
Qed.

Lemma deadline_reaches_target_witness :
  let s := Deadline.run 2000 Deadline.init [Deadline.SetTarget 0 100] in
  let s' := Deadline.step 2000
              (Deadline.run 2000 (Deadline.setTarget 0 600 s)
                 [Deadline.Frame 500 0; Deadline.AddImmediate 1; Deadline.Frame 1990 (1 # 2)])
              (Deadline.Frame 2005 0) in
  Deadline.displayRef s' = Deadline.targetRef s' /\ 600 <= Deadline.displayRef s'.
Proof.
  intros s. apply deadline_reaches_target.
  - reflexivity.
  - cbn; lia.
  - cbn; lia.
  - repeat constructor; cbn; lia.
  - vm_compute. discriminate.
Defined.

(** C5. In the revision with a rate (part_000), after the target of an
    initialised hook jumps from 100 to 600 with a duration of 2000 ms and
    no newer target, the displayed value has not reached 600 when the
    duration has elapsed: it is 428 after frames every 100 ms and 453
    after frames every 1/60 s, even when every random number favours an
    increment; with unfavourable random numbers it is still 481 after 20
    seconds, and a frame is still requested. *)
Theorem rate_misses_deadline :
  let slow := Rate.run 2000 Rate.init (jump_100_600 100 0 20) in
  let fast := Rate.run 2000 Rate.init (jump_100_600 (50 # 3) 0 120) in
  let unlucky := Rate.run 2000 Rate.init (jump_100_600 (50 # 3) (999 # 1000) 1200) in
  (Rate.targetRef slow = 600 /\ Rate.displayRef slow = 428 /\ Rate.rafRef slow = true) /\
  (Rate.targetRef fast = 600 /\ Rate.displayRef fast = 453 /\ Rate.rafRef fast = true) /\
  (Rate.targetRef unlucky = 600 /\ Rate.displayRef unlucky = 481 /\
   Rate.rafRef unlucky = true).
Proof. vm_compute. repeat split; reflexivity. Qed.

End InterpFacts.

(** * Further properties of the worker *)
Module WorkerLaws.
Import Worker Balance WorkerFacts.

(** ** Validation and the effect of an accepted click *)

(** [validate_count] accepts exactly the integers from 1 to 200, and each
    revision of [handleClick] answers a body whose count it rejects with
    400 [count must be integer 1-200], the database untouched, whoever
    the caller is and whatever the token. *)
Theorem invalid_count_is_bad_request :
  (forall c z, validate_count c = Some z <-> c = Some (JInt z) /\ 1 <= z <= 200) /\
  (forall hashIP key clock svc request body db,
      req_json request = Parsed body ->
      validate_count (body_count body) = None ->
      run clock svc (VolumeCap.handleClick hashIP key request) db =
        (Returned (error 400 "count must be integer 1-200"), db) /\
      run clock svc (BatchCap.handleClick hashIP key request) db =
        (Returned (error 400 "count must be integer 1-200"), db)).
Proof.
  split.
  - intros c z. split.
    + intros H. pose proof (validate_count_range _ _ H) as Hr.
      destruct c as [[]|]; cbn in H; try discriminate.
      destruct ((z0 <? 1) || (200 <? z0)); [discriminate|].
      injection H as <-. auto.
    + intros [-> Hr]. cbn.
      destruct (Z.ltb_spec z 1); [lia|]. destruct (Z.ltb_spec 200 z); [lia|]. reflexivity.
  - intros * Hb Hc. unfold VolumeCap.handleClick, BatchCap.handleClick.
    rewrite Hb, Hc. split; reflexivity.
Qed.

Lemma invalid_count_is_bad_request_witness :
  run (at_time 100) accepting (VolumeCap.handleClick plain "k" (remote 250 (Some (JStr "t"))))
      full_window = (Returned (error 400 "count must be integer 1-200"), full_window) /\
  run (at_time 100) accepting (BatchCap.handleClick plain "k" (remote 0 None))
      full_window = (Returned (error 400 "count must be integer 1-200"), full_window) /\
  validate_count (Some (JInt 200)) = Some 200.
Proof.
  split; [|split].
  - exact (proj1 (proj2 invalid_count_is_bad_request plain "k"%string (at_time 100) accepting
                    (remote 250 (Some (JStr "t"))) _ full_window eq_refl eq_refl)).
  - exact (proj2 (proj2 invalid_count_is_bad_request plain "k"%string (at_time 100) accepting
                    (remote 0 None) _ full_window eq_refl eq_refl)).
  - apply (proj1 invalid_count_is_bad_request). split; [reflexivity | lia].
Defined.

(** *** Runs in which D1 rejects a statement *)

Ltac faulty_simpl :=
  prog_simpl; cbn [Faults.run_faulty Faults.is_statement andb exec] in *.

Lemma run_faulty_never {R} fails clock svc (p : prog R) db :
  (forall n, fails n = false) ->
  Faults.run_faulty fails clock svc p db = run clock svc p db.
Proof.
  revert fails clock db.
  induction p as [r| |B a k IH]; intros fails clock db Hf; cbn; try reflexivity.
  rewrite Hf, andb_false_r. destruct (exec (clock O) svc a db) as [b db'].
  apply IH. intros n. apply Hf.
Qed.

Lemma faulty_storeBatch_volume fails clock svc cnt h ctry db :
  Faults.run_faulty fails clock svc (VolumeCap.storeBatch cnt h ctry) db =
  if fails O then (Rejected, db)
  else if window_sum (clock O) h db + cnt <=? 200
       then if fails 1%nat
            then (Rejected, insert_batch (clock O) cnt h ctry db)
            else (Returned (ok (total db + cnt)),
                  add_total cnt (insert_batch (clock O) cnt h ctry db))
       else (Returned (error 429 "rate limited"), db).
Proof.
  unfold VolumeCap.storeBatch. faulty_simpl.
  destruct (fails O); [reflexivity|].
  destruct (window_sum (clock O) h db + cnt <=? 200); [|reflexivity].
  cbn. destruct (fails 1%nat); reflexivity.
Qed.

Lemma faulty_storeBatch_batch fails clock svc cnt h ctry db :
  Faults.run_faulty fails clock svc (BatchCap.storeBatch cnt h ctry) db =
  if fails O then (Rejected, db)
  else if 10 <=? window_count (clock O) h db
       then (Returned (error 429 "rate limited"), db)
       else if fails 1%nat then (Rejected, db)
            else (Returned (ok (total db + cnt)),
                  add_total cnt (insert_batch (clock 1%nat) cnt h ctry db)).
Proof.
  unfold BatchCap.storeBatch. faulty_simpl.
  destruct (fails O); [reflexivity|].
  destruct (10 <=? window_count (clock O) h db); [reflexivity|].
  cbn. destruct (fails 1%nat); reflexivity.
Qed.

Lemma storeBatch_volume_faulty hashIP fails clock svc request body cnt db db1 :
  req_json request = Parsed body ->
  validate_count (body_count body) = Some cnt ->
  total db1 = total db -> click_batches db1 = click_batches db ->
  let out := Faults.run_faulty fails clock svc
               (VolumeCap.storeBatch cnt (hashIP (client_ip request)) (client_country request))
               db1 in
  click_effect hashIP request db out \/ Faults.stranded_row hashIP request db out.
Proof.
  intros Hb Hc Ht Hl. destruct (requested_parsed _ _ _ Hb Hc) as [Hreq Hr].
  cbn zeta. rewrite faulty_storeBatch_volume.
  destruct (fails O); [left; cbn; auto|].
  destruct (_ <=? 200); [|left; cbn; auto].
  destruct (fails 1%nat).
  - right. cbn. rewrite Hreq, Hl. eauto.
  - left. cbn. rewrite Hreq, Ht, Hl. repeat split; try lia. eauto.
Qed.

Lemma storeBatch_batch_faulty hashIP fails clock svc request body cnt db db1 :
  req_json request = Parsed body ->
  validate_count (body_count body) = Some cnt ->
  total db1 = total db -> click_batches db1 = click_batches db ->
  click_effect hashIP request db
    (Faults.run_faulty fails clock svc
       (BatchCap.storeBatch cnt (hashIP (client_ip request)) (client_country request)) db1).
Proof.
  intros Hb Hc Ht Hl. destruct (requested_parsed _ _ _ Hb Hc) as [Hreq Hr].
  rewrite faulty_storeBatch_batch.
  destruct (fails O); [cbn; auto|].
  destruct (10 <=? _); [cbn; auto|].
  destruct (fails 1%nat); [cbn; auto|].
  cbn. rewrite Hreq, Ht, Hl. repeat split; try lia. eauto.
Qed.

Lemma handleClick_volume_faulty hashIP key fails clock svc request db :
  let out := Faults.run_faulty fails clock svc (VolumeCap.handleClick hashIP key request) db in
  click_effect hashIP request db out \/ Faults.stranded_row hashIP request db out.
Proof.
  cbn zeta. unfold VolumeCap.handleClick.
  destruct (req_json request) as [| |body] eqn:Hb; try (left; cbn; auto; fail).
  destruct (validate_count (body_count body)) as [cnt|] eqn:Hc; [|left; cbn; auto].
  cbn zeta. destruct (isLocal (client_ip request)).
  { eapply storeBatch_volume_faulty; eauto. }
  faulty_simpl. destruct (fails O); [left; cbn; auto|].
  match goal with |- context [if ?b then _ else _] => destruct b end.
  { eapply storeBatch_volume_faulty; eauto. }
  destruct (token_string (body_token body)) as [token|]; [|left; cbn; auto].
  faulty_simpl.
  destruct (svc token key (client_ip request)) as [| |[]]; faulty_simpl;
    try (left; cbn; auto; fail).
  destruct (fails 2%nat); [left; cbn; auto|].
  eapply storeBatch_volume_faulty; eauto.
Qed.

Lemma handleClick_batch_faulty hashIP key fails clock svc request db :
  click_effect hashIP request db
    (Faults.run_faulty fails clock svc (BatchCap.handleClick hashIP key request) db).
Proof.
  unfold BatchCap.handleClick.
  destruct (req_json request) as [| |body] eqn:Hb; try (cbn; auto; fail).
  destruct (validate_count (body_count body)) as [cnt|] eqn:Hc; [|cbn; auto].
  cbn zeta. destruct (isLocal (client_ip request)).
  { eapply storeBatch_batch_faulty; eauto. }
  destruct (token_string (body_token body)) as [token|]; [|cbn; auto].
  faulty_simpl.
  destruct (svc token key (client_ip request)) as [| |[]]; faulty_simpl;
    try (cbn; auto; fail).
  eapply storeBatch_batch_faulty; eauto.
Qed.

(** What one run of [handleClick] does to counter and ledger, also when
    D1 rejects statements.  In the revision with the batch of three
    statements every run is all or nothing: it answers
    [{ ok: true, total }] with the previous total plus the requested
    count, having appended exactly one row (that count, the digest of
    the caller's address, the caller's country) and added the count to
    the counter, or it leaves counter and ledger as they were.  In the
    revision with the conditional INSERT a run is all or nothing, or it
    rejects with the row appended and the counter not incremented; it is
    all or nothing when no statement rejects.  The last part tells when
    the row is stranded: the INSERT has passed the rate predicate and the
    batch with the UPDATE rejects. *)
Theorem click_appends_one_row hashIP key fails clock svc request db :
  let v := Faults.run_faulty fails clock svc (VolumeCap.handleClick hashIP key request) db in
  let b := Faults.run_faulty fails clock svc (BatchCap.handleClick hashIP key request) db in
  click_effect hashIP request db b /\
  (click_effect hashIP request db v \/ Faults.stranded_row hashIP request db v) /\
  ((forall n, fails n = false) ->
   v = run clock svc (VolumeCap.handleClick hashIP key request) db /\
   b = run clock svc (BatchCap.handleClick hashIP key request) db /\
   click_effect hashIP request db v) /\
  (forall cnt h ctry,
     Faults.run_faulty fails clock svc (VolumeCap.storeBatch cnt h ctry) db =
     if fails O then (Rejected, db)
     else if window_sum (clock O) h db + cnt <=? 200
          then if fails 1%nat
               then (Rejected, insert_batch (clock O) cnt h ctry db)
               else (Returned (ok (total db + cnt)),
                     add_total cnt (insert_batch (clock O) cnt h ctry db))
          else (Returned (error 429 "rate limited"), db)).
Proof.
  cbn zeta. split; [apply handleClick_batch_faulty|].
  split; [apply handleClick_volume_faulty|]. split.
  - intros Hf. rewrite !run_faulty_never by exact Hf.
    split; [reflexivity|]. split; [reflexivity|]. apply handleClick_volume_effect.
  - intros cnt h ctry. apply faulty_storeBatch_volume.
Qed.

Lemma click_appends_one_row_witness :
  click_effect plain (click 47 None None) empty_db
    (Faults.run_faulty (fun _ => false) (at_time 100) accepting
       (VolumeCap.handleClick plain "k" (click 47 None None)) empty_db) /\
  Faults.run_faulty (fun n => Nat.eqb n 1) (at_time 100) accepting
    (VolumeCap.handleClick plain "k" (click 47 None None)) empty_db
  = (Rejected, mkDB 0 [mkBatch 47 "unknown" "unknown" 100] ∅).
Proof.
  split.
  - apply (click_appends_one_row plain "k" (fun _ => false) (at_time 100) accepting
             (click 47 None None) empty_db).
    reflexivity.
  - exact (proj2 (proj2 (proj2 (click_appends_one_row plain "k" (fun n => Nat.eqb n 1)
             (at_time 100) accepting (click 47 None None) empty_db))) 47 "unknown"%string
             "unknown"%string).
Defined.

(** ** The verification record *)

Lemma run_storeBatch_volume_verified clock svc cnt h ctry db :
  turnstile_verified (run clock svc (VolumeCap.storeBatch cnt h ctry) db).2
  = turnstile_verified db.
Proof.
  rewrite run_storeBatch_volume. destruct (_ <=? 200); reflexivity.
Qed.

(** In the revision that keeps verification records: once a caller that
    is not exempt has had a token accepted, the record is dated by the
    statement that wrote it, and a later request from the same address
    whose first statement runs less than 60 seconds after that date goes
    to [storeBatch] without any token; from 60 seconds on, a request
    without token is answered with 400 [missing turnstile token]. *)
Theorem verification_lasts_60_seconds hashIP key clock1 svc1 request1 body1 cnt1 token db
    clock2 svc2 request2 body2 cnt2 :
  isLocal (client_ip request1) = false ->
  recently_verified (clock1 O) (hashIP (client_ip request1)) db = false ->
  req_json request1 = Parsed body1 ->
  validate_count (body_count body1) = Some cnt1 ->
  token_string (body_token body1) = Some token ->
  svc1 token key (client_ip request1) = Json true ->
  client_ip request2 = client_ip request1 ->
  req_json request2 = Parsed body2 ->
  validate_count (body_count body2) = Some cnt2 ->
  let db1 := (run clock1 svc1 (VolumeCap.handleClick hashIP key request1) db).2 in
  turnstile_verified db1 !! hashIP (client_ip request1) = Some (clock1 2%nat) /\
  (clock2 O - 60 < clock1 2%nat ->
   run clock2 svc2 (VolumeCap.handleClick hashIP key request2) db1 =
   run (later 1 clock2) svc2
     (VolumeCap.storeBatch cnt2 (hashIP (client_ip request2)) (client_country request2)) db1) /\
  (clock1 2%nat <= clock2 O - 60 ->
   token_string (body_token body2) = None ->
   run clock2 svc2 (VolumeCap.handleClick hashIP key request2) db1 =
   (Returned (error 400 "missing turnstile token"), db1)).
Proof.
  intros Hl Hr Hb Hc Ht Hs Hip Hb2 Hc2 db1.
  assert (Hg : VolumeCap.passes_gate hashIP key clock1 svc1 request1 db (later 3 clock1)
                 (mark_verified (clock1 2%nat) (hashIP (client_ip request1)) db))
    by (eapply VolumeCap.gate_token; eauto).
  destruct (handleClick_volume_gate _ _ _ _ _ _ _ _ _ _ Hb Hc Hg) as (Hrun & _ & _).
  assert (Hv : turnstile_verified db1 !! hashIP (client_ip request1) = Some (clock1 2%nat)).
  { subst db1. rewrite Hrun, run_storeBatch_volume_verified. cbn.
    apply lookup_insert_eq. }
  split; [exact Hv|]. split.
  - intros Hfresh.
    assert (Hrv : recently_verified (clock2 O) (hashIP (client_ip request2)) db1 = true).
    { unfold recently_verified. rewrite Hip, Hv. apply Z.ltb_lt. exact Hfresh. }
    assert (Hl2 : isLocal (client_ip request2) = false) by (rewrite Hip; exact Hl).
    apply (handleClick_volume_gate hashIP key clock2 svc2 request2 body2 cnt2 db1 _ db1 Hb2 Hc2).
    apply VolumeCap.gate_recent; assumption.
  - intros Hold Hnone.
    assert (Hrv : recently_verified (clock2 O) (hashIP (client_ip request2)) db1 = false).
    { unfold recently_verified. rewrite Hip, Hv. apply Z.ltb_ge. exact Hold. }
    unfold VolumeCap.handleClick. rewrite Hb2, Hc2. cbn zeta.
    rewrite Hip, Hl. prog_simpl. rewrite <- Hip, Hrv, Hnone. reflexivity.
Qed.

Lemma verification_lasts_60_seconds_witness :
  let db1 := (run (at_time 100) accepting
                (VolumeCap.handleClick plain "k" (remote 47 (Some (JStr "t")))) empty_db).2 in
  (run (at_time 159) refusing (VolumeCap.handleClick plain "k" (remote 3 None)) db1).1
    = Returned (ok 50) /\
  (run (at_time 160) refusing (VolumeCap.handleClick plain "k" (remote 3 None)) db1).1
    = Returned (error 400 "missing turnstile token").
Proof.
  intros db1.
  destruct (verification_lasts_60_seconds plain "k"%string (at_time 100) accepting
              (remote 47 (Some (JStr "t"))) _ 47 "t"%string empty_db
              (at_time 159) refusing (remote 3 None) _ 3
              eq_refl eq_refl eq_refl eq_refl eq_refl eq_refl eq_refl eq_refl eq_refl)
    as (_ & Hfresh & _).
  destruct (verification_lasts_60_seconds plain "k"%string (at_time 100) accepting
              (remote 47 (Some (JStr "t"))) _ 47 "t"%string empty_db
              (at_time 160) refusing (remote 3 None) _ 3
              eq_refl eq_refl eq_refl eq_refl eq_refl eq_refl eq_refl eq_refl eq_refl)
    as (_ & _ & Hold).
  split.
  - fold db1 in Hfresh. rewrite Hfresh; [reflexivity | unfold at_time; lia].
  - fold db1 in Hold. rewrite Hold; [reflexivity | unfold at_time; lia | reflexivity].
Defined.

(** ** The sliding window *)

Lemma filter_none {A} (f : A -> bool) l :
  Forall (fun x => f x = false) l -> List.filter f l = [].
Proof.
  induction 1 as [|x l Hx _ IH]; cbn; [reflexivity | rewrite Hx; exact IH].
Qed.

(** The limit is a window, not a ban: when every row of the identity is
    five seconds old or older at the time of the check, any valid batch
    is accepted, by either revision, whatever the identity sent before. *)
Theorem old_rows_do_not_count clock svc cnt h ctry db :
  1 <= cnt <= 200 ->
  Forall (fun b => ip_hash b = h -> created_at b <= clock O - 5) (click_batches db) ->
  run clock svc (VolumeCap.storeBatch cnt h ctry) db =
    (Returned (ok (total db + cnt)), add_total cnt (insert_batch (clock O) cnt h ctry db)) /\
  run clock svc (BatchCap.storeBatch cnt h ctry) db =
    (Returned (ok (total db + cnt)),
     add_total cnt (insert_batch (clock 1%nat) cnt h ctry db)).
Proof.
  intros Hc Hold.
  assert (Hnone : List.filter (recent (clock O) h) (click_batches db) = []).
  { apply filter_none. eapply Forall_impl; [exact Hold|]. cbn. intros b Hb.
    unfold recent. destruct (bool_decide_reflect (ip_hash b = h)) as [He|]; [|reflexivity].
    cbn. apply Z.ltb_ge. auto. }
  rewrite run_storeBatch_volume, run_storeBatch_batch.
  unfold window_sum, window_count. rewrite Hnone.
  change (sum_counts []) with 0. change (Z.of_nat (length (@nil Batch))) with 0.
  destruct (Z.leb_spec (0 + cnt) 200); [|lia]. split; reflexivity.
Qed.

Lemma old_rows_do_not_count_witness :
  (run (at_time 105) accepting (VolumeCap.storeBatch 200 "unknown" "unknown") full_window).1
    = Returned (ok 400) /\
  (run (at_time 105) accepting (BatchCap.storeBatch 200 "unknown" "unknown") ten_batches).1
    = Returned (ok 210).
Proof.
  split.
  - rewrite (proj1 (old_rows_do_not_count (at_time 105) accepting 200 "unknown" "unknown"
                      full_window ltac:(lia)
                      ltac:(repeat (constructor; [intros _; unfold at_time; cbn; lia|]);
                            constructor))).
    reflexivity.
  - rewrite (proj2 (old_rows_do_not_count (at_time 105) accepting 200 "unknown" "unknown"
                      ten_batches ltac:(lia)
                      ltac:(repeat (constructor; [intros _; unfold at_time; cbn; lia|]);
                            constructor))).
    reflexivity.
Defined.

Lemma filter_recent_rows now h l :
  List.filter (recent now h) l =
  List.filter (fun b => now - 5 <? created_at b)
              (List.filter (fun b => bool_decide (ip_hash b = h)) l).
Proof.
  induction l as [|b l IH]; cbn; [reflexivity|]. unfold recent at 1.
  destruct (bool_decide (ip_hash b = h)); cbn; rewrite IH; reflexivity.
Qed.

(** The limit is per identity: the answer of [storeBatch] depends on the
    ledger only through the rows of the identity that submits; rows of
    other identities, however many, change nothing. *)
Theorem rate_limit_is_per_identity clock svc cnt h ctry db1 db2 :
  rows_of h db1 = rows_of h db2 ->
  total db1 = total db2 ->
  (run clock svc (VolumeCap.storeBatch cnt h ctry) db1).1 =
  (run clock svc (VolumeCap.storeBatch cnt h ctry) db2).1 /\
  (run clock svc (BatchCap.storeBatch cnt h ctry) db1).1 =
  (run clock svc (BatchCap.storeBatch cnt h ctry) db2).1.
Proof.
  unfold rows_of. intros Hrows Ht.
  rewrite !run_storeBatch_volume, !run_storeBatch_batch.
  unfold window_sum, window_count. rewrite !filter_recent_rows, Hrows, Ht.
  split; [destruct (_ <=? 200) | destruct (10 <=? _)]; reflexivity.
Qed.

Lemma rate_limit_is_per_identity_witness :
  let crowded := mkDB 200 (click_batches full_window
                           ++ repeat (mkBatch 200 "other" "unknown" 100) 50) ∅ in
  (run (at_time 100) accepting (VolumeCap.storeBatch 1 "unknown" "unknown") crowded).1 =
  (run (at_time 100) accepting (VolumeCap.storeBatch 1 "unknown" "unknown") full_window).1.
Proof.
  intros crowded.
  apply (rate_limit_is_per_identity (at_time 100) accepting 1 "unknown" "unknown"
           crowded full_window); reflexivity.
Defined.

(** ** The entry point *)

(** Only [POST /click] can write: for any other method or path, [fetch]
    leaves the database as it is, in either revision; [OPTIONS] is
    answered with an empty 200, [GET /count] with the stored total, and
    anything else with 404. *)
Theorem only_click_writes handleClick clock svc request db :
  (pathname request = "/click"%string /\ method request = "POST"%string -> False) ->
  (run clock svc (fetch handleClick request) db).2 = db /\
  (run clock svc (fetch handleClick request) db).1 =
    Returned
      (if bool_decide (method request = "OPTIONS"%string) then mkResponse 200 NoBody
       else if bool_decide (pathname request = "/count"%string)
               && bool_decide (method request = "GET"%string)
            then mkResponse 200 (Total (total db))
            else mkResponse 404 (Text "Not found")).
Proof.
  intros Hne. unfold fetch.
  destruct (bool_decide (method request = "OPTIONS"%string)); [split; reflexivity|].
  destruct (_ && _); [split; reflexivity|].
  destruct (bool_decide_reflect (pathname request = "/click"%string)) as [Hp|];
    [|split; reflexivity].
  destruct (bool_decide_reflect (method request = "POST"%string)) as [Hm|];
    [exfalso; auto | split; reflexivity].
Qed.

Lemma only_click_writes_witness :
  run (at_time 100) accepting
      (fetch (VolumeCap.handleClick plain "k") (mkRequest "GET" "/count" ParseError None None))
      full_window
    = (Returned (mkResponse 200 (Total 200)), full_window).
Proof.
  pose proof (only_click_writes (VolumeCap.handleClick plain "k") (at_time 100) accepting
                (mkRequest "GET" "/count" ParseError None None) full_window) as H.
  destruct H as [H2 H1]; [cbn; intros [Hp _]; discriminate|].
  destruct (run _ _ _ _) as [r d]. cbn in *. subst. reflexivity.
Defined.

(** ** Counter and ledger under concurrent requests *)

Lemma all_actions_resume P now svc (p : prog Response) db :
  all_actions P p -> all_actions P (resume now svc p db).1.
Proof.
  destruct p as [r| |B a k]; cbn; auto.
  intros [_ Hk]. destruct (exec now svc a db) as [b db']. cbn. apply Hk.
Qed.

(** An invariant of the database that every operation allowed by [P]
    keeps, and that the passing of time keeps, holds after any schedule
    of a handler whose tasks only run operations allowed by [P]. *)
Lemma sys_run_invariant handler (P : forall B, action B -> Prop) (I : Z -> DB -> Prop) :
  (forall request, all_actions P (handler request)) ->
  (forall B (a : action B) now svc db, P B a -> I now db -> I now (exec now svc a db).2) ->
  (forall now now' db, now <= now' -> I now db -> I now' db) ->
  forall es s,
    I (sys_now s) (sys_db s) -> Forall (all_actions P) (sys_tasks s) ->
    I (sys_now (sys_run handler s es)) (sys_db (sys_run handler s es)) /\
    Forall (all_actions P) (sys_tasks (sys_run handler s es)).
Proof.
  intros Hh Hexec Htime es. induction es as [|e es IH]; intros s HI Ht; [auto|].
  cbn. apply IH; destruct e as [request | i svc | seconds]; cbn; auto.
  - destruct (sys_tasks s !! i) as [p|] eqn:Hp; [|assumption].
    pose proof (Forall_lookup_1 _ _ _ _ Ht Hp) as Hpa.
    destruct p as [r| |B a k]; cbn; auto.
    destruct Hpa as [Ha _]. specialize (Hexec B a (sys_now s) svc (sys_db s) Ha HI).
    destruct (exec (sys_now s) svc a (sys_db s)). exact Hexec.
  - apply (Htime (sys_now s)); [lia | assumption].
  - apply Forall_app. split; [assumption | constructor; [apply Hh | constructor]].
  - destruct (sys_tasks s !! i) as [p|] eqn:Hp; [|assumption].
    pose proof (Forall_lookup_1 _ _ _ _ Ht Hp) as Hpa.
    pose proof (all_actions_resume P (sys_now s) svc p (sys_db s) Hpa) as Hr.
    destruct (resume (sys_now s) svc p (sys_db s)) as [p' db']. cbn in *.
    apply Forall_insert; assumption.
Qed.

Lemma storeBatch_volume_nonneg cnt h ctry :
  0 <= cnt -> all_actions writes_nonneg (VolumeCap.storeBatch cnt h ctry).
Proof.
  intros Hc. cbn. split; [exact Hc|]. intros changes.
  destruct (changes =? 0); cbn; auto.
Qed.

Lemma storeBatch_batch_nonneg cnt h ctry :
  0 <= cnt -> all_actions writes_nonneg (BatchCap.storeBatch cnt h ctry).
Proof.
  intros Hc. cbn. split; [exact I|]. intros n.
  destruct (10 <=? n); cbn; auto.
Qed.

Lemma fetch_nonneg handleClick request :
  (forall request, all_actions writes_nonneg (handleClick request)) ->
  all_actions writes_nonneg (fetch handleClick request).
Proof.
  intros Hh. unfold fetch.
  destruct (bool_decide _); [exact I|].
  destruct (_ && _); [cbn; auto|].
  destruct (_ && _); [apply Hh | exact I].
Qed.

Lemma handleClick_volume_nonneg hashIP key request :
  all_actions writes_nonneg (VolumeCap.handleClick hashIP key request).
Proof.
  unfold VolumeCap.handleClick.
  destruct (req_json request) as [| |body]; try exact I.
  destruct (validate_count (body_count body)) as [cnt|] eqn:Hc; [|exact I].
  apply validate_count_range in Hc.
  assert (Hs : forall h ctry, all_actions writes_nonneg (VolumeCap.storeBatch cnt h ctry))
    by (intros; apply storeBatch_volume_nonneg; lia).
  cbn zeta. destruct (isLocal _); [apply Hs|].
  prog_simpl. cbn [all_actions]. split; [exact I|]. intros [|]; [apply Hs|].
  destruct (token_string _) as [token|]; [|exact I].
  prog_simpl. cbn [all_actions]. split; [exact I|].
  intros [| |[|]]; prog_simpl; cbn [all_actions]; try exact I.
  split; [exact I|]. intros _. apply Hs.
Qed.

Lemma handleClick_batch_nonneg hashIP key request :
  all_actions writes_nonneg (BatchCap.handleClick hashIP key request).
Proof.
  unfold BatchCap.handleClick.
  destruct (req_json request) as [| |body]; try exact I.
  destruct (validate_count (body_count body)) as [cnt|] eqn:Hc; [|exact I].
  apply validate_count_range in Hc.
  assert (Hs : forall h ctry, all_actions writes_nonneg (BatchCap.storeBatch cnt h ctry))
    by (intros; apply storeBatch_batch_nonneg; lia).
  cbn zeta. destruct (isLocal _); [apply Hs|].
  destruct (token_string _) as [token|]; [|exact I].
  prog_simpl. cbn [all_actions]. split; [exact I|].
  intros [| |[|]]; prog_simpl; cbn [all_actions]; try exact I. apply Hs.
Qed.

Lemma exec_total_le B (a : action B) now svc db :
  writes_nonneg B a -> total db <= total (exec now svc a db).2.
Proof.
  destruct a; cbn; intros Hc; try lia.
  destruct (_ <=? 200); cbn; lia.
Qed.

(** Whatever the requests and however their awaits interleave, the
    counter total never decreases, in either revision of the worker:
    after a longer schedule it is at least what it was after a shorter
    one. *)
Theorem total_never_decreases hashIP key s es1 es2 :
  sys_tasks s = [] ->
  total (sys_db (sys_run (volume hashIP key) s es1))
    <= total (sys_db (sys_run (volume hashIP key) s (es1 ++ es2))) /\
  total (sys_db (sys_run (batch hashIP key) s es1))
    <= total (sys_db (sys_run (batch hashIP key) s (es1 ++ es2))).
Proof.
  intros Ht. unfold sys_run. rewrite !fold_left_app.
  assert (Hgen : forall handler,
    (forall request, all_actions writes_nonneg (handler request)) ->
    total (sys_db (fold_left (sys_step handler) es1 s))
    <= total (sys_db (fold_left (sys_step handler) es2 (fold_left (sys_step handler) es1 s)))).
  { intros handler Hh.
    destruct (sys_run_invariant handler writes_nonneg (fun _ _ => True) Hh
                ltac:(auto) ltac:(auto) es1 s I) as [_ Ht1];
      [rewrite Ht; constructor|].
    set (s1 := sys_run handler s es1) in *.
    destruct (sys_run_invariant handler writes_nonneg
                (fun _ db => total (sys_db s1) <= total db) Hh) with (es := es2) (s := s1)
      as [Hle _]; auto.
    - intros B a now svc db Ha Hle.
      pose proof (exec_total_le B a now svc db Ha). lia.
    - lia. }
  split; apply Hgen; intros request; apply fetch_nonneg; intros r;
    [apply handleClick_volume_nonneg | apply handleClick_batch_nonneg].
Qed.

Lemma total_never_decreases_witness :
  total (sys_db (sys_run (volume plain "k") idle (one_by_one 1)))
    <= total (sys_db (sys_run (volume plain "k") idle (one_by_one 1 ++ burst 3))).
Proof.
  apply (total_never_decreases plain "k" idle (one_by_one 1) (burst 3)). reflexivity.
Defined.

#[local] Arguments sum_counts : simpl never.

Lemma sum_counts_snoc l b : sum_counts (l ++ [b]) = sum_counts l + count b.
Proof. rewrite sum_counts_app. unfold sum_counts. cbn. lia. Qed.

Lemma owed_all_app l1 l2 : owed_all (l1 ++ l2) = owed_all l1 + owed_all l2.
Proof.
  unfold owed_all. induction l1 as [|p l1 IH]; cbn; [reflexivity | rewrite IH; lia].
Qed.

Lemma owed_all_insert l i p p' :
  l !! i = Some p -> owed_all (<[i := p']> l) = owed_all l - owed p + owed p'.
Proof.
  revert i. induction l as [|q l IH]; intros [|i] H; try discriminate.
  - cbn in H. injection H as ->.
    change (<[0%nat := p']> (p :: l)) with (p' :: l).
    change (owed_all (p' :: l)) with (owed p' + owed_all l).
    change (owed_all (p :: l)) with (owed p + owed_all l). lia.
  - change (<[S i := p']> (q :: l)) with (q :: <[i := p']> l).
    change (owed_all (q :: <[i := p']> l)) with (owed q + owed_all (<[i := p']> l)).
    change (owed_all (q :: l)) with (owed q + owed_all l).
    rewrite (IH i H). lia.
Qed.

Lemma owed_nonneg p : balanced p -> 0 <= owed p.
Proof. destruct p as [r| |B a k]; cbn; [lia | lia | tauto]. Qed.

Lemma owed_all_nonneg l : Forall balanced l -> 0 <= owed_all l.
Proof.
  unfold owed_all. induction 1 as [|p l Hp _ IH]; cbn; [lia|].
  pose proof (owed_nonneg p Hp). lia.
Qed.

Lemma owed_all_finished l : Forall finished l -> owed_all l = 0.
Proof.
  unfold owed_all. induction 1 as [|p l Hp _ IH]; cbn; [reflexivity|].
  destruct p; cbn in *; [lia | lia | contradiction].
Qed.

Lemma balanced_storeBatch_volume cnt h ctry :
  0 <= cnt -> balanced (VolumeCap.storeBatch cnt h ctry).
Proof.
  intros Hc. unfold VolumeCap.storeBatch. prog_simpl. cbn [balanced owed].
  split; [lia|]. split.
  - intros now svc db. cbn [exec]. unfold balance.
    destruct (_ <=? 200); cbn; [rewrite sum_counts_snoc; cbn|]; lia.
  - intros changes. destruct (changes =? 0); cbn [balanced owed]; [exact I|].
    split; [exact Hc|]. split; [|intros; exact I].
    intros now svc db. cbn. unfold balance. cbn. lia.
Qed.

Lemma balanced_storeBatch_batch cnt h ctry :
  balanced (BatchCap.storeBatch cnt h ctry).
Proof.
  unfold BatchCap.storeBatch. prog_simpl. cbn [balanced owed].
  split; [lia|]. split.
  - intros now svc db. cbn [exec fst snd]. unfold balance.
    destruct (10 <=? _); cbn; lia.
  - intros n. destruct (10 <=? n); cbn [balanced owed]; [exact I|].
    split; [lia|]. split; [|intros; exact I].
    intros now svc db. cbn. unfold balance. cbn. rewrite sum_counts_snoc. cbn. lia.
Qed.

(** A program that does not touch counter or ledger before it hands
    over to a balanced one that owes nothing. *)
Ltac gate_step :=
  cbn [balanced owed]; split; [lia|]; split;
  [intros now svc db; cbn [exec fst snd]; unfold balance; cbn [owed]|].

Lemma balanced_handleClick_volume hashIP key request :
  balanced (VolumeCap.handleClick hashIP key request) /\
  owed (VolumeCap.handleClick hashIP key request) = 0.
Proof.
  unfold VolumeCap.handleClick.
  destruct (req_json request) as [| |body]; try (split; [exact I | reflexivity]).
  destruct (validate_count (body_count body)) as [cnt|] eqn:Hc;
    [|split; [exact I | reflexivity]].
  apply validate_count_range in Hc.
  assert (Hs : forall h ctry, balanced (VolumeCap.storeBatch cnt h ctry))
    by (intros; apply balanced_storeBatch_volume; lia).
  cbn zeta. destruct (isLocal _); [split; [apply Hs | reflexivity]|].
  split; [|reflexivity].
  prog_simpl. gate_step.
  { destruct (recently_verified _ _ _); [reflexivity|].
    destruct (token_string _); reflexivity. }
  intros [|]; [apply Hs|].
  destruct (token_string _) as [token|]; [|exact I].
  prog_simpl. gate_step.
  { destruct (svc _ _ _) as [| |[|]]; reflexivity. }
  intros [| |[|]]; prog_simpl; try exact I.
  gate_step; [reflexivity|]. intros _. apply Hs.
Qed.

Lemma balanced_handleClick_batch hashIP key request :
  balanced (BatchCap.handleClick hashIP key request) /\
  owed (BatchCap.handleClick hashIP key request) = 0.
Proof.
  unfold BatchCap.handleClick.
  destruct (req_json request) as [| |body]; try (split; [exact I | reflexivity]).
  destruct (validate_count (body_count body)) as [cnt|] eqn:Hc;
    [|split; [exact I | reflexivity]].
  pose proof (balanced_storeBatch_batch cnt) as Hs.
  cbn zeta. destruct (isLocal _); [split; [apply Hs | reflexivity]|].
  destruct (token_string _) as [token|]; [|split; [exact I | reflexivity]].
  split; [|reflexivity].
  prog_simpl. gate_step.
  { destruct (svc _ _ _) as [| |[|]]; reflexivity. }
  intros [| |[|]]; prog_simpl; try exact I. apply Hs.
Qed.

Lemma balanced_fetch handleClick request :
  (forall request, balanced (handleClick request) /\ owed (handleClick request) = 0) ->
  balanced (fetch handleClick request) /\ owed (fetch handleClick request) = 0.
Proof.
  intros Hh. unfold fetch.
  destruct (bool_decide _); [split; [exact I | reflexivity]|].
  destruct (_ && _).
  { split; [|reflexivity]. unfold handleCount. prog_simpl. gate_step; [reflexivity|].
    intros; exact I. }
  destruct (_ && _); [apply Hh | split; [exact I | reflexivity]].
Qed.

(** One event of the worker keeps every task balanced and keeps the
    counter plus what the tasks in flight owe, minus the sum of the
    ledger. *)
Lemma sys_step_balance handler s e :
  (forall request, balanced (handler request) /\ owed (handler request) = 0) ->
  Forall balanced (sys_tasks s) ->
  let s' := Worker.sys_step handler s e in
  Forall balanced (sys_tasks s') /\
  total (sys_db s') + owed_all (sys_tasks s') - sum_counts (click_batches (sys_db s'))
  = total (sys_db s) + owed_all (sys_tasks s) - sum_counts (click_batches (sys_db s)).
Proof.
  intros Hh Hb. cbn zeta. destruct e as [request | i svc | seconds]; cbn; auto.
  - split.
    + apply Forall_app. split; [assumption|]. constructor; [apply Hh | constructor].
    + rewrite owed_all_app. cbn. rewrite (proj2 (Hh request)). lia.
  - destruct (sys_tasks s !! i) as [p|] eqn:Hp; [|auto].
    pose proof (Forall_lookup_1 _ _ _ _ Hb Hp) as Hpb.
    destruct p as [r| |B a k]; cbn; try (rewrite list_insert_id; auto; fail).
    destruct Hpb as (_ & Hbal & Hk). specialize (Hbal (sys_now s) svc (sys_db s)).
    destruct (exec (sys_now s) svc a (sys_db s)) as [b db']. cbn in *.
    split; [apply Forall_insert; auto|].
    rewrite (owed_all_insert _ _ _ _ Hp). unfold balance in Hbal. cbn [owed] in *. lia.
Qed.

Lemma balanced_reject p : balanced p -> balanced (Faults.reject p).
Proof.
  destruct p as [r| |B a k]; cbn [Faults.reject]; auto.
  destruct (Faults.is_statement a); [intros _; exact I | auto].
Qed.

Lemma owed_reject p : owed (Faults.reject p) = 0.
Proof.
  destruct p as [r| |B a k]; cbn [Faults.reject]; try reflexivity.
  destruct a; reflexivity.
Qed.

(** With rejections: the counter plus what the tasks in flight owe,
    minus the sum of the ledger, falls by what the rejected tasks
    owed. *)
Lemma faulty_run_balance handler :
  (forall request, balanced (handler request) /\ owed (handler request) = 0) ->
  forall es s,
    Forall balanced (sys_tasks s) ->
    let s' := Faults.sys_run handler s es in
    Forall balanced (sys_tasks s') /\
    0 <= Faults.dropped handler s es /\
    total (sys_db s') + owed_all (sys_tasks s') - sum_counts (click_batches (sys_db s'))
    = total (sys_db s) + owed_all (sys_tasks s) - sum_counts (click_batches (sys_db s))
      - Faults.dropped handler s es.
Proof.
  intros Hh es. induction es as [|e es IH]; intros s Hb; [cbn; repeat split; [auto | lia..]|].
  cbn zeta. cbn [Faults.sys_run fold_left Faults.dropped].
  destruct e as [e | i].
  - destruct (sys_step_balance handler s e Hh Hb) as [Hb' Heq].
    destruct (IH (Worker.sys_step handler s e) Hb') as (Hb2 & Hd & Heq2).
    cbn [Faults.sys_step]. unfold Faults.sys_run in *. cbn zeta in *.
    split; [exact Hb2|]. split; lia.
  - cbn [Faults.sys_step].
    destruct (sys_tasks s !! i) as [p|] eqn:Hp; cbn [from_option].
    + pose proof (Forall_lookup_1 _ _ _ _ Hb Hp) as Hpb.
      pose proof (owed_nonneg p Hpb) as Hnn.
      set (s1 := mkSys (sys_db s) (sys_now s) (<[i := Faults.reject p]> (sys_tasks s))).
      assert (Hb1 : Forall balanced (sys_tasks s1)).
      { cbn. apply Forall_insert; [assumption | apply balanced_reject, Hpb]. }
      destruct (IH s1 Hb1) as (Hb2 & Hd & Heq2).
      unfold Faults.sys_run in *. cbn zeta in *.
      split; [exact Hb2|].
      assert (Ho : owed_all (sys_tasks s1) = owed_all (sys_tasks s) - owed p).
      { cbn. rewrite (owed_all_insert _ _ _ _ Hp), owed_reject. lia. }
      cbn [sys_db s1] in Heq2. change (sys_db s1) with (sys_db s) in Heq2.
      split; lia.
    + destruct (IH s Hb) as (Hb2 & Hd & Heq2).
      unfold Faults.sys_run in *. cbn zeta in *. split; [exact Hb2|]. split; lia.
Qed.

Lemma writes_both_owed p : all_actions Faults.writes_both p -> owed p = 0.
Proof.
  destruct p as [r| |B a k]; cbn; try reflexivity.
  destruct a; cbn; tauto.
Qed.

Lemma writes_both_owed_all l : Forall (all_actions Faults.writes_both) l -> owed_all l = 0.
Proof.
  unfold owed_all. induction 1 as [|p l Hp _ IH]; cbn; [reflexivity|].
  rewrite (writes_both_owed p Hp). lia.
Qed.

Lemma all_actions_reject P (p : prog Response) :
  all_actions P p -> all_actions P (Faults.reject p).
Proof.
  destruct p as [r| |B a k]; cbn [Faults.reject]; auto.
  destruct (Faults.is_statement a); [intros _; exact I | auto].
Qed.

(** A handler whose tasks write rows and increments together drops
    nothing when statements reject. *)
Lemma faulty_run_writes_both handler :
  (forall request, all_actions Faults.writes_both (handler request)) ->
  forall es s,
    Forall (all_actions Faults.writes_both) (sys_tasks s) ->
    Forall (all_actions Faults.writes_both) (sys_tasks (Faults.sys_run handler s es)) /\
    Faults.dropped handler s es = 0.
Proof.
  intros Hh es. induction es as [|e es IH]; intros s Ht; [cbn; auto|].
  cbn [Faults.sys_run fold_left Faults.dropped].
  assert (Hstep : Forall (all_actions Faults.writes_both)
                    (sys_tasks (Faults.sys_step handler s e)) /\
                  match e with
                  | Faults.Reject i => from_option owed 0 (sys_tasks s !! i)
                  | Faults.Step _ => 0
                  end = 0).
  { destruct e as [[request | i svc | seconds] | i]; cbn; auto.
    - split; [|reflexivity].
      apply Forall_app. split; [assumption | constructor; [apply Hh | constructor]].
    - split; [|reflexivity].
      destruct (sys_tasks s !! i) as [p|] eqn:Hp; [|assumption].
      pose proof (Forall_lookup_1 _ _ _ _ Ht Hp) as Hpa.
      pose proof (all_actions_resume Faults.writes_both (sys_now s) svc p (sys_db s) Hpa) as Hr.
      destruct (resume (sys_now s) svc p (sys_db s)) as [p' db']. cbn in *.
      apply Forall_insert; assumption.
    - destruct (sys_tasks s !! i) as [p|] eqn:Hp; cbn; [|auto].
      pose proof (Forall_lookup_1 _ _ _ _ Ht Hp) as Hpa.
      split; [|apply writes_both_owed, Hpa].
      apply Forall_insert; [assumption | apply all_actions_reject, Hpa]. }
  destruct Hstep as [Ht' Hd]. destruct (IH _ Ht') as [Ht2 Hd2].
  unfold Faults.sys_run in *. split; [exact Ht2|]. rewrite Hd, Hd2. reflexivity.
Qed.

Lemma batch_writes_both hashIP key request :
  all_actions Faults.writes_both (batch hashIP key request).
Proof.
  unfold batch, fetch.
  destruct (bool_decide _); [exact I|].
  destruct (_ && _); [cbn; auto|].
  destruct (_ && _); [|exact I].
  unfold BatchCap.handleClick.
  destruct (req_json request) as [| |body]; try exact I.
  destruct (validate_count (body_count body)) as [cnt|]; [|exact I].
  assert (Hs : forall h ctry, all_actions Faults.writes_both (BatchCap.storeBatch cnt h ctry)).
  { intros h ctry. cbn. split; [exact I|]. intros n. destruct (10 <=? n); cbn; auto. }
  cbn zeta. destruct (isLocal _); [apply Hs|].
  destruct (token_string _) as [token|]; [|exact I].
  prog_simpl. cbn [all_actions]. split; [exact I|].
  intros [| |[|]]; prog_simpl; cbn [all_actions]; try exact I. apply Hs.
Qed.

Lemma steps_only handler es s :
  Faults.sys_run handler s (map Faults.Step es) = Worker.sys_run handler s es /\
  Faults.dropped handler s (map Faults.Step es) = 0.
Proof.
  revert s. induction es as [|e es IH]; intros s; [split; reflexivity|].
  cbn [map Faults.sys_run Worker.sys_run fold_left Faults.dropped Faults.sys_step].
  destruct (IH (Worker.sys_step handler s e)) as [Hr Hd].
  unfold Faults.sys_run, Worker.sys_run in *. rewrite Hr, Hd. split; reflexivity.
Qed.

(** Counter against ledger under concurrent requests, also when D1
    rejects statements.  In the revision with the conditional INSERT the
    counter never runs ahead of the ledger: the total minus the sum of
    the ledger's counts is at most what it was at the start, and once
    every request that has arrived has finished it falls short of that by
    exactly the counts of the requests whose UPDATE was rejected after
    their INSERT; a schedule without rejections is a schedule of
    [Worker.sys_run] and drops nothing.  In the revision with the batch
    of three statements the difference is what it was at the start, at
    every moment and whatever is rejected. *)
Theorem counter_tracks_ledger hashIP key s es :
  sys_tasks s = [] ->
  let gap (x : sys) := total (sys_db x) - sum_counts (click_batches (sys_db x)) in
  let v := Faults.sys_run (volume hashIP key) s es in
  let b := Faults.sys_run (batch hashIP key) s es in
  let lost := Faults.dropped (volume hashIP key) s es in
  (gap v <= gap s /\ 0 <= lost /\
   (Forall finished (sys_tasks v) -> gap v = gap s - lost)) /\
  gap b = gap s /\
  (forall es',
     Faults.sys_run (volume hashIP key) s (map Faults.Step es')
       = Worker.sys_run (volume hashIP key) s es' /\
     Faults.dropped (volume hashIP key) s (map Faults.Step es') = 0).
Proof.
  intros Ht. cbn zeta.
  assert (Hb0 : Forall balanced (sys_tasks s)) by (rewrite Ht; constructor).
  assert (Ho0 : owed_all (sys_tasks s) = 0) by (rewrite Ht; reflexivity).
  split; [|split].
  - destruct (faulty_run_balance (volume hashIP key)) with (es := es) (s := s)
      as (Hb & Hd & Heq); [|exact Hb0|].
    { intros request. apply balanced_fetch. intros r. apply balanced_handleClick_volume. }
    cbn zeta in *. pose proof (owed_all_nonneg _ Hb) as Hnn.
    split; [lia|]. split; [exact Hd|].
    intros Hf. rewrite (owed_all_finished _ Hf) in Heq. lia.
  - destruct (faulty_run_balance (batch hashIP key)) with (es := es) (s := s)
      as (Hb & Hd & Heq); [|exact Hb0|].
    { intros request. apply balanced_fetch. intros r. apply balanced_handleClick_batch. }
    destruct (faulty_run_writes_both (batch hashIP key) (batch_writes_both hashIP key) es s)
      as [Hw Hz]; [rewrite Ht; constructor|].
    cbn zeta in *. rewrite (writes_both_owed_all _ Hw), Hz in Heq. lia.
  - intros es'. apply steps_only.
Qed.

Lemma counter_tracks_ledger_witness :
  let v := Faults.sys_run (volume plain "k") idle Faults.update_rejected in
  click_batches (sys_db v) = [mkBatch 47 "unknown" "unknown" 100] /\
  total (sys_db v) - sum_counts (click_batches (sys_db v)) = 0 - 47.
Proof.
  split; [reflexivity|].
  destruct (counter_tracks_ledger plain "k" idle Faults.update_rejected eq_refl)
    as [(_ & _ & Heq) _].
  cbn zeta in Heq. rewrite Heq; [reflexivity|]. vm_compute. repeat constructor.
Defined.

(** ** The batch cap for requests served one by one *)

Import Serial.

Lemma filter_length_imp {A} (f g : A -> bool) l :
  (forall x, f x = true -> g x = true) ->
  (length (List.filter f l) <= length (List.filter g l))%nat.
Proof.
  intros Hfg. induction l as [|x l IH]; cbn; [lia|].
  destruct (f x) eqn:Hf; [rewrite (Hfg x Hf); cbn; lia|].
  destruct (g x); cbn; lia.
Qed.

(** What one run of the revision with the batch cap does to the ledger:
    nothing, or one row dated by the statement after a rate check that
    counted fewer than 10 batches. *)
Lemma batch_run_ledger hashIP key clock svc request db :
  let db' := (run clock svc (batch hashIP key request) db).2 in
  click_batches db' = click_batches db \/
  exists k cnt h ctry,
    window_count (clock k) h db < 10 /\
    click_batches db' = click_batches db ++ [mkBatch cnt h ctry (clock (S k))].
Proof.
  cbn zeta. unfold batch, fetch.
  destruct (bool_decide _); [left; reflexivity|].
  destruct (_ && _); [left; reflexivity|].
  destruct (_ && _); [|left; reflexivity].
  assert (Hs : forall clock cnt h ctry db,
    let db' := (run clock svc (BatchCap.storeBatch cnt h ctry) db).2 in
    click_batches db' = click_batches db \/
    (window_count (clock O) h db < 10 /\
     click_batches db' = click_batches db ++ [mkBatch cnt h ctry (clock 1%nat)])).
  { intros clock0 cnt h ctry db0. cbn zeta. rewrite run_storeBatch_batch.
    destruct (Z.leb_spec 10 (window_count (clock0 O) h db0)); [left; reflexivity|].
    right. split; [lia | reflexivity]. }
  unfold BatchCap.handleClick.
  destruct (req_json request) as [| |body]; try (left; reflexivity).
  destruct (validate_count (body_count body)) as [cnt|]; [|left; reflexivity].
  cbn zeta. destruct (isLocal _).
  { destruct (Hs clock cnt (hashIP (client_ip request)) (client_country request) db)
      as [H | [H1 H2]]; [left; exact H|].
    right. exists O, cnt, (hashIP (client_ip request)), (client_country request). auto. }
  destruct (token_string _) as [token|]; [|left; reflexivity].
  prog_simpl. destruct (svc token key (client_ip request)) as [| |[|]]; prog_simpl;
    try (left; reflexivity).
  destruct (Hs (fun n => clock (S n)) cnt (hashIP (client_ip request))
              (client_country request) db) as [H | [H1 H2]]; [left; exact H|].
  right. exists 1%nat, cnt, (hashIP (client_ip request)), (client_country request). auto.
Qed.

Lemma batches_ok_run hashIP key now next c db :
  (forall n, now <= call_clock c n) ->
  (forall n m, (n <= m)%nat -> call_clock c n <= call_clock c m) ->
  (forall n, call_clock c n <= next) ->
  batches_ok now db ->
  batches_ok next
    (run (call_clock c) (call_svc c) (batch hashIP key (call_request c)) db).2.
Proof.
  intros Hnow Hmono Hnext [Hrows Hcap].
  pose proof (batch_run_ledger hashIP key (call_clock c) (call_svc c) (call_request c) db)
    as Hl. cbn zeta in Hl.
  set (db' := (run _ _ _ db).2) in *. clearbody db'.
  assert (Hold : Forall (fun b => created_at b <= next) (click_batches db)).
  { eapply Forall_impl; [exact Hrows|]. cbn. intros b Hb.
    pose proof (Hnow O). pose proof (Hnext O). lia. }
  destruct Hl as [Heq | (k & cnt & h & ctry & Hcount & Heq)].
  - split; [rewrite Heq; exact Hold|].
    intros start h. unfold ledger_in_window. rewrite Heq. apply Hcap.
  - split.
    + rewrite Heq. apply Forall_app. split; [exact Hold|].
      constructor; [cbn; apply Hnext | constructor].
    + intros start h'. unfold ledger_in_window. rewrite Heq, List.filter_app, length_app.
      cbn [List.filter].
      destruct (in_window start h' (mkBatch cnt h ctry (call_clock c (S k)))) eqn:Hin;
        [|cbn; specialize (Hcap start h'); unfold ledger_in_window in Hcap; lia].
      unfold in_window in Hin. cbn in Hin.
      apply andb_prop in Hin as [Hin H2]. apply andb_prop in Hin as [H0 H1].
      apply bool_decide_eq_true in H0. subst h'.
      apply Z.ltb_lt in H1. apply Z.leb_le in H2.
      pose proof (Hmono k (S k) ltac:(lia)) as Hk.
      assert (Hsub : (length (List.filter (in_window start h) (click_batches db))
                      <= length (List.filter (recent (call_clock c k) h) (click_batches db)))%nat).
      { apply filter_length_imp. intros b Hb. unfold in_window in Hb. unfold recent.
        apply andb_prop in Hb as [Hb _]. apply andb_prop in Hb as [Hb0 Hb1].
        rewrite Hb0. cbn. apply Z.ltb_lt in Hb1. apply Z.ltb_lt. lia. }
      unfold window_count in Hcount. cbn [length]. lia.
Qed.

(** In the revision with the batch cap, when the requests are served one
    after the other on a clock that never goes back, no identity ever has
    more than 10 batches in the ledger within a window of five seconds:
    the cap that concurrent requests can break holds for serial ones. *)
Theorem batch_cap_holds_one_by_one hashIP key now calls db start ipHash :
  batches_ok now db ->
  orderly now calls ->
  (length (ledger_in_window start ipHash (serve (batch hashIP key) calls db).2) <= 10)%nat.
Proof.
  intros Hdb Hcalls.
  assert (Hgen : forall calls now db, batches_ok now db -> orderly now calls ->
            exists last, batches_ok last (serve (batch hashIP key) calls db).2).
  { clear. induction calls as [|c cs IH]; intros now db Hdb Hc; [exists now; exact Hdb|].
    cbn [serve orderly] in *. destruct Hc as (Hnow & Hmono & next & Hnext & Hcs).
    pose proof (batches_ok_run hashIP key now next c db Hnow Hmono Hnext Hdb) as Hstep.
    destruct (run (call_clock c) (call_svc c) (batch hashIP key (call_request c)) db)
      as [r db1]. cbn [snd] in Hstep.
    destruct (IH next db1 Hstep Hcs) as [last Hlast].
    destruct (serve (batch hashIP key) cs db1) as [rs db2]. exists last. exact Hlast. }
  destruct (Hgen calls now db Hdb Hcalls) as [last [_ Hcap]]. apply Hcap.
Qed.

Lemma batch_cap_holds_one_by_one_witness :
  (length (ledger_in_window 95 "unknown"
             (serve (batch plain "k") twelve_calls empty_db).2) <= 10)%nat.
Proof.
  apply (batch_cap_holds_one_by_one plain "k" 100 twelve_calls empty_db).
  - split; [constructor | intros; cbn; lia].
  - unfold twelve_calls. cbn [repeat orderly call_clock].
    repeat (split; [intros; unfold at_time; lia|];
            split; [intros; unfold at_time; lia|];
            exists 100; split; [intros; unfold at_time; lia|]).
    exact I.
Defined.

Lemma verifyTurnstile_fails_closed_witness :
  run (at_time 100) (fun _ _ _ => NotJson) (VolumeCap.verifyTurnstile "t" "s" "203.0.113.7")
      empty_db = (Returned false, empty_db).
Proof. apply verifyTurnstile_fails_closed. discriminate. Defined.

End WorkerLaws.

(** * Further properties of the client *)
Module ClientLaws.
Import Interp ClientSpec InterpFacts.

#[local] Arguments round : simpl never.
#[local] Arguments Qltb : simpl never.
#[local] Arguments Qle_bool : simpl never.
#[local] Arguments Qminus : simpl never.

(** ** Scattered timers *)

Lemma chunk_sum_app l1 l2 : chunk_sum (l1 ++ l2) = chunk_sum l1 + chunk_sum l2.
Proof.
  unfold chunk_sum. induction l1 as [|t l1 IH]; cbn; [reflexivity|].
  destruct (Scatter.fires t); rewrite IH; lia.
Qed.

Lemma chunk_sum_nonneg l : Forall is_chunk l -> 0 <= chunk_sum l.
Proof.
  unfold chunk_sum. induction 1 as [|t l Ht _ IH]; cbn; [lia|].
  unfold is_chunk in Ht. destruct (Scatter.fires t); [contradiction | lia].
Qed.

Lemma chunk_sum_delete l i t :
  l !! i = Some t ->
  chunk_sum (delete i l) =
  chunk_sum l - match Scatter.fires t with Scatter.Chunk inc => inc | Scatter.Step => 0 end.
Proof.
  revert i. induction l as [|u l IH]; intros [|i] H; try discriminate.
  - cbn in H. injection H as ->. change (delete 0%nat (t :: l)) with l.
    change (chunk_sum (t :: l)) with
      (match Scatter.fires t with
       | Scatter.Chunk inc => inc + chunk_sum l
       | Scatter.Step => chunk_sum l
       end).
    destruct (Scatter.fires t); lia.
  - cbn in H. change (delete (S i) (u :: l)) with (u :: delete i l).
    change (chunk_sum (u :: delete i l)) with
      (match Scatter.fires u with
       | Scatter.Chunk inc => inc + chunk_sum (delete i l)
       | Scatter.Step => chunk_sum (delete i l)
       end).
    change (chunk_sum (u :: l)) with
      (match Scatter.fires u with
       | Scatter.Chunk inc => inc + chunk_sum l
       | Scatter.Step => chunk_sum l
       end).
    rewrite (IH i H). destruct (Scatter.fires u); lia.
Qed.

(** The chunks of the first [n <= 199] rounds of the loop. *)
Lemma chunk_timers_prefix duration a n :
  0 < a -> (n <= 199)%nat ->
  let f := fun i : nat =>
    let dly := ((Z.of_nat i # 1) / (200 # 1) * duration)%Q in
    let inc := if (Z.of_nat i =? 200 - 1)
               then a - Scatter.ceil_div a 200 * Z.of_nat i else Scatter.ceil_div a 200 in
    if inc <=? 0 then [] else [Scatter.mkTimer dly (Scatter.Chunk inc)] in
  chunk_sum (flat_map f (seq 0 n)) = Z.of_nat n * Scatter.ceil_div a 200 /\
  length (flat_map f (seq 0 n)) = n.
Proof.
  intros Ha Hn f.
  assert (Hp : 0 < Scatter.ceil_div a 200).
  { unfold Scatter.ceil_div. Z.div_mod_to_equations. lia. }
  induction n as [|n IH]; [split; reflexivity|].
  rewrite seq_S, flat_map_app, chunk_sum_app, length_app. cbn [flat_map Nat.add].
  destruct IH as [IH1 IH2]; [lia|]. rewrite IH1, IH2. subst f. cbn beta zeta.
  destruct (Z.eqb_spec (Z.of_nat n) (200 - 1)); [lia|].
  destruct (Z.leb_spec (Scatter.ceil_div a 200) 0); [lia|].
  rewrite app_nil_r. unfold chunk_sum. cbn. split; lia.
Qed.

Lemma chunk_timers_cover duration a :
  0 < a ->
  a <= chunk_sum (Scatter.chunk_timers duration a) /\
  (length (Scatter.chunk_timers duration a) <= 200)%nat.
Proof.
  intros Ha. unfold Scatter.chunk_timers. cbn zeta.
  change (seq 0 200) with (seq 0 199 ++ [199%nat]).
  rewrite flat_map_app, chunk_sum_app, length_app.
  destruct (chunk_timers_prefix duration a 199 Ha ltac:(lia)) as [H1 H2].
  cbn zeta in H1, H2. rewrite H1, H2. cbn [flat_map].
  change (Z.of_nat 199 =? 200 - 1) with true. cbn iota.
  destruct (Z.leb_spec (a - Scatter.ceil_div a 200 * Z.of_nat 199) 0);
    rewrite app_nil_r; unfold chunk_sum; cbn; split; lia.
Qed.

#[local] Arguments chunk_sum : simpl never.

Lemma scatter_covers_step duration s e :
  scatter_covers s -> scatter_covers (Scatter.step duration s e).
Proof.
  intros (Hle & Htimers & Hinit & Hlen).
  destruct e as [rnd newTarget | n | i]; cbn [Scatter.step].
  - unfold Scatter.setTarget.
    destruct (Z.leb_spec newTarget (Scatter.targetRef s)) as [Hnt|Hnt];
      [unfold scatter_covers; auto|].
    cbn [Scatter.initializedRef Scatter.displayRef Scatter.targetRef Scatter.clearTimers
         Scatter.set_timers Scatter.timersRef negb].
    destruct (Scatter.initializedRef s); cbn [negb].
    2:{ unfold scatter_covers; cbn. rewrite (Hinit eq_refl). cbn.
        repeat split; auto; try lia; try discriminate. left. split; [constructor | lia]. }
    destruct (Z.leb_spec (newTarget - Scatter.displayRef s) 0) as [Hd|Hd]; [lia|].
    replace (0 <? Z.min (newTarget - Scatter.displayRef s) 1) with true
      by (symmetry; apply Z.ltb_lt; lia).
    unfold Scatter.show. cbn [Scatter.initializedRef Scatter.displayRef Scatter.targetRef
         Scatter.timersRef Scatter.displayCount].
    destruct (Z.leb_spec (newTarget - Scatter.displayRef s
                          - Z.min (newTarget - Scatter.displayRef s) 1) 0) as [Ha|Ha].
    { unfold scatter_covers; cbn. repeat split; auto; try lia; try discriminate.
      left. split; [constructor | cbn; lia]. }
    destruct (Z.ltb_spec 500 (newTarget - Scatter.displayRef s
                              - Z.min (newTarget - Scatter.displayRef s) 1)) as [Hb|Hb];
      unfold scatter_covers; cbn [Scatter.initializedRef Scatter.displayRef
        Scatter.targetRef Scatter.timersRef Scatter.displayCount Scatter.set_timers
        Scatter.clearTimers app];
      repeat split; try lia; try discriminate.
    + right. split; [apply chunk_timers_chunks|].
      pose proof (chunk_timers_cover duration _ Ha) as [Hc _]. lia.
    + pose proof (chunk_timers_cover duration _ Ha) as [_ Hc]. lia.
    + destruct (step_timers_steps duration rnd
        (newTarget - Scatter.displayRef s - Z.min (newTarget - Scatter.displayRef s) 1))
        as [Hs Hl].
      left. split; [exact Hs|]. rewrite Hl. lia.
    + destruct (step_timers_steps duration rnd
        (newTarget - Scatter.displayRef s - Z.min (newTarget - Scatter.displayRef s) 1))
        as [_ Hl].
      rewrite Hl. lia.
  - unfold scatter_covers, Scatter.addImmediate; cbn.
    repeat split; auto; try lia; try discriminate.
    destruct Htimers as [[Hst He] | [Hc He]]; [left | right]; split; auto; lia.
  - destruct (Scatter.timersRef s !! i) as [t|] eqn:Hi;
      [|unfold scatter_covers; auto].
    pose proof (length_delete (Scatter.timersRef s) i (mk_is_Some _ _ Hi)) as Hdel.
    pose proof (lookup_lt_Some _ _ _ Hi) as Hlt.
    pose proof (chunk_sum_delete _ _ _ Hi) as Hsum.
    destruct Htimers as [[Hst He] | [Hc He]].
    + pose proof (Forall_lookup_1 _ _ _ _ Hst Hi) as Ht. unfold is_step in Ht.
      rewrite Ht. unfold scatter_covers; cbn. repeat split; auto; try lia.
      * left. split; [apply Forall_delete, Hst | lia].
      * intros Hf. rewrite (Hinit Hf) in Hi. discriminate.
    + pose proof (Forall_lookup_1 _ _ _ _ Hc Hi) as Ht. unfold is_chunk in Ht.
      destruct (Scatter.fires t) as [|inc] eqn:Hf; [contradiction|].
      pose proof (chunk_sum_nonneg _ (Forall_delete _ _ i Hc)) as Hnn.
      unfold scatter_covers; cbn. repeat split; auto; try lia.
      * right. split; [apply Forall_delete, Hc | lia].
      * intros Hf'. rewrite (Hinit Hf') in Hi. discriminate.
Qed.

Lemma scatter_covers_run duration es s :
  scatter_covers s -> scatter_covers (Scatter.run duration s es).
Proof.
  revert s. induction es as [|e es IH]; intros s Hs; cbn; [exact Hs|].
  apply IH, scatter_covers_step, Hs.
Qed.

(** In the revision with scattered timers, after any calls and timer
    callbacks (the timers firing in any order): once no timer is
    pending, the displayed value equals the target; and never more than
    500 timers are pending. *)
Theorem scatter_settles_at_target duration es :
  let s := Scatter.run duration Scatter.init es in
  (Scatter.timersRef s = [] -> Scatter.displayRef s = Scatter.targetRef s) /\
  (length (Scatter.timersRef s) <= 500)%nat.
Proof.
  cbn zeta.
  assert (H0 : scatter_covers Scatter.init).
  { unfold scatter_covers; cbn.
    split; [lia | split; [left; split; [constructor | lia] | split; [reflexivity | lia]]]. }
  apply (scatter_covers_run duration es) in H0.
  destruct H0 as (Hle & Htimers & _ & Hlen). split; [|exact Hlen].
  intros Hnil. rewrite Hnil in Htimers. cbn in Htimers.
  destruct Htimers as [[_ He] | [_ He]]; [lia|].
  unfold chunk_sum in He. cbn in He. lia.
Qed.

Lemma scatter_settles_at_target_witness :
  let s := Scatter.run 2000 Scatter.init
             [Scatter.SetTarget (fun _ => 0%Q) 100; Scatter.SetTarget (fun _ => 0%Q) 103;
              Scatter.Timeout 1; Scatter.AddImmediate 1; Scatter.Timeout 0] in
  Scatter.displayRef s = Scatter.targetRef s.
Proof.
  intros s. apply scatter_settles_at_target. reflexivity.
Defined.

Lemma scaled_in_duration (r d : Q) :
  (0 <= r)%Q -> (r < 1)%Q -> (0 < d)%Q -> (0 <= r * d)%Q /\ (r * d < d)%Q.
Proof.
  intros H0 H1 Hd. split.
  - apply Qmult_le_0_compat; [assumption | apply Qlt_le_weak; assumption].
  - apply Qlt_le_trans with (1 * d)%Q; [apply Qmult_lt_r; assumption|].
    apply Qle_lteq. right. ring.
Qed.

Lemma insert_time_Forall (P : Q -> Prop) t ts :
  P t -> Forall P ts -> Forall P (Scatter.insert_time t ts).
Proof.
  intros Ht Hts. induction Hts as [|u us Hu Hus IH]; cbn; [repeat constructor; exact Ht|].
  destruct (Qle_bool t u); [constructor; [exact Ht | constructor; assumption]|].
  constructor; assumption.
Qed.

Lemma sort_times_Forall (P : Q -> Prop) ts :
  Forall P ts -> Forall P (Scatter.sort_times ts).
Proof.
  induction 1 as [|t ts Ht _ IH]; cbn; [constructor|].
  apply insert_time_Forall; assumption.
Qed.

(** In the revision with scattered timers, a call of [setTarget] that
    raises the target of an initialised hook schedules every timer with a
    delay from 0 up to, but not including, [duration] (for a positive
    duration and random numbers in the unit interval): the whole jump is
    due within the duration. *)
Theorem scatter_timers_due_in_time duration rnd t s :
  (0 < duration)%Q ->
  (forall i : nat, (0 <= rnd i)%Q /\ (rnd i < 1)%Q) ->
  Scatter.initializedRef s = true ->
  Scatter.targetRef s < t ->
  Forall (fun tm => (0 <= Scatter.delay tm)%Q /\ (Scatter.delay tm < duration)%Q)
         (Scatter.timersRef (Scatter.setTarget duration rnd t s)).
Proof.
  intros Hd Hrnd Hinit Ht. unfold Scatter.setTarget.
  destruct (Z.leb_spec t (Scatter.targetRef s)); [lia|].
  cbn [Scatter.initializedRef Scatter.displayRef Scatter.targetRef Scatter.clearTimers
       Scatter.set_timers Scatter.timersRef negb].
  rewrite Hinit. cbn [negb].
  destruct (_ <=? 0); [constructor|].
  destruct (0 <? _); (destruct (_ <=? 0); [constructor|]);
    (destruct (500 <? _); cbn [Scatter.timersRef Scatter.set_timers Scatter.show app]).
  all: try (unfold Scatter.step_timers; apply Forall_map, sort_times_Forall, Forall_map,
            Forall_forall; intros i _; cbn; apply scaled_in_duration; try apply Hrnd;
            exact Hd).
  all: unfold Scatter.chunk_timers; cbn zeta; apply Forall_flat_map, Forall_forall;
    intros i Hi; apply list_elem_of_In, in_seq in Hi;
    destruct (_ <=? 0); [constructor|]; constructor; [|constructor]; cbn [Scatter.delay];
    apply scaled_in_duration; [| |exact Hd].
  all: try (apply Qle_shift_div_l; [reflexivity|]; unfold Qle; cbn; lia).
  all: apply Qlt_shift_div_r; [reflexivity|]; unfold Qlt; cbn; lia.
Qed.

Lemma scatter_timers_due_in_time_witness :
  let s := Scatter.run 2000 Scatter.init [Scatter.SetTarget (fun _ => 0%Q) 100] in
  Forall (fun tm => (0 <= Scatter.delay tm)%Q /\ (Scatter.delay tm < 2000)%Q)
         (Scatter.timersRef (Scatter.setTarget 2000 (fun _ => 1 # 2) 1100 s)).
Proof.
  intros s. apply scatter_timers_due_in_time.
  - reflexivity.
  - intros i. split; [discriminate | reflexivity].
  - reflexivity.
  - cbn. lia.
Defined.

(** ** The revision with a deadline *)

Lemma anchored_step duration s e : anchored s -> anchored (Deadline.step duration s e).
Proof.
  unfold anchored. intros Hs.
  destruct e as [now newTarget | n | now rnd]; cbn [Deadline.step].
  - unfold Deadline.setTarget, Deadline.startAnimation.
    destruct (newTarget <=? Deadline.targetRef s); [exact Hs|]. cbn.
    destruct (Deadline.initializedRef s) eqn:Hi; cbn; [auto|].
    intros Hr. destruct (Hs Hr) as [_ Hc]. congruence.
  - unfold Deadline.addImmediate. cbn. auto.
  - destruct (Deadline.rafRef s) eqn:Hr; [|rewrite Hr; discriminate].
    destruct (Hs eq_refl) as [Ha Hi].
    unfold Deadline.tick, Deadline.show, Deadline.set_raf.
    branches; intros; try discriminate; auto.
Qed.

Lemma anchored_run duration es s : anchored s -> anchored (Deadline.run duration s es).
Proof.
  revert s. induction es as [|e es IH]; intros s Hs; cbn; [exact Hs|].
  apply IH, anchored_step, Hs.
Qed.

(** In the revision with a deadline, own clicks and animation frames
    commute in every state the hook can reach: a frame after
    [addImmediate(n)] gives the state that [addImmediate(n)] after the
    same frame gives.  The click shifts the animation by [n]: it is
    neither counted twice nor animated again. *)
Theorem click_commutes_with_frame duration es n now rnd :
  let s := Deadline.run duration Deadline.init es in
  Deadline.step duration (Deadline.addImmediate n s) (Deadline.Frame now rnd) =
  Deadline.addImmediate n (Deadline.step duration s (Deadline.Frame now rnd)).
Proof.
  cbn zeta.
  assert (Hs : anchored (Deadline.run duration Deadline.init es))
    by (apply anchored_run; intros H; discriminate).
  set (s := Deadline.run duration Deadline.init es) in *. clearbody s.
  cbn [Deadline.step]. change (Deadline.rafRef (Deadline.addImmediate n s))
    with (Deadline.rafRef s).
  destruct (Deadline.rafRef s) eqn:Hr; [|reflexivity].
  destruct (Hs Hr) as [Ha _].
  unfold Deadline.tick.
  cbn [Deadline.addImmediate Deadline.animStartRef Deadline.animTargetRef
       Deadline.animStartDisplayRef Deadline.displayRef Deadline.targetRef].
  replace (Deadline.targetRef s + n - (Deadline.animStartDisplayRef s + n))
    with (Deadline.animTargetRef s - Deadline.animStartDisplayRef s) by lia.
  destruct (_ || _).
  - destruct (Z.ltb_spec (Deadline.displayRef s + n) (Deadline.targetRef s + n)),
             (Z.ltb_spec (Deadline.displayRef s) (Deadline.targetRef s)); try lia;
      unfold Deadline.show, Deadline.set_raf, Deadline.addImmediate; cbn; reflexivity.
  - set (r := round _). set (j := if Qltb rnd (3 # 10) then 1 else 0).
    destruct (Z.ltb_spec (Deadline.displayRef s + n)
                (Z.min (Deadline.animStartDisplayRef s + n + r + j) (Deadline.targetRef s + n))),
             (Z.ltb_spec (Deadline.displayRef s)
                (Z.min (Deadline.animStartDisplayRef s + r + j) (Deadline.targetRef s)));
      try lia; unfold Deadline.show, Deadline.set_raf, Deadline.addImmediate; cbn;
      [|reflexivity].
    replace (Z.min (Deadline.animStartDisplayRef s + n + r + j) (Deadline.targetRef s + n))
      with (Z.min (Deadline.animStartDisplayRef s + r + j) (Deadline.targetRef s) + n)
      by lia.
    reflexivity.
Qed.

Lemma running_step duration now0 s e :
  quiet e -> running now0 s -> running now0 (Deadline.step duration s e).
Proof.
  intros He (Hle & Hst & Hr).
  destruct e as [now newTarget | n | now rnd]; cbn in *; [contradiction| |].
  - unfold running, Deadline.addImmediate; cbn. repeat split; try lia; try assumption.
    destruct Hr as [Hraf | Heq]; [left; assumption | right; lia].
  - destruct (Deadline.rafRef s) eqn:Hraf;
      [|unfold running; rewrite Hraf; auto].
    unfold running, Deadline.tick, Deadline.show, Deadline.set_raf.
    branches; repeat split; try lia; try assumption;
      solve [left; reflexivity | right; lia].
Qed.

Lemma running_run duration now0 es s :
  Forall quiet es -> running now0 s -> running now0 (Deadline.run duration s es).
Proof.
  intros Hes. revert s. induction Hes as [|e es He _ IH]; intros s Hs; cbn; [exact Hs|].
  apply IH, running_step; assumption.
Qed.

(** In the revision with a deadline, the animation loop ends: after
    [setTarget(t)] at [now0] and any frames and own clicks, the frame
    whose time stamp is [duration] or more after [now0] requests no
    further frame, and any frames that the browser would still deliver
    change nothing. *)
Theorem animation_loop_stops duration s now0 t es now rnd :
  Deadline.initializedRef s = true ->
  Deadline.displayRef s <= Deadline.targetRef s ->
  Deadline.targetRef s < t ->
  Forall quiet es ->
  (duration <= now - now0)%Q ->
  let s' := Deadline.step duration
              (Deadline.run duration (Deadline.setTarget now0 t s) es)
              (Deadline.Frame now rnd) in
  Deadline.rafRef s' = false /\
  forall now' rnd', Deadline.step duration s' (Deadline.Frame now' rnd') = s'.
Proof.
  intros Hinit Hle Ht Hes Hdue.
  assert (H0 : running now0 (Deadline.setTarget now0 t s)).
  { unfold Deadline.setTarget. destruct (Z.leb_spec t (Deadline.targetRef s)); [lia|].
    cbn. rewrite Hinit. cbn. unfold running; cbn.
    split; [lia | split; [reflexivity | left; reflexivity]]. }
  apply (running_run duration now0 es) in H0; [|exact Hes].
  destruct H0 as (Hle' & Hst & Hr). cbn zeta.
  assert (Hoff : Deadline.rafRef
            (Deadline.step duration (Deadline.run duration (Deadline.setTarget now0 t s) es)
               (Deadline.Frame now rnd)) = false).
  { cbn [Deadline.step]. destruct (Deadline.rafRef _) eqn:Hraf; [|exact Hraf].
    unfold Deadline.tick. rewrite Hst.
    apply Qle_bool_iff in Hdue. rewrite Hdue, orb_true_r. reflexivity. }
  split; [exact Hoff|]. intros now' rnd'.
  set (s' := Deadline.step _ _ _) in *. cbn [Deadline.step]. rewrite Hoff. reflexivity.
Qed.

Lemma animation_loop_stops_witness :
  let s := Deadline.run 2000 Deadline.init [Deadline.SetTarget 0 100] in
  let s' := Deadline.step 2000
              (Deadline.run 2000 (Deadline.setTarget 0 600 s)
                 [Deadline.Frame 500 0; Deadline.AddImmediate 1; Deadline.Frame 1990 (1 # 2)])
              (Deadline.Frame 2005 0) in
  Deadline.rafRef s' = false.
Proof.
  intros s. apply animation_loop_stops.
  - reflexivity.
  - cbn; lia.
  - cbn; lia.
  - repeat constructor; cbn; lia.
  - vm_compute. discriminate.
Defined.

(** ** The accumulator of App *)

Import Accumulator.

Lemma filter_length_all {A} (f : A -> bool) l :
  (length (List.filter f l) <= length l)%nat.
Proof. induction l as [|x l IH]; cbn; [lia|]. destruct (f x); cbn; lia. Qed.

Lemma filter_length_mono {A} (f g : A -> bool) l :
  (forall x, f x = true -> g x = true) ->
  (length (List.filter f l) <= length (List.filter g l))%nat.
Proof.
  intros Hfg. induction l as [|x l IH]; cbn; [lia|].
  destruct (f x) eqn:Hf; [rewrite (Hfg x Hf); cbn; lia|].
  destruct (g x); cbn; lia.
Qed.

Lemma recentClicks_later t now s :
  t <= now -> (length (recentClicks now s) <= length (recentClicks t s))%nat.
Proof.
  intros Hle. unfold recentClicks. apply filter_length_mono.
  intros x Hx. apply Z.ltb_lt in Hx. apply Z.ltb_lt. lia.
Qed.

Lemma click_cap_step t s e :
  (length (recentClicks t s) <= 40)%nat ->
  match stamp e with
  | Some now =>
      t <= now -> (length (recentClicks now (step s e)) <= 40)%nat
  | None => (length (recentClicks t (step s e)) <= 40)%nat
  end.
Proof.
  intros Hs. destruct e as [now | now | r pnow | now | i r now pnow | | pnow rnd];
    cbn [stamp step]; try intros Hle.
  - pose proof (recentClicks_later t now s Hle) as Hl. unfold handleClick.
    destruct (Z.leb_spec CLICK_CAP_PER_SECOND (Z.of_nat (length (recentClicks now s))));
      [lia|].
    unfold CLICK_CAP_PER_SECOND in *. unfold recentClicks in *. cbn.
    rewrite List.filter_app, length_app. cbn.
    replace (now - now <? 1000) with true by (symmetry; apply Z.ltb_lt; lia).
    cbn. lia.
  - pose proof (recentClicks_later t now s Hle) as Hl.
    unfold trackClicks, recentClicks in *. cbn.
    pose proof (filter_length_all (fun t0 => now - t0 <? 1000)
                  (List.filter (fun t0 => now - t0 <? 1000) (clickTimestampsRef s))).
    lia.
  - unfold fetchCount. destruct r as [|status [total|]]; try exact Hs.
    destruct (resp_ok status); exact Hs.
  - pose proof (recentClicks_later t now s Hle) as Hl. unfold sendBatch.
    destruct (_ <=? 0); [lia|]. destruct (now <? _); [lia|]. exact (Nat.le_trans _ _ _ Hl Hs).
  - pose proof (recentClicks_later t now s Hle) as Hl.
    destruct (inflight s !! i) as [b|]; [|lia].
    unfold batchSettled, connectionLost, drop_inflight, recentClicks in *.
    destruct r as [|status [total|]]; cbn; try lia;
      destruct (resp_ok status); cbn; try lia; destruct (status =? 429); cbn; lia.
  - unfold flush. destruct (_ <=? 0); exact Hs.
  - exact Hs.
Qed.

(** However fast the button is pressed, when the callbacks read a clock
    that never goes back, the clicks recorded within the last second
    never exceed 40: a click beyond the cap is ignored, not queued. *)
Theorem at_most_40_clicks_per_second t es :
  chronological t es ->
  (length (recentClicks (last_stamp t es) (run init es)) <= 40)%nat.
Proof.
  assert (Hgen : forall es t s, chronological t es ->
            (length (recentClicks t s) <= 40)%nat ->
            (length (recentClicks (last_stamp t es) (run s es)) <= 40)%nat).
  { clear. induction es as [|e es IH]; intros t s Hc Hs; [exact Hs|].
    cbn [chronological last_stamp run fold_left] in *.
    pose proof (click_cap_step t s e Hs) as He.
    destruct (stamp e) as [now|]; cbn [default].
    - destruct Hc as [Hle Hc]. apply IH; auto.
    - apply IH; auto. }
  intros Hc. apply Hgen; [exact Hc | cbn; lia].
Qed.

Lemma at_most_40_clicks_per_second_witness :
  (length (recentClicks 1999
     (run init (map (fun k : nat => Click (1000 + Z.of_nat k)) (seq 0 60) ++ [SendBatch 1999])))
   <= 40)%nat.
Proof.
  apply (at_most_40_clicks_per_second 1000
           (map (fun k : nat => Click (1000 + Z.of_nat k)) (seq 0 60) ++ [SendBatch 1999])).
  vm_compute. repeat split; discriminate.
Defined.

Lemma in_flight_snoc l b : foldr Z.add 0 (l ++ [b]) = foldr Z.add 0 l + b.
Proof. induction l as [|x l IH]; cbn; [lia | rewrite IH; lia]. Qed.

Lemma in_flight_delete (l : list Z) i b :
  l !! i = Some b -> foldr Z.add 0 (delete i l) = foldr Z.add 0 l - b.
Proof.
  revert i. induction l as [|x l IH]; intros [|i] H; try discriminate.
  - cbn in H. injection H as ->. cbn. lia.
  - cbn in H. change (delete (S i) (x :: l)) with (x :: delete i l).
    cbn [foldr]. rewrite (IH i H). lia.
Qed.

Lemma batch_passes_validation b :
  1 <= b <= 200 -> Worker.validate_count (Some (Worker.JInt b)) = Some b.
Proof.
  intros Hb. cbn. destruct (Z.ltb_spec b 1); [lia|]. destruct (Z.ltb_spec 200 b); [lia|].
  reflexivity.
Qed.

Lemma buffer_ok_step s e : buffer_ok s -> buffer_ok (step s e).
Proof.
  unfold buffer_ok, in_flight. intros (Hp & Hf & Hd).
  destruct e as [now | now | r pnow | now | i r now pnow | | pnow rnd]; cbn [step].
  - unfold handleClick. destruct (_ <=? _); cbn; repeat split; auto; lia.
  - cbn. auto.
  - unfold fetchCount. destruct r as [|status [total|]]; auto.
    destruct (resp_ok status); cbn; auto.
  - unfold sendBatch. destruct (Z.leb_spec (pendingRef s) 0); [auto|].
    destruct (now <? _); [auto|]. cbn. rewrite in_flight_snoc. repeat split; try lia.
    apply Forall_app. split; [exact Hf|]. constructor; [|constructor].
    apply batch_passes_validation. lia.
  - destruct (inflight s !! i) as [b|] eqn:Hi; [|auto].
    pose proof (in_flight_delete _ _ _ Hi) as Hdel.
    pose proof (Forall_lookup_1 _ _ _ _ Hf Hi) as Hb.
    assert (Hr : 1 <= b <= 200).
    { cbn in Hb. destruct (Z.ltb_spec b 1), (Z.ltb_spec 200 b); cbn in Hb;
        try discriminate. lia. }
    pose proof (Forall_delete _ _ i Hf) as Hf'.
    unfold batchSettled, connectionLost, drop_inflight.
    destruct r as [|status [total|]]; cbn; [repeat split; auto; lia| |];
      destruct (resp_ok status); cbn; try (repeat split; auto; lia);
      destruct (status =? 429); cbn; repeat split; auto; lia.
  - unfold flush. destruct (Z.leb_spec (pendingRef s) 0); cbn; repeat split; auto; lia.
  - cbn. auto.
Qed.

(** Whatever happens to the client (clicks, polls, sends, responses of
    any kind in any order, flushes, frames): the pending count is never
    negative, every batch posted is an integer from 1 to 200 and so
    passes the count validation of the worker, and the clicks pending or
    in flight never exceed the unsynced local delta. *)
Theorem buffer_is_conserved es : buffer_ok (run init es).
Proof.
  assert (Hgen : forall es s, buffer_ok s -> buffer_ok (run s es)).
  { clear. induction es as [|e es IH]; intros s Hs; [exact Hs|].
    apply IH, buffer_ok_step, Hs. }
  apply Hgen. unfold buffer_ok, in_flight. cbn. repeat split; [lia | constructor | lia].
Qed.

Lemma hook_step s e :
  hook (step s e) = hook s \/
  exists e', deadline_nonneg e' /\
             hook (step s e) = Deadline.step POLL_INTERVAL_MS (hook s) e'.
Proof.
  destruct e as [now | now | r pnow | now | i r now pnow | | pnow rnd]; cbn [step].
  - unfold handleClick. destruct (_ <=? _); [left; reflexivity|].
    right. exists (Deadline.AddImmediate 1). split; [cbn; lia | reflexivity].
  - left; reflexivity.
  - unfold fetchCount. destruct r as [|status [total|]]; try (left; reflexivity).
    destruct (resp_ok status); [|left; reflexivity].
    right. exists (Deadline.SetTarget pnow (total + localDeltaRef s)). split; [exact I | reflexivity].
  - unfold sendBatch. destruct (_ <=? 0); [left; reflexivity|].
    destruct (now <? _); left; reflexivity.
  - destruct (inflight s !! i) as [b|]; [|left; reflexivity].
    unfold batchSettled, connectionLost, drop_inflight.
    destruct r as [|status [total|]]; cbn; try (left; reflexivity);
      destruct (resp_ok status); cbn; try (left; reflexivity).
    + right. eexists (Deadline.SetTarget pnow _). split; [exact I | reflexivity].
    + destruct (status =? 429); left; reflexivity.
    + destruct (status =? 429); left; reflexivity.
  - unfold flush. destruct (_ <=? 0); left; reflexivity.
  - right. exists (Deadline.Frame pnow rnd). split; [exact I | reflexivity].
Qed.

Lemma hook_run es s :
  deadline_inv (hook s) ->
  deadline_inv (hook (run s es)) /\
  Deadline.displayRef (hook s) <= Deadline.displayRef (hook (run s es)).
Proof.
  revert s. induction es as [|e es IH]; intros s Hs; [split; [exact Hs | cbn; lia]|].
  cbn [run fold_left].
  assert (Hstep : deadline_inv (hook (step s e)) /\
                  Deadline.displayRef (hook s) <= Deadline.displayRef (hook (step s e))).
  { destruct (hook_step s e) as [-> | (e' & He' & ->)]; [split; [exact Hs | lia]|].
    destruct (deadline_step POLL_INTERVAL_MS (hook s) e' He' Hs) as (H1 & H2 & _). auto. }
  destruct Hstep as [H1 H2]. destruct (IH _ H1) as [H3 H4].
  split; [exact H3|]. unfold run in *. lia.
Qed.

(** The number App renders never goes back and never passes the target,
    whatever the clicks, poll results, batch responses and frames, in
    whatever order: a poll that returns an older total, or a response
    that arrives late, cannot lower the displayed count. *)
Theorem rendered_count_never_goes_back es1 es2 :
  let s1 := run init es1 in
  let s2 := run init (es1 ++ es2) in
  Deadline.displayRef (hook s1) <= Deadline.targetRef (hook s1) /\
  Deadline.displayRef (hook s1) <= Deadline.displayRef (hook s2) /\
  (Deadline.displayCount (hook s1) = None \/
   Deadline.displayCount (hook s1) = Some (Deadline.displayRef (hook s1))).
Proof.
  cbn zeta. unfold run. rewrite fold_left_app.
  assert (H0 : deadline_inv (hook init)) by (split; [cbn; lia | left; reflexivity]).
  destruct (hook_run es1 init H0) as [[Hle Hshow] _].
  destruct (hook_run es2 (run init es1) (conj Hle Hshow)) as [_ Hmono].
  unfold run in *. auto.
Qed.

(** A send that fails in a way the sender retries undoes itself: after
    the sender's tick and a rejected fetch, a 429, or a success whose
    body cannot be parsed, the pending count, the local delta, the
    batches in flight and the displayed count are what they were before
    the tick; only the error banner and, for 429, the cooldown differ. *)
Theorem failed_send_restores_buffer s now r now' pnow :
  requeues r = true ->
  let s' := run s [SendBatch now; Settled (length (inflight s)) r now' pnow] in
  pendingRef s' = pendingRef s /\ localDeltaRef s' = localDeltaRef s /\
  inflight s' = inflight s /\ hook s' = hook s /\
  clickTimestampsRef s' = clickTimestampsRef s.
Proof.
  intros Hr. cbn zeta. cbn [run fold_left step]. unfold sendBatch.
  destruct (pendingRef s <=? 0).
  { rewrite lookup_ge_None_2 by lia. auto. }
  destruct (now <? rateLimitedUntilRef s).
  { rewrite lookup_ge_None_2 by lia. auto. }
  cbn [inflight]. rewrite (list_lookup_middle (inflight s) [] _ _ eq_refl).
  unfold drop_inflight. cbn [inflight hook clicksPerSecond error rateLimitedUntilRef
    pendingRef clickTimestampsRef turnstileTokenRef localDeltaRef].
  assert (Hdel : delete (length (inflight s)) (inflight s ++ [Z.min (pendingRef s) 200])
                 = inflight s).
  { generalize (inflight s). intros l. induction l as [|x l IH]; [reflexivity|].
    cbn [length app]. change (delete (S (length l)) (x :: l ++ [Z.min (pendingRef s) 200]))
      with (x :: delete (length l) (l ++ [Z.min (pendingRef s) 200])).
    rewrite IH. reflexivity. }
  rewrite Hdel. unfold batchSettled, connectionLost.
  destruct r as [|status [total|]]; cbn in Hr |- *.
  - repeat split; lia.
  - destruct (resp_ok status); [discriminate|]. rewrite Hr. cbn. repeat split; lia.
  - destruct (resp_ok status); [cbn; repeat split; lia|]. rewrite Hr. cbn. repeat split; lia.
Qed.

Lemma failed_send_restores_buffer_witness :
  pendingRef (run five_pending [SendBatch 2000; Settled 0 (Resp 200 None) 2500 0]) = 5.
Proof.
  exact (proj1 (failed_send_restores_buffer five_pending 2000 (Resp 200 None) 2500 0 eq_refl)).
Defined.

End ClientLaws.

(** * Retryable failures of the batch sender *)
Module AccumulatorFacts.
Import ClientSpec ClientLaws Accumulator.

(** C9, as stated, fails: after a transport error the batch is back in
    the pending buffer but no cooldown has started; the sender sends again
    at the same instant. *)
Lemma transport_error_sets_no_cooldown :
  let failed := run five_pending [SendBatch 2000; Settled 0 NetworkError 2500 0] in
  pendingRef failed = 5 /\ rateLimitedUntilRef failed = 0 /\
  inflight (sendBatch 2500 failed) = [5] /\ pendingRef (sendBatch 2500 failed) = 0.
Proof. vm_compute. repeat split; reflexivity. Qed.

Lemma buffer_ok_run es s : buffer_ok s -> buffer_ok (run s es).
Proof.
  revert s. induction es as [|e es IH]; intros s Hs; [exact Hs|].
  apply IH, buffer_ok_step, Hs.
Qed.

Lemma buffer_ok_init : buffer_ok init.
Proof. unfold buffer_ok, in_flight. cbn. repeat split; [lia | constructor | lia]. Qed.

Lemma inflight_range s i b : buffer_ok s -> inflight s !! i = Some b -> 1 <= b <= 200.
Proof.
  intros (_ & Hf & _) Hi. pose proof (Forall_lookup_1 _ _ _ _ Hf Hi) as Hb.
  cbn in Hb. destruct (Z.ltb_spec b 1), (Z.ltb_spec 200 b); cbn in Hb; try discriminate. lia.
Qed.

(** An event within the 5000 ms that follow [now] leaves the cooldown at
    [now + 5000] or later. *)
Lemma cooldown_step now s e :
  within now (now + 5000) e = true ->
  now + 5000 <= rateLimitedUntilRef s ->
  now + 5000 <= rateLimitedUntilRef (step s e).
Proof.
  intros Hw Hc. destruct e as [t | t | r pnow | t | i r t pnow | | pnow rnd];
    cbn [step]; cbn [within stamp] in Hw.
  - clear Hw. unfold handleClick. destruct (CLICK_CAP_PER_SECOND <=? _); exact Hc.
  - exact Hc.
  - unfold fetchCount. destruct r as [|status [total|]]; try exact Hc.
    destruct (resp_ok status); exact Hc.
  - clear Hw. unfold sendBatch. destruct (pendingRef s <=? 0); [exact Hc|].
    destruct (t <? rateLimitedUntilRef s); exact Hc.
  - apply andb_true_iff in Hw. destruct Hw as [Hlo _]. apply Z.leb_le in Hlo.
    destruct (inflight s !! i) as [b|]; [|exact Hc].
    unfold batchSettled, connectionLost, drop_inflight.
    destruct r as [|status [total|]]; cbn; try exact Hc;
      destruct (resp_ok status); cbn; try exact Hc;
      destruct (status =? 429); cbn; lia.
  - unfold flush. destruct (pendingRef s <=? 0); exact Hc.
  - exact Hc.
Qed.

(** While the cooldown runs, no event but a flush takes anything out of
    the pending buffer. *)
Lemma pending_step now s e :
  within now (now + 5000) e = true ->
  page_stays [e] = true ->
  now + 5000 <= rateLimitedUntilRef s ->
  buffer_ok s ->
  pendingRef s <= pendingRef (step s e).
Proof.
  intros Hw Hp Hc Hok. destruct e as [t | t | r pnow | t | i r t pnow | | pnow rnd];
    cbn [step]; cbn [within stamp] in Hw; try discriminate Hp.
  - clear Hw. unfold handleClick. destruct (CLICK_CAP_PER_SECOND <=? _); cbn; lia.
  - cbn. lia.
  - unfold fetchCount. destruct r as [|status [total|]]; try lia.
    destruct (resp_ok status); cbn; lia.
  - apply andb_true_iff in Hw. destruct Hw as [_ Hhi]. apply Z.ltb_lt in Hhi.
    unfold sendBatch. destruct (pendingRef s <=? 0); [lia|].
    destruct (Z.ltb_spec t (rateLimitedUntilRef s)); [lia | lia].
  - destruct (inflight s !! i) as [b|] eqn:Hi; [|lia].
    pose proof (inflight_range s i b Hok Hi) as Hb.
    unfold batchSettled, connectionLost, drop_inflight.
    destruct r as [|status [total|]]; cbn; try lia;
      destruct (resp_ok status); cbn; try lia;
      destruct (status =? 429); cbn; lia.
  - cbn. lia.
Qed.

Lemma cooldown_run now es s :
  forallb (within now (now + 5000)) es = true ->
  now + 5000 <= rateLimitedUntilRef s ->
  now + 5000 <= rateLimitedUntilRef (run s es).
Proof.
  revert s. induction es as [|e es IH]; intros s Hw Hc; [exact Hc|].
  cbn [forallb] in Hw. apply andb_true_iff in Hw. destruct Hw as [He Hw].
  cbn [run fold_left]. apply IH; [exact Hw | apply cooldown_step; assumption].
Qed.

Lemma pending_run now es s :
  forallb (within now (now + 5000)) es = true ->
  page_stays es = true ->
  now + 5000 <= rateLimitedUntilRef s ->
  buffer_ok s ->
  pendingRef s <= pendingRef (run s es).
Proof.
  revert s. induction es as [|e es IH]; intros s Hw Hp Hc Hok; [cbn; lia|].
  cbn [forallb] in Hw. apply andb_true_iff in Hw. destruct Hw as [He Hw].
  unfold page_stays in Hp. cbn [forallb] in Hp. apply andb_true_iff in Hp.
  destruct Hp as [Hpe Hp].
  assert (Hpe' : page_stays [e] = true) by (unfold page_stays; cbn; rewrite Hpe; reflexivity).
  pose proof (pending_step now s e He Hpe' Hc Hok) as Hstep.
  pose proof (IH (step s e) Hw Hp (cooldown_step now s e He Hc) (buffer_ok_step s e Hok)) as Hrun.
  cbn [run fold_left]. unfold run in Hrun. lia.
Qed.

(** C9, amended.  The client is in any state it can reach and the POST
    of one of its batches settles.  When the answer is 429, the batch
    returns to the pending buffer, the unsynced local delta is kept and
    the cooldown is set to 5000 ms after the answer; as long as the
    clocks read stay within these 5000 ms, whatever happens in between
    (clicks, polls, frames, answers to other batches, flushes) a tick of
    the interval sender sends nothing, and as long as the page is
    neither hidden nor closed the pending buffer never gets smaller.
    The flush on hiding or closing the page does not look at the
    cooldown: it takes up to 200 pending clicks and posts them, and does
    not look at the answer.  When the fetch rejects, the batch returns
    to the pending buffer, the unsynced local delta is kept and no
    cooldown is started: the next tick of the interval sender that is
    not in an earlier cooldown posts again. *)
Theorem retryable_failure_requeues es0 i batch body now pnow :
  let s := run init es0 in
  inflight s !! i = Some batch ->
  let limited := step s (Settled i (Resp 429 body) now pnow) in
  let lost := step s (Settled i NetworkError now pnow) in
  (pendingRef limited = pendingRef s + batch /\
   localDeltaRef limited = localDeltaRef s /\
   rateLimitedUntilRef limited = now + 5000 /\
   (forall es now',
      forallb (within now (now + 5000)) es = true -> now' < now + 5000 ->
      sendBatch now' (run limited es) = run limited es) /\
   (forall es,
      forallb (within now (now + 5000)) es = true -> page_stays es = true ->
      pendingRef limited <= pendingRef (run limited es)) /\
   pendingRef (flush limited) = pendingRef limited - Z.min (pendingRef limited) 200 /\
   pendingRef (flush limited) < pendingRef limited /\
   inflight (flush limited) = inflight limited) /\
  (pendingRef lost = pendingRef s + batch /\
   localDeltaRef lost = localDeltaRef s /\
   rateLimitedUntilRef lost = rateLimitedUntilRef s /\
   forall now', rateLimitedUntilRef s <= now' ->
     inflight (sendBatch now' lost) = inflight lost ++ [Z.min (pendingRef lost) 200] /\
     pendingRef (sendBatch now' lost) = pendingRef lost - Z.min (pendingRef lost) 200).
Proof.
  intros s Hi limited lost.
  assert (Hok : buffer_ok s) by (apply buffer_ok_run, buffer_ok_init).
  pose proof (inflight_range s i batch Hok Hi) as Hb.
  assert (Hokl : buffer_ok limited) by (apply buffer_ok_step, Hok).
  destruct Hok as (Hp & _ & _).
  assert (Hpl : pendingRef limited = pendingRef s + batch)
    by (unfold limited; cbn [step]; rewrite Hi; reflexivity).
  assert (Hrl : rateLimitedUntilRef limited = now + 5000)
    by (unfold limited; cbn [step]; rewrite Hi; reflexivity).
  assert (Hpo : pendingRef lost = pendingRef s + batch)
    by (unfold lost; cbn [step]; rewrite Hi; reflexivity).
  assert (Hro : rateLimitedUntilRef lost = rateLimitedUntilRef s)
    by (unfold lost; cbn [step]; rewrite Hi; reflexivity).
  split.
  - split; [exact Hpl|].
    split; [unfold limited; cbn [step]; rewrite Hi; reflexivity|].
    split; [exact Hrl|]. split; [|split].
    + intros es now' Hw Hlt.
      pose proof (cooldown_run now es limited Hw ltac:(lia)) as Hc.
      unfold sendBatch. destruct (_ <=? 0); [reflexivity|].
      destruct (Z.ltb_spec now' (rateLimitedUntilRef (run limited es))); [reflexivity | lia].
    + intros es Hw Hstay. apply (pending_run now); auto. lia.
    + clearbody limited. unfold flush.
      destruct (Z.leb_spec (pendingRef limited) 0); [lia|].
      cbn [pendingRef inflight]. split; [reflexivity|]. split; [lia | reflexivity].
  - split; [exact Hpo|].
    split; [unfold lost; cbn [step]; rewrite Hi; reflexivity|].
    split; [exact Hro|].
    intros now' Hle. clearbody lost. unfold sendBatch.
    destruct (Z.leb_spec (pendingRef lost) 0); [lia|].
    destruct (Z.ltb_spec now' (rateLimitedUntilRef lost)); [lia|].
    cbn [pendingRef inflight]. split; reflexivity.
Qed.

Lemma retryable_failure_requeues_witness :
  let s := run init [Click 1000; Click 1100; Click 1200; Click 1300; Click 1400;
                     SendBatch 2000] in
  let limited := step s (Settled 0 (Resp 429 None) 2500 0) in
  let lost := step s (Settled 0 NetworkError 2500 0) in
  let busy := [Click 3000; SendBatch 3500; Polled (Resp 200 (Some 9)) 3600; Flush;
               Click 4000; SendBatch 4500] in
  pendingRef limited = 5 /\
  sendBatch 7499 (run limited busy) = run limited busy /\
  pendingRef limited <= pendingRef (run limited [Click 3000; SendBatch 3500]) /\
  pendingRef (flush limited) = 0 /\
  inflight (sendBatch 2500 lost) = [5].
Proof.
  intros s limited lost busy.
  destruct (retryable_failure_requeues
              [Click 1000; Click 1100; Click 1200; Click 1300; Click 1400; SendBatch 2000]
              0 5 None 2500 0 eq_refl)
    as ((Hp & _ & _ & Hquiet & Hkeep & Hflush & _ & _) & (_ & _ & _ & Hagain)).
  split; [exact Hp|].
  split; [apply Hquiet; [reflexivity | lia]|].
  split; [apply Hkeep; reflexivity|].
  split; [exact Hflush|].
  exact (proj1 (Hagain 2500 ltac:(vm_compute; discriminate))).
Defined.

End AccumulatorFacts.

(** * Properties of the edge cache and of the CORS headers *)
Module EdgeLaws.
Import Worker Edge WorkerFacts.

(** [corsHeaders] never reflects an origin that is not on the list: the
    [Access-Control-Allow-Origin] it returns is always one of the allowed
    origins, and it is the origin of the request exactly when that one is
    allowed. *)
Theorem cors_never_reflects_foreign_origin origin :
  allow_origin (corsHeaders origin) ∈ ALLOWED_ORIGINS /\
  (forall o, origin = Some o ->
     (allow_origin (corsHeaders origin) = o <-> o ∈ ALLOWED_ORIGINS)).
Proof.
  unfold corsHeaders. cbn.
  destruct (bool_decide_reflect (default ""%string origin ∈ ALLOWED_ORIGINS)) as [Hin|Hout].
  - split; [exact Hin|]. intros o ->. cbn in *. tauto.
  - split; [unfold ALLOWED_ORIGINS; set_solver|].
    intros o ->. cbn in *. split; [|tauto].
    intros <-. unfold ALLOWED_ORIGINS. set_solver.
Qed.

Lemma cors_never_reflects_foreign_origin_witness :
  allow_origin (corsHeaders (Some "https://evil.example"%string))
    = "https://theglobalcounter.com"%string /\
  allow_origin (corsHeaders (Some "http://localhost:5173"%string))
    = "http://localhost:5173"%string.
Proof.
  split.
  - reflexivity.
  - apply (proj2 (cors_never_reflects_foreign_origin (Some "http://localhost:5173"%string))
             _ eq_refl).
    apply (proj1 (bool_decide_eq_true _)). reflexivity.
Defined.

Lemma lookup_invalidate base c b o :
  invalidate base c !! (b, o) =
  if bool_decide (b = base /\ o ∈ ALLOWED_ORIGINS ++ ["none"%string]) then None
  else c !! (b, o).
Proof.
  unfold invalidate. generalize (ALLOWED_ORIGINS ++ ["none"%string]). intros l.
  induction l as [|x l IH]; cbn [foldr].
  - rewrite bool_decide_eq_false_2; [reflexivity|]. intros [_ H]. inversion H.
  - destruct (decide ((base, x) = (b, o))) as [Heq|Hne].
    + injection Heq as -> ->. rewrite lookup_delete_eq.
      rewrite bool_decide_eq_true_2; [reflexivity|]. split; [reflexivity | left].
    + rewrite lookup_delete_ne by exact Hne. rewrite IH.
      destruct (bool_decide_reflect (b = base /\ o ∈ l)) as [[Hb Ho]|Hn].
      * rewrite bool_decide_eq_true_2; [reflexivity|]. split; [exact Hb | right; exact Ho].
      * rewrite bool_decide_eq_false_2; [reflexivity|].
        intros [Hb Ho]. apply Hn. split; [exact Hb|].
        apply elem_of_cons in Ho as [->|Ho]; [|exact Ho]. subst. contradiction.
Qed.

Lemma told_cache_origin origin :
  told (cache_origin origin) = allow_origin (corsHeaders origin).
Proof.
  destruct origin as [o|]; [reflexivity|]. reflexivity.
Qed.

Lemma handleClick_store hashIP key base origin clock svc request w :
  let out := handleClick hashIP key base origin clock svc request w in
  total (store w) <= total (store out.2) /\
  (forall r, out.1 = Returned r ->
     forall n, resp_body (answer r) = OkTotal n -> n = total (store out.2)) /\
  cache out.2 =
    (if match out.1 with
        | Returned r => match resp_body (answer r) with OkTotal _ => true | _ => false end
        | Rejected => false
        end
     then invalidate base <$> cache w else cache w).
Proof.
  cbn zeta. unfold handleClick.
  pose proof (handleClick_volume_effect hashIP key clock svc request (store w)) as He.
  unfold click_effect in He.
  destruct (run clock svc (VolumeCap.handleClick hashIP key request) (store w)) as [res db'].
  cbn [fst snd store cache].
  destruct res as [r|]; cbn [accepted] in *.
  - destruct (resp_body r) eqn:Hr; cbn [answer]; rewrite ?Hr.
    5:{ destruct He as (Hres & Hreq & Ht & _). injection Hres as ->. cbn in Hr.
        injection Hr as <-. split; [lia|]. split; [|reflexivity].
        intros r0 [= <-] n0 Hn. cbn in Hn. injection Hn as <-. lia. }
    all: destruct He as [Ht _]; split; [lia|]; split; [|reflexivity];
      intros r0 [= <-] n0 Hn; cbn in Hn; congruence.
  - destruct He as [Ht _]. split; [lia|]. split; [discriminate | reflexivity].
Qed.

(** Read after write: when a click is accepted, the next read of
    [/count] through the same base, from an allowed origin or without
    [Origin] header, misses the cache and returns the total that the
    click was told, which is the stored total. *)
Theorem read_after_write_is_fresh hashIP key base who clock svc request w origin r n :
  cache_origin origin ∈ ALLOWED_ORIGINS ++ ["none"%string] ->
  (handleClick hashIP key base who clock svc request w).1 = Returned r ->
  resp_body (answer r) = OkTotal n ->
  let w1 := (handleClick hashIP key base who clock svc request w).2 in
  (handleCount base origin w1).1 = mkReply (mkResponse 200 (Total n)) (corsHeaders origin).
Proof.
  intros Ho Hr Hn w1.
  destruct (handleClick_store hashIP key base who clock svc request w) as (_ & Htot & Hc).
  fold w1 in Htot, Hc. rewrite Hr, Hn in Hc. rewrite (Htot r Hr n Hn).
  unfold handleCount. rewrite Hc. destruct (cache w) as [c|]; cbn [fmap option_fmap option_map].
  - rewrite lookup_invalidate. rewrite bool_decide_eq_true_2 by (split; [reflexivity | exact Ho]).
    reflexivity.
  - reflexivity.
Qed.

Lemma read_after_write_is_fresh_witness :
  let w0 := (handleCount "https://api" None cold).2 in
  let w1 := (handleClick plain "k" "https://api" None (at_time 100) accepting
               (click 47 None None) w0).2 in
  (handleCount "https://api" None w0).1 = mkReply (mkResponse 200 (Total 0)) (corsHeaders None) /\
  (handleCount "https://api" None w1).1 = mkReply (mkResponse 200 (Total 47)) (corsHeaders None).
Proof.
  intros w0 w1. split; [reflexivity|].
  eapply (read_after_write_is_fresh plain "k" "https://api" None (at_time 100) accepting
            (click 47 None None) w0 None).
  - apply (proj1 (bool_decide_eq_true _)). reflexivity.
  - reflexivity.
  - reflexivity.
Defined.

(** The invalidation covers the listed origins only: a read from an
    origin outside the list (and other than ["none"]) that was cached
    before a click is answered from the cache after the click, with the
    total from before the click. *)
Theorem unlisted_origin_reads_stale hashIP key base who clock svc request w c o cached :
  cache w = Some c ->
  c !! (base, o) = Some cached ->
  o ∉ ALLOWED_ORIGINS ++ ["none"%string] ->
  let w1 := (handleClick hashIP key base who clock svc request w).2 in
  (handleCount base (Some o) w1).1 = cached.
Proof.
  intros Hc Hk Ho w1.
  destruct (handleClick_store hashIP key base who clock svc request w) as (_ & _ & Hc1).
  fold w1 in Hc1. unfold handleCount. rewrite Hc1, Hc.
  change (cache_origin (Some o)) with o.
  destruct (match (handleClick hashIP key base who clock svc request w).1 with
            | Returned r => _ | Rejected => false end);
    cbn [fmap option_fmap option_map].
  - rewrite lookup_invalidate. rewrite bool_decide_eq_false_2 by (intros [_ H]; auto).
    rewrite Hk. reflexivity.
  - rewrite Hk. reflexivity.
Qed.

Lemma unlisted_origin_reads_stale_witness :
  let elsewhere := Some "https://elsewhere.example"%string in
  let w0 := (handleCount "https://api" elsewhere cold).2 in
  let w1 := (handleClick plain "k" "https://api" None (at_time 100) accepting
               (click 47 None None) w0).2 in
  total (store w1) = 47 /\
  (handleCount "https://api" elsewhere w1).1
    = mkReply (mkResponse 200 (Total 0)) (corsHeaders elsewhere).
Proof.
  intros elsewhere w0 w1. split; [reflexivity|].
  apply (unlisted_origin_reads_stale plain "k" "https://api" None (at_time 100) accepting
           (click 47 None None) w0
           (<[("https://api"%string, "https://elsewhere.example"%string) :=
                mkReply (mkResponse 200 (Total 0)) (corsHeaders elsewhere)]> ∅)).
  - reflexivity.
  - apply lookup_insert_eq.
  - apply (proj1 (bool_decide_eq_false _)). reflexivity.
Defined.

Lemma cache_ok_step hashIP key w o : cache_ok w -> cache_ok (serve_op hashIP key w o).
Proof.
  intros Hw. destruct o as [base origin | base origin clock svc request]; cbn [serve_op].
  - unfold handleCount. destruct (cache w) as [c|] eqn:Hc; [|exact Hw].
    destruct (c !! (base, cache_origin origin)) as [cached|] eqn:Hk; [exact Hw|].
    intros c' b o r Hc' Hr. cbn in Hc'. injection Hc' as <-. cbn [store snd].
    destruct (decide ((base, cache_origin origin) = (b, o))) as [Heq|Hne].
    + injection Heq as <- <-. rewrite lookup_insert_eq in Hr. injection Hr as <-.
      cbn. split; [symmetry; apply told_cache_origin|]. eexists; split; [reflexivity | lia].
    + rewrite lookup_insert_ne in Hr by exact Hne. exact (Hw c b o r Hc Hr).
  - destruct (handleClick_store hashIP key base origin clock svc request w) as (Ht & _ & Hc).
    intros c' b o r Hc' Hr. rewrite Hc in Hc'.
    assert (Hold : exists c, cache w = Some c /\ c !! (b, o) = Some r).
    { destruct (match (handleClick hashIP key base origin clock svc request w).1 with
                | Returned r => _ | Rejected => false end).
      - destruct (cache w) as [c|]; [|discriminate].
        cbn [fmap option_fmap option_map] in Hc'. injection Hc' as <-.
        exists c. split; [reflexivity|]. rewrite lookup_invalidate in Hr.
        destruct (bool_decide _); [discriminate | exact Hr].
      - exists c'. auto. }
    destruct Hold as (c & Hcw & Hcr). destruct (Hw c b o r Hcw Hcr) as (Ha & n & Hn & Hle).
    split; [exact Ha|]. exists n. split; [exact Hn | lia].
Qed.

(** For requests served one after the other from a cold cache: whatever
    was cached and invalidated before, the answer to a read of [/count]
    carries the [Access-Control-Allow-Origin] that [corsHeaders] gives
    for the reader's own origin (an entry cached for one origin never
    reaches another), and the total it reports is never above the stored
    total. *)
Theorem cached_reads_are_sound hashIP key os base origin :
  let w := serve_ops hashIP key cold os in
  let r := (handleCount base origin w).1 in
  allow_origin (headers r) = allow_origin (corsHeaders origin) /\
  exists n, resp_body (answer r) = Total n /\ n <= total (store w).
Proof.
  cbn zeta.
  assert (Hw : cache_ok (serve_ops hashIP key cold os)).
  { assert (Hgen : forall os w, cache_ok w -> cache_ok (serve_ops hashIP key w os)).
    { clear. induction os as [|o os IH]; intros w Hw; [exact Hw|].
      apply IH, cache_ok_step, Hw. }
    apply Hgen. intros c b o r Hc Hr. cbn in Hc. injection Hc as <-.
    rewrite lookup_empty in Hr. discriminate. }
  set (w := serve_ops hashIP key cold os) in *. clearbody w.
  unfold handleCount. destruct (cache w) as [c|] eqn:Hc.
  - destruct (c !! (base, cache_origin origin)) as [cached|] eqn:Hk; cbn [fst].
    + destruct (Hw c _ _ _ Hc Hk) as (Ha & n & Hn & Hle).
      rewrite Ha, told_cache_origin. eauto.
    + cbn. split; [reflexivity|]. eexists; split; [reflexivity | lia].
  - cbn. split; [reflexivity|]. eexists; split; [reflexivity | lia].
Qed.

End EdgeLaws.

(** * Properties of the text of the digest *)
Module HexLaws.
Import Hex.

Local Open Scope N_scope.

Lemma in_all_bytes b : b < 256 -> In b all_bytes.
Proof.
  intros Hb. unfold all_bytes. apply in_map_iff. exists (N.to_nat b).
  split; [apply N2Nat.id|]. apply in_seq. lia.
Qed.

Lemma byte_two_chars b : b < 256 ->
  exists a1 a2, padStart2 (toString16 b) = String a1 (String a2 EmptyString).
Proof.
  intros Hb.
  assert (Hall : forallb two_chars all_bytes = true) by (vm_compute; reflexivity).
  pose proof (proj1 (forallb_forall _ _) Hall b (in_all_bytes b Hb)) as H.
  unfold two_chars in H. apply Nat.eqb_eq in H.
  destruct (padStart2 (toString16 b)) as [|a1 [|a2 [|a3 r]]]; try discriminate.
  eauto.
Qed.

Lemma byte_text_injective b1 b2 : b1 < 256 -> b2 < 256 ->
  padStart2 (toString16 b1) = padStart2 (toString16 b2) -> b1 = b2.
Proof.
  intros H1 H2 Heq.
  assert (Hall : forallb (fun x => forallb (distinct_texts x) all_bytes) all_bytes = true)
    by (vm_compute; reflexivity).
  pose proof (proj1 (forallb_forall _ _) Hall b1 (in_all_bytes b1 H1)) as Hb1.
  pose proof (proj1 (forallb_forall _ _) Hb1 b2 (in_all_bytes b2 H2)) as Hb.
  unfold distinct_texts in Hb. rewrite Heq, String.eqb_refl in Hb. cbn in Hb.
  apply N.eqb_eq. exact Hb.
Qed.

Lemma append_empty (s : string) : (s ++ EmptyString)%string = s.
Proof.
  induction s as [|a s IH]; [reflexivity|].
  change (String a s ++ EmptyString)%string with (String a (s ++ EmptyString)%string).
  f_equal. exact IH.
Qed.

Lemma hex_cons b l :
  hex (b :: l) = (padStart2 (toString16 b) ++ hex l)%string.
Proof.
  unfold hex. cbn [map]. destruct (map _ l) eqn:Hm; cbn [String.concat].
  - rewrite append_empty. reflexivity.
  - reflexivity.
Qed.

(** The text of a digest has two characters per byte (64 for the 32
    bytes of SHA-256), and distinct byte sequences have distinct texts:
    two addresses get the same [ip_hash] exactly when their digests are
    equal. *)
Theorem hex_is_faithful (digest : string -> list N) :
  (forall ip, Forall (fun b => b < 256) (digest ip)) ->
  (forall ip, String.length (hashIP digest ip) = (2 * length (digest ip))%nat) /\
  (forall ip1 ip2, hashIP digest ip1 = hashIP digest ip2 <-> digest ip1 = digest ip2).
Proof.
  intros Hbytes.
  assert (Hlen : forall l, Forall (fun b => b < 256) l ->
                           String.length (hex l) = (2 * length l)%nat).
  { induction 1 as [|b l Hb _ IH]; [reflexivity|].
    rewrite hex_cons. destruct (byte_two_chars b Hb) as (a1 & a2 & ->).
    change (String.length (String a1 (String a2 EmptyString) ++ hex l)%string)
      with (S (S (String.length (hex l)))).
    rewrite IH. cbn [length]. lia. }
  assert (Hinj : forall l1, Forall (fun b => b < 256) l1 ->
                 forall l2, Forall (fun b => b < 256) l2 -> hex l1 = hex l2 -> l1 = l2).
  { induction 1 as [|b1 l1 Hb1 Hl1 IH]; intros l2 Hl2 Heq.
    - destruct Hl2 as [|b2 l2 Hb2 Hl2]; [reflexivity|].
      apply (f_equal String.length) in Heq.
      rewrite (Hlen [] ltac:(constructor)), (Hlen (b2 :: l2)) in Heq
        by (constructor; assumption).
      cbn in Heq. lia.
    - destruct Hl2 as [|b2 l2 Hb2 Hl2].
      + apply (f_equal String.length) in Heq.
        rewrite (Hlen [] ltac:(constructor)), (Hlen (b1 :: l1)) in Heq
          by (constructor; assumption).
        cbn in Heq. lia.
      + rewrite !hex_cons in Heq.
        destruct (byte_two_chars b1 Hb1) as (a1 & a2 & E1).
        destruct (byte_two_chars b2 Hb2) as (c1 & c2 & E2).
        rewrite E1, E2 in Heq.
        change (String a1 (String a2 (hex l1)) = String c1 (String c2 (hex l2))) in Heq.
        injection Heq as -> -> Hrest.
        rewrite <- E2 in E1. apply byte_text_injective in E1; [|assumption..].
        subst b2. f_equal. apply IH; assumption. }
  split.
  - intros ip. apply Hlen, Hbytes.
  - intros ip1 ip2. unfold hashIP. split; [|intros ->; reflexivity].
    apply Hinj; apply Hbytes.
Qed.

Lemma hex_is_faithful_witness :
  String.length (hashIP (fun _ => [0; 10; 255; 16]) "203.0.113.7") = 8%nat /\
  hashIP (fun _ => [0; 10; 255; 16]) "203.0.113.7" = "000aff10"%string.
Proof.
  split; [|reflexivity].
  apply (proj1 (hex_is_faithful (fun _ => [0; 10; 255; 16])
                  ltac:(intros; repeat constructor))).
Defined.

End HexLaws.
